(** * The plugin runtime of [unify]: registry, event bus, state store,
      lazy loader and plugin manager

    Shallow embedding of
    - [src/plugins/lazyLoader.ts]  (lazyLoadPlugin, PluginRegistry,
      PluginManager, ErrorBoundary, the Plugin type),
    - [src/pages/HomePage.tsx]     (PluginEventBus),
    - [src/plugins/state.ts]       (PluginStateManager),
    - the PluginLifecycle and PluginConfig interfaces,
    - PluginContainer, HomePage, DemoPage, PluginSettings, CounterComponent
      and the todo components.

    The definitions come first, the theorems follow. *)

From Stdlib Require Import ZArith String Ascii.
From stdpp Require Import gmap strings list fin_maps pretty.

Local Open Scope Z_scope.
Local Open Scope string_scope.
Set Warnings "-register-all".

(* ===================================================================== *)
(** ** JavaScript values, thrown values and completions                   *)
(* ===================================================================== *)

(** Values of type [any] that travel through the bus and the store.
    [JNum] carries the integer-valued numbers (counters, lengths); a BigInt
    is a value of its own, which [JSON.stringify] refuses. *)
Inductive JsVal : Type :=
| JUndefined
| JNull
| JBool (b : bool)
| JNum (n : Z)
| JBigInt (n : Z)
| JStr (s : string)
| JArr (items : list JsVal)
| JObj (fields : list (string * JsVal)).

(** What a [throw] carries: an [Error] object (its name and message) or any
    other value. *)
Inductive Thrown : Type :=
| ErrorObj (name message : string)
| ThrownVal (v : JsVal).

(** [err instanceof Error ? err.message : fallback] *)
Definition message_or (fallback : string) (e : Thrown) : string :=
  match e with
  | ErrorObj _ msg => msg
  | ThrownVal _ => fallback
  end.

(** How a call ends: it returns a value or it throws. *)
Inductive Completion (A : Type) : Type :=
| Normal (a : A)
| Throw (e : Thrown).
Arguments Normal {A} a.
Arguments Throw {A} e.

Definition threw {A} (c : Completion A) : bool :=
  match c with Normal _ => false | Throw _ => true end.

(** Property read [o.k]: own fields of an object, [undefined] otherwise. *)
Fixpoint field (k : string) (fields : list (string * JsVal)) : JsVal :=
  match fields with
  | [] => JUndefined
  | (k', v) :: rest => if String.eqb k k' then v else field k rest
  end.

(** String conversion of a template literal [`${v}`]. *)
Fixpoint ToString (v : JsVal) : string :=
  match v with
  | JUndefined => "undefined"
  | JNull => "null"
  | JBool true => "true"
  | JBool false => "false"
  | JNum n => pretty n
  | JBigInt n => pretty n
  | JStr s => s
  | JArr items =>
      (fix join (l : list JsVal) : string :=
         match l with
         | [] => ""
         | x :: rest =>
             let sx := match x with
                       | JUndefined | JNull => ""
                       | _ => ToString x
                       end in
             match rest with
             | [] => sx
             | _ :: _ => sx +:+ "," +:+ join rest
             end
         end) items
  | JObj _ => "[object Object]"
  end.

(** Truthiness of a string: only the empty string is falsy. *)
Definition truthy (s : string) : bool :=
  negb (String.eqb s "").

(* ===================================================================== *)
(** ** A state-and-exception monad for the imperative code                *)
(* ===================================================================== *)

Definition M (S A : Type) : Type := S -> S * Completion A.

Definition ret {S A} (a : A) : M S A := fun s => (s, Normal a).

Definition throw {S A} (e : Thrown) : M S A := fun s => (s, Throw e).

Definition bind {S A B} (m : M S A) (k : A -> M S B) : M S B :=
  fun s =>
    match m s with
    | (s', Normal a) => k a s'
    | (s', Throw e) => (s', Throw e)
    end.

(** [try { body } catch (e) { handler e }] *)
Definition try_catch {S A} (body : M S A) (handler : Thrown -> M S A) : M S A :=
  fun s =>
    match body s with
    | (s', Normal a) => (s', Normal a)
    | (s', Throw e) => handler e s'
    end.

Definition modify {S} (f : S -> S) : M S unit := fun s => (f s, Normal tt).

Definition gets {S A} (f : S -> A) : M S A := fun s => (s, Normal (f s)).

(** Lifts a completion that needs no state. *)
Definition liftC {S A} (c : Completion A) : M S A := fun s => (s, c).

Notation "x <- m ;; k" := (bind m (fun x => k))
  (at level 100, m at next level, right associativity).
Notation "m ;;; k" := (bind m (fun _ => k))
  (at level 100, right associativity).

(** [xs.forEach(f)]: the callback runs on every element in order; a throw
    leaves the loop. *)
Fixpoint forEach {S A} (f : A -> M S unit) (xs : list A) : M S unit :=
  match xs with
  | [] => ret tt
  | x :: rest => f x ;;; forEach f rest
  end.

(** [xs.forEach(f)] on an array that the callback can change while the
    loop runs. The length is read once, before the first call; every index
    below it is then looked up in the array as it is at that moment, and an
    index that the array no longer has is passed over. [array] reads the
    array out of the state, [k] is the next index, [n] the number of
    indices still to visit. *)
Fixpoint forEachLive {S A} (array : S -> list A) (f : A -> M S unit) (k n : nat)
  : M S unit :=
  match n with
  | O => ret tt
  | Datatypes.S n' =>
      (fun s => match array s !! k with
                | Some x => f x s
                | None => ret tt s
                end) ;;;
      forEachLive array f (Datatypes.S k) n'
  end.

(* ===================================================================== *)
(** ** The environment: localStorage and what an observer sees            *)
(* ===================================================================== *)

(** The three hooks of [PluginLifecycle]. *)
Inductive HookName : Type := OnMount | OnUnmount | OnUpdate.

(** What the runtime lets an observer see, in order: lines written with
    [console.error], handler invocations, publications, and calls of a
    plugin's lifecycle hooks. [Published] is a call of [publish] by the code
    under study; what a handler does to the bus from within a delivery
    shows as [PublishedWithin] (the handler called [publish]) and as
    [Unsubscribed] (the handler called an unsubscribe function, and that
    call took the function of identity [hid] off the list of [event]). *)
Inductive Obs : Type :=
| ConsoleError (msg : string) (cause : Thrown)
| Invoked (hid : nat) (data : JsVal)
| Published (event : string) (data : JsVal)
| HookCalled (pluginId : string) (hook : HookName)
| PublishedWithin (event : string) (data : JsVal)
| Unsubscribed (event : string) (hid : nat).

(** [storage] is [window.localStorage], taken as a medium that accepts
    every write; [trace] is what has been observed so far. *)
Record Env : Type := mkEnv {
  storage : gmap string string;
  trace : list Obs
}.

Definition set_storage (f : gmap string string -> gmap string string) (e : Env) : Env :=
  mkEnv (f (storage e)) (trace e).

Definition observe (o : Obs) (e : Env) : Env :=
  mkEnv (storage e) (trace e ++ [o]).

(** [localStorage.getItem(key)]: the string or [null]. *)
Definition getItem (key : string) : M Env (option string) :=
  gets (fun e => storage e !! key).

(** [localStorage.setItem(key, value)] *)
Definition setItem (key value : string) : M Env unit :=
  modify (set_storage (insert key value)).

(** [localStorage.removeItem(key)] *)
Definition removeItem (key : string) : M Env unit :=
  modify (set_storage (delete key)).

(** [console.error(msg, cause)] *)
Definition console_error (msg : string) (cause : Thrown) : M Env unit :=
  modify (observe (ConsoleError msg cause)).

(** The observations of one kind, in order. *)
Definition invocations (tr : list Obs) : list (nat * JsVal) :=
  omap (fun o => match o with Invoked h d => Some (h, d) | _ => None end) tr.

Definition publications (tr : list Obs) : list (string * JsVal) :=
  omap (fun o => match o with Published ev d => Some (ev, d) | _ => None end) tr.

Definition console_errors (tr : list Obs) : list (string * Thrown) :=
  omap (fun o => match o with ConsoleError m c => Some (m, c) | _ => None end) tr.

Definition hook_calls (tr : list Obs) : list (string * HookName) :=
  omap (fun o => match o with HookCalled p h => Some (p, h) | _ => None end) tr.

(** The publications that handlers made from within a delivery. *)
Definition republications (tr : list Obs) : list (string * JsVal) :=
  omap (fun o => match o with PublishedWithin ev d => Some (ev, d) | _ => None end) tr.

(** The handlers that were taken off the list of [event] from within a
    delivery. *)
Definition unsubscriptions (event : string) (tr : list Obs) : list nat :=
  omap (fun o => match o with
                 | Unsubscribed ev n => if String.eqb ev event then Some n else None
                 | _ => None
                 end) tr.

(** How many calls of [publish] the engine's call stack lets handlers nest
    inside one delivery; a call beyond that throws a RangeError. *)
Class CallStack : Type := { frames : nat }.

(** [JSON.stringify] and [JSON.parse] belong to the platform. [stringify]
    returns a string, or [undefined] ([None]), or throws; [parse] returns a
    value or throws a SyntaxError. The text of a value is never empty. *)
Class JSON : Type := {
  JSON_stringify : JsVal -> Completion (option string);
  JSON_parse : string -> Completion JsVal;
  JSON_stringify_nonempty :
    forall v s, JSON_stringify v = Normal (Some s) -> s <> ""
}.

(** The string [setItem] receives for the result of [JSON.stringify]:
    [undefined] is stored as the text "undefined". *)
Definition stored_text (o : option string) : string :=
  match o with
  | Some s => s
  | None => "undefined"
  end.

(* ===================================================================== *)
(** ** Plugin descriptors (types.ts, config.ts, lifecycle.ts)             *)
(* ===================================================================== *)

Record PluginConfig : Type := mkConfig {
  enabled : bool;
  position : option string;
  settings : option (list (string * JsVal))
}.

(** Rendered output. *)
Inductive Element : Type :=
| Div (key : option string) (className : string) (children : list Element)
| Text (s : string).

(** A React component: its render with the given props returns an element
    or throws. *)
Definition Component : Type := list (string * JsVal) -> Completion Element.

(** A callback that acts on the storage and may throw. *)
Definition Effect : Type := gmap string string -> gmap string string * Completion unit.

Record PluginLifecycle : Type := mkLifecycle {
  onMount : option Effect;
  onUnmount : option Effect;
  onUpdate : option (JsVal -> Effect)
}.

Record Plugin : Type := mkPlugin {
  id : string;
  name : string;
  description : option string;
  section : string;
  component : Component;
  config : option PluginConfig;
  lifecycle : option PluginLifecycle;
  order : option Z;
  dependencies : option (list string)
}.

(* ===================================================================== *)
(** ** A JavaScript [Map] with string keys                                *)
(* ===================================================================== *)

(** A [Map] iterates in insertion order, and [set] on a key already there
    replaces the value where it stands: an association list with one entry
    per key. *)
Module JsMap.

Fixpoint set {V} (k : string) (v : V) (m : list (string * V)) : list (string * V) :=
  match m with
  | [] => [(k, v)]
  | (k', v') :: rest =>
      if String.eqb k k' then (k, v) :: rest else (k', v') :: set k v rest
  end.

Fixpoint get {V} (k : string) (m : list (string * V)) : option V :=
  match m with
  | [] => None
  | (k', v') :: rest => if String.eqb k k' then Some v' else get k rest
  end.

Fixpoint delete {V} (k : string) (m : list (string * V)) : list (string * V) :=
  match m with
  | [] => []
  | (k', v') :: rest =>
      if String.eqb k k' then rest else (k', v') :: delete k rest
  end.

Definition values {V} (m : list (string * V)) : list V := map snd m.

Definition keys {V} (m : list (string * V)) : list string := map fst m.

End JsMap.

(* ===================================================================== *)
(** ** PluginRegistry                                                     *)
(* ===================================================================== *)

Module PluginRegistry.

(** [private plugins: Map<string, Plugin>] *)
Definition t : Type := list (string * Plugin).

Definition empty : t := [].

(** [private sections: Set<string>] *)
Definition sections : gset string :=
  list_to_set ["header"; "sidebar"; "content"; "footer"].

Definition register (plugin : Plugin) : M t unit :=
  if bool_decide (section plugin ∈ sections)
  then modify (JsMap.set (id plugin) plugin)
  else throw (ErrorObj "Error" ("Invalid section: " +:+ section plugin)).

Definition unregister (pluginId : string) : M t unit :=
  modify (JsMap.delete pluginId).

Definition getPlugin (pluginId : string) (reg : t) : option Plugin :=
  JsMap.get pluginId reg.

Definition getPluginsBySection (sec : string) (reg : t) : list Plugin :=
  List.filter (fun plugin => String.eqb (section plugin) sec) (JsMap.values reg).

(** Registers the descriptors one after the other; stops at the first
    registration that throws. *)
Definition registerAll (ps : list Plugin) : M t unit := forEach register ps.

End PluginRegistry.

(* ===================================================================== *)
(** ** PluginEventBus                                                     *)
(* ===================================================================== *)

(** What a callback does when it is called. A handler is any closure: it
    can read and write localStorage, throw, and call the bus it is
    subscribed to, also while that bus is delivering an event to it. A
    script lists these steps in order. [Read] hands the storage to the rest
    of the script; [Subscribe] carries the identity and the body of the
    function it subscribes; [Unsubscribe event n] is a call of the function
    that [subscribe(event, f)] returned for the function [f] of identity
    [n]. What a closure remembers from call to call is taken to be kept in
    the storage; the React state and the registry are out of its reach. *)
Inductive Script : Type :=
| Return
| Raise (error : Thrown)
| Read (k : gmap string string -> Script)
| Write (f : gmap string string -> gmap string string) (k : Script)
| Subscribe (event : string) (hid : nat) (hbody : JsVal -> Script) (k : Script)
| Unsubscribe (event : string) (hid : nat) (k : Script)
| Publish (event : string) (data : JsVal) (k : Script)
| Clear (event : string) (k : Script)
| ClearAll (k : Script).

(** [type EventHandler = (data: any) => void]. A handler is a function
    object: [hid] is its identity (what [indexOf] compares), [hbody] what a
    call does. *)
Record EventHandler : Type := mkHandler {
  hid : nat;
  hbody : JsVal -> Script
}.

(** The script of a callback that only acts on the storage. *)
Definition storage_only (f : Effect) : Script :=
  Read (fun st =>
          Write (fun _ => fst (f st))
            match snd (f st) with
            | Normal _ => Return
            | Throw error => Raise error
            end).

(** Runs a callback on the storage of the environment. *)
Definition run_effect (f : Effect) : M Env unit :=
  fun e =>
    let '(st, c) := f (storage e) in
    (mkEnv st (trace e), c).

Module PluginEventBus.

(** [private events: Map<string, EventHandler[]>] *)
Abbreviation t := (gmap string (list EventHandler)).

(** [handlers.indexOf(handler)]: the first index that holds this very
    function, [-1] when there is none. *)
Fixpoint indexOf_from (i : Z) (handler : EventHandler) (handlers : list EventHandler) : Z :=
  match handlers with
  | [] => -1
  | h :: rest =>
      if Nat.eqb (hid h) (hid handler) then i
      else indexOf_from (i + 1) handler rest
  end.

Definition indexOf (handler : EventHandler) (handlers : list EventHandler) : Z :=
  indexOf_from 0 handler handlers.

(** [handlers.splice(index, 1)] *)
Definition splice1 (index : Z) (handlers : list EventHandler) : list EventHandler :=
  delete (Z.to_nat index) handlers.

(** The function that [subscribe] returns. *)
Definition unsubscribe (event : string) (handler : EventHandler) (events : t) : t :=
  match events !! event with
  | Some handlers =>
      let index := indexOf handler handlers in
      if index >? -1 then <[event := splice1 index handlers]> events
      else events
  | None => events
  end.

(** [subscribe(event, handler)]: the bus afterwards, and the function
    that unsubscribes. *)
Definition subscribe (event : string) (handler : EventHandler) (events : t)
  : t * (t -> t) :=
  let events1 :=
    match events !! event with
    | Some _ => events
    | None => <[event := []]> events
    end in
  let events2 :=
    match events1 !! event with
    | Some handlers => <[event := (handlers ++ [handler])%list]> events1
    | None => events1
    end in
  (events2, unsubscribe event handler).

Definition clear (event : string) (events : t) : t := delete event events.

Definition clearAll (events : t) : t := ∅.

(** The bus while a [publish] delivers. [d_events] is the Map. [d_retired]
    lists the arrays that [clear] and [clearAll] have taken out of the Map
    since the delivery began, oldest first, each with the event it belonged
    to: nothing changes such an array any more, but a [forEach] that was
    walking it goes on walking it. [d_env] is the environment; its trace
    holds what the delivery has shown so far. *)
Record Delivering : Type := mkDelivering {
  d_events : t;
  d_retired : list (string * list EventHandler);
  d_env : Env
}.

(** What the delivery has shown so far. *)
Abbreviation shown d := (trace (d_env d)).

Definition in_storage (f : gmap string string -> gmap string string) (d : Delivering)
  : Delivering :=
  mkDelivering (d_events d) (d_retired d) (set_storage f (d_env d)).

Definition note (o : Obs) (d : Delivering) : Delivering :=
  mkDelivering (d_events d) (d_retired d) (observe o (d_env d)).

Definition on_events (f : t -> t) (d : Delivering) : Delivering :=
  mkDelivering (f (d_events d)) (d_retired d) (d_env d).

(** The array of [event], if the Map has one, is about to leave the Map. *)
Definition retire (event : string) (d : Delivering) : Delivering :=
  match d_events d !! event with
  | Some handlers =>
      mkDelivering (d_events d) (d_retired d ++ [(event, handlers)])%list (d_env d)
  | None => d
  end.

(** All arrays of the Map are about to leave it. *)
Definition retire_all (d : Delivering) : Delivering :=
  mkDelivering (d_events d) (d_retired d ++ map_to_list (d_events d))%list (d_env d).

(** A handler calls the function that [subscribe(event, f)] returned, [f]
    being the function of identity [n]; a call that takes [f] off the list
    is observed. *)
Definition call_token (event : string) (n : nat) (d : Delivering) : Delivering :=
  let handler := mkHandler n (fun _ => Return) in
  match d_events d !! event with
  | Some handlers =>
      if indexOf handler handlers >? -1
      then note (Unsubscribed event n) (on_events (unsubscribe event handler) d)
      else d
  | None => d
  end.

(** The array that a [forEach] begun on the array of [event] is walking,
    [mark] being the length of [d_retired] when the loop began: if that
    array has left the Map since, it is the first one retired for [event]
    after the mark; otherwise it is the array the Map holds. *)
Definition walked (event : string) (mark : nat) (d : Delivering) : list EventHandler :=
  match List.find (fun entry => String.eqb (fst entry) event) (drop mark (d_retired d)) with
  | Some entry => snd entry
  | None => default [] (d_events d !! event)
  end.

Section Calls.

(** [publish] as a handler can call it, one frame deeper. *)
Variable nested : string -> JsVal -> M Delivering unit.

(** Runs the script of a callback. *)
Fixpoint run (s : Script) : M Delivering unit :=
  match s with
  | Return => ret tt
  | Raise error => throw error
  | Read k => fun d => run (k (storage (d_env d))) d
  | Write f k => modify (in_storage f) ;;; run k
  | Subscribe event n body k =>
      modify (on_events (fun events => fst (subscribe event (mkHandler n body) events))) ;;;
      run k
  | Unsubscribe event n k => modify (call_token event n) ;;; run k
  | Publish event data k =>
      modify (note (PublishedWithin event data)) ;;;
      nested event data ;;;
      run k
  | Clear event k => modify (fun d => on_events (clear event) (retire event d)) ;;; run k
  | ClearAll k => modify (fun d => on_events clearAll (retire_all d)) ;;; run k
  end.

(** The call [handler(data)]; the call itself is observed. *)
Definition call_handler (handler : EventHandler) (data : JsVal) : M Delivering unit :=
  modify (note (Invoked (hid handler) data)) ;;;
  run (hbody handler data).

(** The arrow function that [publish] hands to [forEach]. *)
Definition callback (event : string) (data : JsVal) (handler : EventHandler)
  : M Delivering unit :=
  try_catch (call_handler handler data)
    (fun error =>
       modify (note (ConsoleError ("Error in event handler for " +:+ event +:+ ":") error))).

End Calls.

(** A call of [publish] that the call stack has no room for. *)
Definition overflow : string -> JsVal -> M Delivering unit :=
  fun _ _ => throw (ErrorObj "RangeError" "Maximum call stack size exceeded").

(** The body of [publish] with room for [stack] more nested calls: the
    array of the event is read from the Map once, and [forEach] walks that
    very array while the handlers run. *)
Fixpoint deliver (stack : nat) : string -> JsVal -> M Delivering unit :=
  fun event data d =>
    let nested := match stack with
                  | O => overflow
                  | S deeper => deliver deeper
                  end in
    match d_events d !! event with
    | Some handlers =>
        forEachLive (walked event (length (d_retired d)))
          (callback nested event data) 0 (length handlers) d
    | None => ret tt d
    end.

(** [publish] as the handlers of a delivery with room for [stack] nested
    calls can call it. *)
Definition below (stack : nat) : string -> JsVal -> M Delivering unit :=
  match stack with
  | O => overflow
  | S deeper => deliver deeper
  end.

(** A delivery that starts on the bus [events] with the storage [st]:
    where it ends, its trace holding what it has shown. *)
Definition delivery {stack : CallStack} (event : string) (data : JsVal) (events : t)
    (st : gmap string string) : Delivering * Completion unit :=
  deliver frames event data (mkDelivering events [] (mkEnv st [])).

(** [publish(event, data)] called by the code under study: the call is
    observed, then the delivery runs; the result is the bus afterwards. *)
Definition publish {stack : CallStack} (event : string) (data : JsVal) (events : t) : M Env t :=
  fun e =>
    let '(d, c) := delivery event data events (storage e) in
    (mkEnv (storage (d_env d))
           (trace e ++ Published event data :: trace (d_env d)),
     match c with
     | Normal _ => Normal (d_events d)
     | Throw error => Throw error
     end).

End PluginEventBus.

(* ===================================================================== *)
(** ** PluginStateManager (state.ts)                                      *)
(* ===================================================================== *)

Module PluginStateManager.
Section WithJSON.
Context {codec : JSON}.

(** [`plugin_${pluginId}_state`] *)
Definition key (pluginId : string) : string :=
  "plugin_" +:+ pluginId +:+ "_state".

Definition saveState (pluginId : string) (state : JsVal) : M Env unit :=
  try_catch
    (text <- liftC (JSON_stringify state) ;;
     setItem (key pluginId) (stored_text text))
    (fun error =>
       console_error ("Failed to save state for plugin " +:+ pluginId +:+ ":") error).

Definition loadState (pluginId : string) : M Env JsVal :=
  try_catch
    (state <- getItem (key pluginId) ;;
     match state with
     | Some s => if truthy s then liftC (JSON_parse s) else ret JNull
     | None => ret JNull
     end)
    (fun error =>
       console_error ("Failed to load state for plugin " +:+ pluginId +:+ ":") error ;;;
       ret JNull).

Definition clearState (pluginId : string) : M Env unit :=
  removeItem (key pluginId).

End WithJSON.
End PluginStateManager.

(* ===================================================================== *)
(** ** ErrorBoundary and PluginManager                                    *)
(* ===================================================================== *)

Module ErrorBoundary.

(** [React.Component<{children}, {hasError: boolean}>] *)
Record State : Type := mkState { hasError : bool }.

Definition constructor : State := mkState false.

Definition getDerivedStateFromError : State := mkState true.

Definition componentDidCatch (error : Thrown) : M Env unit :=
  console_error "Plugin Error:" error.

Definition fallback : Element :=
  Div None "p-4 bg-yellow-100 text-yellow-700 rounded"
    [Text "Something went wrong with this plugin."].

(** [render()]; [children] is what the children rendered to. *)
Definition render (st : State) (children : Element) : Element :=
  if hasError st then fallback else children.

(** React's protocol for a boundary around one child: the child renders
    under a fresh boundary; if it throws, the state becomes what
    [getDerivedStateFromError] returns, [componentDidCatch] runs, and the
    boundary renders again without the child. *)
Definition mount (child : Completion Element) : M Env Element :=
  match child with
  | Normal el => ret (render constructor el)
  | Throw error =>
      componentDidCatch error ;;;
      ret (render getDerivedStateFromError (Text ""))
  end.

End ErrorBoundary.

(** [arr.map(f)] with a callback that has effects. *)
Fixpoint mapM {S A B} (f : A -> M S B) (xs : list A) : M S (list B) :=
  match xs with
  | [] => ret []
  | x :: rest => y <- f x ;; ys <- mapM f rest ;; ret (y :: ys)
  end.

(** The state of one PluginManager: its two [useState] cells. *)
Record ManagerState : Type := mkManagerState {
  plugins : list Plugin;
  error : option string
}.

(** The two singletons, the environment, and the manager under study. *)
Record World : Type := mkWorld {
  pluginRegistry : PluginRegistry.t;
  pluginEventBus : PluginEventBus.t;
  env : Env;
  ui : ManagerState
}.

Definition in_env {A} (m : M Env A) : M World A :=
  fun w =>
    let '(e, c) := m (env w) in
    (mkWorld (pluginRegistry w) (pluginEventBus w) e (ui w), c).

Definition setPlugins (ps : list Plugin) : M World unit :=
  modify (fun w => mkWorld (pluginRegistry w) (pluginEventBus w) (env w)
                     (mkManagerState ps (error (ui w)))).

Definition setError (msg : string) : M World unit :=
  modify (fun w => mkWorld (pluginRegistry w) (pluginEventBus w) (env w)
                     (mkManagerState (plugins (ui w)) (Some msg))).

Definition set_bus (f : PluginEventBus.t -> PluginEventBus.t) (w : World) : World :=
  mkWorld (pluginRegistry w) (f (pluginEventBus w)) (env w) (ui w).

(** [pluginEventBus.publish(event, data)] on the singleton. *)
Definition bus_publish {stack : CallStack} (event : string) (data : JsVal) : M World unit :=
  fun w =>
    let '(e, c) := PluginEventBus.publish event data (pluginEventBus w) (env w) in
    match c with
    | Normal events => (mkWorld (pluginRegistry w) events e (ui w), Normal tt)
    | Throw error => (mkWorld (pluginRegistry w) (pluginEventBus w) e (ui w), Throw error)
    end.

Module PluginManager.
Section WithJSON.
Context {codec : JSON} {stack : CallStack}.

(** [useState<Plugin[]>([])], [useState<string | null>(null)] *)
Definition initial : ManagerState := mkManagerState [] None.

(** [`plugin_state_${plugin.id}`] *)
Definition key (pluginId : string) : string :=
  "plugin_state_" +:+ pluginId.

(** The callback of [sectionPlugins.forEach]. *)
Definition restore (plugin : Plugin) : M World unit :=
  savedState <- in_env (getItem (key (id plugin))) ;;
  match savedState with
  | Some s =>
      if truthy s
      then (data <- liftC (JSON_parse s) ;;
            bus_publish (id plugin +:+ ":restore") data)
      else ret tt
  | None => ret tt
  end.

Definition loadPlugins (sec : string) : M World unit :=
  try_catch
    (sectionPlugins <- gets (fun w => PluginRegistry.getPluginsBySection sec (pluginRegistry w)) ;;
     setPlugins sectionPlugins ;;;
     forEach restore sectionPlugins)
    (fun err => setError (message_or "Failed to load plugins" err)).

(** Destructuring [{ pluginId, state }] of the payload: [null] and
    [undefined] cannot be destructured, an object gives its fields, any
    other value has neither property. *)
Definition destructure (data : JsVal) : Completion (JsVal * JsVal) :=
  match data with
  | JUndefined | JNull =>
      Throw (ErrorObj "TypeError" "Cannot destructure property 'pluginId'")
  | JObj fields => Normal (field "pluginId" fields, field "state" fields)
  | _ => Normal (JUndefined, JUndefined)
  end.

(** The body of the handler of ["plugin:stateChange"]: it acts on the
    storage only. *)
Definition stateChange (data : JsVal) : Effect :=
  fun st =>
    match destructure data with
    | Normal (pluginId, state) =>
        match JSON_stringify state with
        | Normal text =>
            (<[key (ToString pluginId) := stored_text text]> st, Normal tt)
        | Throw e => (st, Throw e)
        end
    | Throw e => (st, Throw e)
    end.

(** The handler of ["plugin:stateChange"]; [fresh] is the identity of the
    closure this run of the effect creates. *)
Definition stateChangeHandler (fresh : nat) : EventHandler :=
  mkHandler fresh (fun data => storage_only (stateChange data)).

(** The body of [useEffect]: returns the cleanup function. *)
Definition effect (sec : string) (fresh : nat) : M World (World -> World) :=
  loadPlugins sec ;;;
  fun w =>
    let '(events, unsubscribe) :=
      PluginEventBus.subscribe "plugin:stateChange" (stateChangeHandler fresh)
        (pluginEventBus w) in
    (set_bus (fun _ => events) w, Normal (set_bus unsubscribe)).

(** One slot of the zone: the plugin's component under its boundary. *)
Definition slot (plugin : Plugin) : M Env Element :=
  inner <- ErrorBoundary.mount (component plugin []) ;;
  ret (Div (Some (id plugin)) "plugin-wrapper mb-4" [inner]).

(** What the component returns for its current state. *)
Definition render (st : ManagerState) : M Env Element :=
  if match error st with Some msg => truthy msg | None => false end
  then
    ret (Div None "p-4 bg-red-100 text-red-700 rounded"
           [Text "Error loading plugins: "; Text (default "" (error st))])
  else
    slots <- mapM slot (plugins st) ;;
    ret (Div None "plugin-manager" slots).

(** Rendering in a world: only the environment can change. *)
Definition renderZone : M World Element :=
  fun w => in_env (render (ui w)) w.

End WithJSON.
End PluginManager.

(* ===================================================================== *)
(** ** lazyLoadPlugin                                                     *)
(* ===================================================================== *)

Module LazyLoader.

(** A module namespace object: only its default export is read. *)
Record JsModule : Type := mkModule { default : Component }.

(** How the promise of [import(specifier)] settles. *)
Inductive Settlement : Type :=
| Fulfilled (m : JsModule)
| Rejected (reason : Thrown).

(** [`./plugins/${pluginId}`] *)
Definition specifier (pluginId : string) : string :=
  "./plugins/" +:+ pluginId.

(** The part of [lazyLoadPlugin] after the [await]: what the caller's
    promise settles to, given how the import settled. *)
Definition resume (pluginId : string) (s : Settlement) : M Env Component :=
  try_catch
    (plugin <- liftC (match s with
                      | Fulfilled m => Normal m
                      | Rejected reason => Throw reason
                      end) ;;
     ret (default plugin))
    (fun error =>
       console_error ("Failed to load plugin " +:+ pluginId +:+ ":") error ;;;
       throw error).

(** A call that waits at its [await]. *)
Record Waiting : Type := mkWaiting {
  w_caller : nat;          (* who called *)
  w_pluginId : string;
  w_request : nat          (* which import() it awaits *)
}.

(** The loader between two turns of the event loop. [imports] lists the
    specifiers handed to [import()], in order: one entry per request made
    of the module mechanism. *)
Record Loader : Type := mkLoader {
  imports : list string;
  waiting : list Waiting;
  outcomes : list (nat * Completion Component);   (* caller, result *)
  lenv : Env
}.

Definition start : Loader := mkLoader [] [] [] (mkEnv ∅ []).

(** [lazyLoadPlugin(pluginId)] up to its [await]: the call reaches
    [import(...)] at once and then waits for that promise. *)
Definition lazyLoadPlugin (caller : nat) (pluginId : string) (l : Loader) : Loader :=
  mkLoader (imports l ++ [specifier pluginId])%list
           (waiting l ++ [mkWaiting caller pluginId (length (imports l))])%list
           (outcomes l) (lenv l).

(** The promise of request [req] settles: every call waiting for it
    resumes. *)
Fixpoint wake (req : nat) (s : Settlement) (ws : list Waiting)
    (done : list (nat * Completion Component)) (e : Env)
  : list Waiting * list (nat * Completion Component) * Env :=
  match ws with
  | [] => ([], done, e)
  | w :: rest =>
      if Nat.eqb (w_request w) req then
        let '(e', c) := resume (w_pluginId w) s e in
        wake req s rest (done ++ [(w_caller w, c)])%list e'
      else
        let '(ws', done', e') := wake req s rest done e in
        (w :: ws', done', e')
  end.

Definition settle (req : nat) (s : Settlement) (l : Loader) : Loader :=
  let '(ws, done, e) := wake req s (waiting l) (outcomes l) (lenv l) in
  mkLoader (imports l) ws done e.

(** What caller [c] received, if its call has completed. *)
Definition outcome_of (c : nat) (l : Loader) : option (Completion Component) :=
  snd <$> List.find (fun p => Nat.eqb (fst p) c) (outcomes l).

(** The requests made of the module mechanism for [pluginId]. *)
Definition fetches (pluginId : string) (l : Loader) : nat :=
  length (List.filter (String.eqb (specifier pluginId)) (imports l)).

(** What [lazyLoadPlugin] hands to its caller for a settlement of its own
    import: the default export, or the reason rethrown. *)
Definition handed (s : Settlement) : Completion Component :=
  match s with
  | Fulfilled m => Normal (default m)
  | Rejected reason => Throw reason
  end.

(** The callers [cs] call [lazyLoadPlugin(pluginId)] one after the other,
    none of the imports having settled. *)
Definition concurrent (pluginId : string) (cs : list nat) (l : Loader) : Loader :=
  fold_left (fun acc c => lazyLoadPlugin c pluginId acc) cs l.

(** What happens to the loader, turn by turn of the event loop: a caller
    calls [lazyLoadPlugin], or the promise of a request settles. *)
Inductive Turn : Type :=
| Calls (caller : nat) (pluginId : string)
| Settles (req : nat) (s : Settlement).

Definition turn (l : Loader) (t : Turn) : Loader :=
  match t with
  | Calls caller pluginId => lazyLoadPlugin caller pluginId l
  | Settles req s => settle req s l
  end.

(** The loader after the turns of a schedule, from its start. *)
Definition play (schedule : list Turn) : Loader :=
  fold_left turn schedule start.

(** The calls of a schedule, in order: the call at index [n] makes the
    request [n]. *)
Definition issued (schedule : list Turn) : list (nat * string) :=
  omap (fun t => match t with Calls c p => Some (c, p) | Settles _ _ => None end) schedule.

(** The requests whose promises settle in a schedule. *)
Definition settled (schedule : list Turn) : list nat :=
  omap (fun t => match t with Settles r _ => Some r | Calls _ _ => None end) schedule.

(** How the promise of request [req] settles in a schedule, if it does. *)
Definition settlement (req : nat) (schedule : list Turn) : option Settlement :=
  head (omap (fun t => match t with
                       | Settles r s => if Nat.eqb r req then Some s else None
                       | Calls _ _ => None
                       end) schedule).

(** A promise settles after the call that made its request: [n] requests
    have been made before the schedule. *)
Fixpoint timely (n : nat) (schedule : list Turn) : bool :=
  match schedule with
  | [] => true
  | Calls _ _ :: rest => timely (S n) rest
  | Settles r _ :: rest => Nat.ltb r n && timely n rest
  end.

(** A schedule as the event loop can produce it: every call has a caller
    of its own, a promise settles once, and after its request was made. *)
Definition orderly (schedule : list Turn) : Prop :=
  NoDup (fst <$> issued schedule) /\
  NoDup (settled schedule) /\
  timely 0 schedule = true.

(** The console lines of the calls [ws] that resume on a rejection. *)
Definition rejections (s : Settlement) (ws : list Waiting) : list Obs :=
  match s with
  | Fulfilled _ => []
  | Rejected reason =>
      (fun w => ConsoleError ("Failed to load plugin " +:+ w_pluginId w +:+ ":") reason)
        <$> ws
  end.

End LazyLoader.

(* ===================================================================== *)
(** ** JSON on scalars                                                    *)
(* ===================================================================== *)

(** The platform's JSON cut down to the scalar states [null], booleans and
    integers, written without white space. It serves to run the code on
    concrete states; a BigInt is refused as the platform refuses it, and
    strings and containers are left out of this cut (refused too). *)
Module ScalarJSON.

Definition stringify (v : JsVal) : Completion (option string) :=
  match v with
  | JUndefined => Normal None
  | JNull => Normal (Some "null")
  | JBool true => Normal (Some "true")
  | JBool false => Normal (Some "false")
  | JNum n => Normal (Some (pretty n))
  | JBigInt _ => Throw (ErrorObj "TypeError" "Do not know how to serialize a BigInt")
  | JStr _ | JArr _ | JObj _ => Throw (ErrorObj "TypeError" "not a scalar")
  end.

Definition digit (c : ascii) : option Z :=
  let n := Z.of_N (N_of_ascii c) in
  if ((48 <=? n)%Z && (n <=? 57)%Z)%bool then Some (n - 48) else None.

Fixpoint digits (acc : Z) (s : string) : option Z :=
  match s with
  | EmptyString => Some acc
  | String c rest =>
      match digit c with
      | Some d => digits (10 * acc + d) rest
      | None => None
      end
  end.

(** A JSON integer: no empty text, no leading zero. *)
Definition natural (s : string) : option Z :=
  match s with
  | EmptyString => None
  | String c rest =>
      if Ascii.eqb c "0"%char
      then (if String.eqb rest "" then Some 0 else None)
      else digits 0 s
  end.

Definition integer (s : string) : option Z :=
  match s with
  | String c rest =>
      if Ascii.eqb c "-"%char then Z.opp <$> natural rest else natural s
  | EmptyString => None
  end.

Definition parse (s : string) : Completion JsVal :=
  if String.eqb s "null" then Normal JNull
  else if String.eqb s "true" then Normal (JBool true)
  else if String.eqb s "false" then Normal (JBool false)
  else match integer s with
       | Some n => Normal (JNum n)
       | None => Throw (ErrorObj "SyntaxError" "Unexpected token in JSON")
       end.

(** The codec as an instance of the interface; the proof is that of its
    law: none of the texts above is empty. *)
Definition json : JSON.
Proof.
  refine (Build_JSON stringify parse _).
  assert (Hgo : forall (x : N) s,
             (String.length s <= String.length (pretty_N_go x s))%nat).
  { intros x. induction (N.lt_wf_0 x) as [x _ IH]; intros s.
    destruct (decide (x = 0%N)) as [->|Hx].
    - by rewrite pretty_N_go_0.
    - rewrite pretty_N_go_step by lia.
      etrans; [|apply IH, N.div_lt; lia]. simpl. lia. }
  assert (Hpos : forall p : positive, pretty p <> "").
  { intros p. unfold pretty, pretty_positive, pretty, pretty_N.
    rewrite decide_False by done.
    rewrite pretty_N_go_step by lia.
    intros Heq.
    pose proof (Hgo (N.pos p `div` 10)%N
                  (String (pretty_N_char (N.pos p `mod` 10)) "")) as Hlen.
    rewrite Heq in Hlen. simpl in Hlen. lia. }
  intros v s.
  destruct v as [| |[]|n|n|t|l|l]; simpl; intros Heq; try discriminate;
    injection Heq as <-; try discriminate.
  destruct n as [|p|p]; simpl; [discriminate|apply Hpos|discriminate].
Defined.

End ScalarJSON.

(* ===================================================================== *)
(** ** Reading the bus and the trace                                      *)
(* ===================================================================== *)

(** The handlers subscribed to an event, in subscription order. *)
Definition handlers_of (event : string) (events : PluginEventBus.t) : list EventHandler :=
  default [] (events !! event).

(** The payloads the handler of identity [n] was called with, in order. *)
Definition calls_of (n : nat) (tr : list Obs) : list JsVal :=
  omap (fun o => match o with
                 | Invoked h d => if Nat.eqb h n then Some d else None
                 | _ => None
                 end) tr.

(** Between the traces [tr] and [tr'] no handler has taken a handler off
    the list of [event], and no handler has published. *)
Definition undisturbed (event : string) (tr tr' : list Obs) : Prop :=
  unsubscriptions event tr' = unsubscriptions event tr /\
  republications tr' = republications tr.

(** A script that acts on the storage only: it never calls the bus. *)
Inductive storage_bound : Script -> Prop :=
| bound_return : storage_bound Return
| bound_raise error : storage_bound (Raise error)
| bound_read k : (forall st, storage_bound (k st)) -> storage_bound (Read k)
| bound_write f k : storage_bound k -> storage_bound (Write f k).

(** A bus on which every handler acts on the storage only. *)
Definition secluded (events : PluginEventBus.t) : Prop :=
  forall event hs, events !! event = Some hs ->
    Forall (fun g => forall data, storage_bound (hbody g data)) hs.

(** The handlers [hs] called one after the other, as a list that nothing
    changes would be walked. *)
Definition one_by_one {stack : CallStack} (event : string) (data : JsVal)
    (hs : list EventHandler) : M PluginEventBus.Delivering unit :=
  forEach (PluginEventBus.callback (PluginEventBus.below frames) event data) hs.

(** Where a delivery stands when it has called the handlers [hs] of the
    bus [events], having started with the storage [st]. *)
Definition reached {stack : CallStack} (event : string) (data : JsVal)
    (hs : list EventHandler) (events : PluginEventBus.t) (st : gmap string string)
  : PluginEventBus.Delivering :=
  fst (one_by_one event data hs (PluginEventBus.mkDelivering events [] (mkEnv st []))).

(** What a slot of the zone shows for a plugin: the wrapper around what
    the component rendered, or around the fallback when it threw. *)
Definition slot_view (plugin : Plugin) : Element :=
  Div (Some (id plugin)) "plugin-wrapper mb-4"
    [match component plugin [] with
     | Normal el => el
     | Throw _ => ErrorBoundary.fallback
     end].

(** The lines the boundaries of the zone write, one per failing plugin. *)
Definition boundary_log (ps : list Plugin) : list Obs :=
  omap (fun p => match component p [] with
                 | Normal _ => None
                 | Throw err => Some (ConsoleError "Plugin Error:" err)
                 end) ps.

Definition supplies_onMount (plugin : Plugin) : bool :=
  match lifecycle plugin with
  | Some lc => match onMount lc with Some _ => true | None => false end
  | None => false
  end.

(** The call [plugin.lifecycle.onMount()] when the hook is supplied; the
    call itself is observed. *)
Definition call_onMount (plugin : Plugin) : M Env unit :=
  match lifecycle plugin with
  | Some lc =>
      match onMount lc with
      | Some hook =>
          modify (observe (HookCalled (id plugin) OnMount)) ;;;
          run_effect hook
      | None => ret tt
      end
  | None => ret tt
  end.

Section WithJSON.
Context {codec : JSON} {stack : CallStack}.

(** A state is serializable when its JSON text reads back as the state. *)
Definition serializable (s : JsVal) : Prop :=
  exists text, JSON_stringify s = Normal (Some text) /\ JSON_parse text = Normal s.

(** The restore publications that the texts kept in the storage call
    for, going through the descriptors [ps] in order: a descriptor with a
    non-empty text that parses gets "<id>:restore" with the parsed state
    (and the next descriptor finds the storage and the bus as the handlers
    of that event left them); a descriptor without text, or with the empty
    text, gets
    nothing; at the first text that does not parse the list stops, with
    the error of the parser. *)
Fixpoint restorations (events : PluginEventBus.t) (st : gmap string string)
    (ps : list Plugin) : list (string * JsVal) * option Thrown :=
  match ps with
  | [] => ([], None)
  | p :: rest =>
      match st !! PluginManager.key (id p) with
      | Some s =>
          if truthy s then
            match JSON_parse s with
            | Normal data =>
                let event := id p +:+ ":restore" in
                let after := fst (PluginEventBus.delivery event data events st) in
                let '(evs, stop) :=
                  restorations (PluginEventBus.d_events after)
                    (storage (PluginEventBus.d_env after)) rest in
                ((event, data) :: evs, stop)
            | Throw err => ([], Some err)
            end
          else restorations events st rest
      | None => restorations events st rest
      end
  end.

(** The transition from Loading to Ready in the words of the
    specification: for each descriptor of the zone, load the saved state
    from the State Store; if one is present, publish "<id>:restore" with
    it; then call [onMount] if the descriptor supplies it. *)
Definition spec_loading_to_ready (sec : string) : M World unit :=
  zone <- gets (fun w => PluginRegistry.getPluginsBySection sec (pluginRegistry w)) ;;
  forEach (fun d =>
             state <- in_env (PluginStateManager.loadState (id d)) ;;
             match state with
             | JNull => ret tt
             | _ => bus_publish (id d +:+ ":restore") state
             end ;;;
             in_env (call_onMount d))
          zone.

End WithJSON.

(* ===================================================================== *)
(** ** Sample descriptors and handlers                                    *)
(* ===================================================================== *)

Module Samples.

Definition widget (label : string) : Component :=
  fun _ => Normal (Text label).

Definition broken (reason : string) : Component :=
  fun _ => Throw (ErrorObj "Error" reason).

Definition descriptor (pid nm sec : string) (c : Component) (ord : option Z) : Plugin :=
  mkPlugin pid nm None sec c None None ord None.

(** [A]: section content, order 2; [B]: section content, order 1. *)
Definition A : Plugin := descriptor "A" "Plugin A" "content" (widget "a") (Some 2).
Definition B : Plugin := descriptor "B" "Plugin B" "content" (widget "b") (Some 1).

(** A second descriptor that claims the id of [A]. *)
Definition A' : Plugin := descriptor "A" "Impostor" "footer" (widget "a2") None.

(** [X] throws when it mounts, [Y] does not; both live in the sidebar. *)
Definition X : Plugin := descriptor "X" "Plugin X" "sidebar" (broken "boom") None.
Definition Y : Plugin := descriptor "Y" "Plugin Y" "sidebar" (widget "y") None.

(** The registry after [register(A)]. *)
Definition registry_with_A : PluginRegistry.t :=
  fst (PluginRegistry.register A PluginRegistry.empty).

(** The registry after [register(A)] and then [register(B)]. *)
Definition registry_with_A_B : PluginRegistry.t :=
  fst (PluginRegistry.registerAll [A; B] PluginRegistry.empty).

(** A handler that does nothing, and one that throws. *)
Definition quiet (n : nat) : EventHandler :=
  mkHandler n (fun _ => Return).

Definition faulty (n : nat) : EventHandler :=
  mkHandler n (fun _ => Raise (ErrorObj "Error" "handler failed")).

(** A handler of "ping" that runs once: it calls the function that its
    own [subscribe] returned; and one that does so and then throws. *)
Definition once (n : nat) : EventHandler :=
  mkHandler n (fun _ => Unsubscribe "ping" n Return).

Definition once_faulty (n : nat) : EventHandler :=
  mkHandler n (fun _ => Unsubscribe "ping" n (Raise (ErrorObj "Error" "handler failed"))).

(** A handler of "ping" that clears "ping". *)
Definition sweeper (n : nat) : EventHandler :=
  mkHandler n (fun _ => Clear "ping" Return).

(** A call stack with room for four nested calls of [publish]. *)
Definition stack : CallStack := {| frames := 4 |}.

(** An environment with nothing stored and nothing seen yet. *)
Definition env0 : Env := mkEnv ∅ [].



(** A bus with three handlers on "ping": the second one throws. *)
Definition bus_faulty : PluginEventBus.t :=
  fst (PluginEventBus.subscribe "ping" (quiet 3)
    (fst (PluginEventBus.subscribe "ping" (faulty 2)
      (fst (PluginEventBus.subscribe "ping" (quiet 1) ∅))))).

(** A bus with two handlers on "ping": the first one unsubscribes itself
    and throws. *)
Definition bus_once_faulty : PluginEventBus.t :=
  fst (PluginEventBus.subscribe "ping" (quiet 2)
    (fst (PluginEventBus.subscribe "ping" (once_faulty 1) ∅))).

(** A bus with one handler on "ping", which unsubscribes itself, and a
    bus with one that clears "ping". *)
Definition bus_once : PluginEventBus.t :=
  fst (PluginEventBus.subscribe "ping" (once 1) ∅).

Definition bus_sweeper : PluginEventBus.t :=
  fst (PluginEventBus.subscribe "ping" (quiet 2)
    (fst (PluginEventBus.subscribe "ping" (sweeper 1) ∅))).

(** [CounterPlugin] of the repository, without its rendering. *)
Definition CounterPlugin : Plugin :=
  mkPlugin "counter" "Counter" (Some "A simple counter plugin") "content"
    (widget "Counter Plugin") (Some (mkConfig true (Some "top") (Some []))) None
    (Some 1) None.

(** A descriptor of the sidebar that supplies [onMount]. *)
Definition Z_mounting : Plugin :=
  mkPlugin "Z" "Plugin Z" None "sidebar" (widget "z") None
    (Some (mkLifecycle (Some (fun st => (<["Z_mounted" := "yes"]> st, Normal tt)))
                       None None))
    None None.

(** A world: [Z_mounting] and [Y] in the sidebar, [CounterPlugin] in the
    content zone; the manager's text "5" kept for "Z"; one quiet handler on
    "Z:restore"; a manager that has not run yet. *)
Definition world0 : World :=
  mkWorld
    (fst (PluginRegistry.registerAll [Z_mounting; Y; CounterPlugin] PluginRegistry.empty))
    (fst (PluginEventBus.subscribe "Z:restore" (quiet 1) ∅))
    (mkEnv {["plugin_state_Z" := "5"]} [])
    (mkManagerState [] None).

(** The same world, where the text kept for "Z" is not JSON and "Y" has
    the saved text "7". *)
Definition world_corrupt : World :=
  mkWorld (pluginRegistry world0) (pluginEventBus world0)
    (mkEnv (<["plugin_state_Y" := "7"]> {["plugin_state_Z" := "{oops"]}) [])
    (mkManagerState [] None).

(** The payload [{ pluginId: "counter", state: 5 }]. *)
Definition counter_changed : JsVal :=
  JObj [("pluginId", JStr "counter"); ("state", JNum 5)].

(** A manager of the sidebar that has loaded [X] and [Y]. *)
Definition world_XY : World :=
  mkWorld
    (fst (PluginRegistry.registerAll [X; Y] PluginRegistry.empty))
    (fst (PluginEventBus.subscribe "Y:changed" (quiet 4) ∅))
    (mkEnv {["plugin_state_Y" := "1"]} [])
    (mkManagerState [X; Y] None).

End Samples.

(* ===================================================================== *)
(** ** Histories of the registry                                          *)
(* ===================================================================== *)

(** A call of one of the two methods that change the registry. *)
Inductive RegistryCall : Type :=
| CallRegister (plugin : Plugin)
| CallUnregister (pluginId : string).

(** The registry after a call; a [register] that throws leaves it as the
    throw leaves it. *)
Definition registry_call (reg : PluginRegistry.t) (c : RegistryCall) : PluginRegistry.t :=
  match c with
  | CallRegister plugin => fst (PluginRegistry.register plugin reg)
  | CallUnregister pluginId => fst (PluginRegistry.unregister pluginId reg)
  end.

(** The singleton after the calls made on it since it was created. *)
Definition registry_after (calls : list RegistryCall) : PluginRegistry.t :=
  fold_left registry_call calls PluginRegistry.empty.

(** One entry per id, every descriptor under its own id, every section one
    of the four. *)
Definition registry_ok (reg : PluginRegistry.t) : Prop :=
  NoDup (JsMap.keys reg) /\
  Forall (fun kv => fst kv = id (snd kv) /\ section (snd kv) ∈ PluginRegistry.sections) reg.

(** The descriptor with another value in its [order] field. *)
Definition with_order (o : option Z) (p : Plugin) : Plugin :=
  mkPlugin (id p) (name p) (description p) (section p) (component p) (config p)
    (lifecycle p) o (dependencies p).

(** The last descriptor of [ps] that carries the id [pluginId]. *)
Definition last_with_id (pluginId : string) (ps : list Plugin) : option Plugin :=
  List.find (fun p => String.eqb (id p) pluginId) (rev ps).

(* ===================================================================== *)
(** ** Reading a list of handlers                                         *)
(* ===================================================================== *)

(** The list without the first handler that is the function [h]. *)
Fixpoint remove_first (h : EventHandler) (hs : list EventHandler) : list EventHandler :=
  match hs with
  | [] => []
  | g :: rest => if Nat.eqb (hid g) (hid h) then rest else g :: remove_first h rest
  end.

(** [subscribe] called for each handler of [hs] in turn, on one event. *)
Definition subscribe_all (event : string) (hs : list EventHandler)
    (events : PluginEventBus.t) : PluginEventBus.t :=
  fold_left (fun acc h => fst (PluginEventBus.subscribe event h acc)) hs events.

(* ===================================================================== *)
(** ** PluginContainer and HomePage                                       *)
(* ===================================================================== *)

(** Markup with attributes; [Rendered] holds what a plugin component
    returned. *)
Inductive Markup : Type :=
| Tag (name : string) (key : option string) (attrs : list (string * string))
      (children : list Markup)
| Rendered (e : Element).

(** Rendering without an error boundary: a throw ends the whole render. *)
Definition bindC {A B} (c : Completion A) (k : A -> Completion B) : Completion B :=
  match c with
  | Normal a => k a
  | Throw e => Throw e
  end.

Fixpoint mapC {A B} (f : A -> Completion B) (xs : list A) : Completion (list B) :=
  match xs with
  | [] => Normal []
  | x :: rest =>
      bindC (f x) (fun y => bindC (mapC f rest) (fun ys => Normal (y :: ys)))
  end.

(** The props of [<PluginComponent {...plugin.config} />]: the own
    properties of the config, none when there is no config. *)
Definition spread_config (c : option PluginConfig) : list (string * JsVal) :=
  match c with
  | None => []
  | Some cfg =>
      (("enabled", JBool (enabled cfg))
       :: match position cfg with Some p => [("position", JStr p)] | None => [] end
       ++ match settings cfg with Some fs => [("settings", JObj fs)] | None => [] end)%list
  end.

Module PluginContainer.

(** The callback of [plugins.map]. *)
Definition wrapper (plugin : Plugin) : Completion Markup :=
  bindC (component plugin (spread_config (config plugin)))
    (fun el => Normal (Tag "div" (Some (id plugin)) [("className", "plugin-wrapper")]
                         [Rendered el])).

Definition render (sec : string) (plugins : list Plugin) : Completion Markup :=
  bindC (mapC wrapper plugins)
    (fun children =>
       Normal (Tag "div" None [("className", "plugin-container"); ("data-section", sec)]
                 children)).

End PluginContainer.

Module HomePage.

Definition render (reg : PluginRegistry.t) : Completion Markup :=
  bindC (PluginContainer.render "header"
           (PluginRegistry.getPluginsBySection "header" reg)) (fun header =>
  bindC (PluginContainer.render "sidebar"
           (PluginRegistry.getPluginsBySection "sidebar" reg)) (fun sidebar =>
  bindC (PluginContainer.render "content"
           (PluginRegistry.getPluginsBySection "content" reg)) (fun content =>
  bindC (PluginContainer.render "footer"
           (PluginRegistry.getPluginsBySection "footer" reg)) (fun footer =>
  Normal (Tag "div" None [("className", "page-container")]
            [header;
             Tag "div" None [("className", "content-layout")] [sidebar; content];
             footer]))))).

End HomePage.

(** The plugins whose wrappers a piece of markup holds, by key, in
    document order. *)
Fixpoint wrapped (m : Markup) : list string :=
  match m with
  | Rendered _ => []
  | Tag _ key attrs children =>
      (if bool_decide (("className", "plugin-wrapper") ∈ attrs)
       then match key with Some k => [k] | None => [] end
       else [])
      ++ (fix go (l : list Markup) : list string :=
            match l with
            | [] => []
            | c :: rest => (wrapped c ++ go rest)%list
            end) children
  end%list.

(** Does the component of the plugin throw when it gets the plugin's
    config as props? *)
Definition healthy (plugin : Plugin) : bool :=
  negb (threw (component plugin (spread_config (config plugin)))).

(* ===================================================================== *)
(** ** DemoPage and PluginSettings                                        *)
(* ===================================================================== *)

Module DemoPage.

(** [const sections = ['header', 'sidebar', 'content', 'footer']] *)
Definition sections : list string := ["header"; "sidebar"; "content"; "footer"].

(** The initial value of the [plugins] state. *)
Definition initialPlugins (reg : PluginRegistry.t) : list Plugin :=
  flat_map (fun sec => PluginRegistry.getPluginsBySection sec reg) sections.

(** [{ ...plugin, config: { ...plugin.config, enabled },
       section: section || plugin.section }] *)
Definition updated (enabled' : bool) (sec : option string) (plugin : Plugin) : Plugin :=
  mkPlugin (id plugin) (name plugin) (description plugin)
    (match sec with
     | Some s => if truthy s then s else section plugin
     | None => section plugin
     end)
    (component plugin)
    (Some (mkConfig enabled'
             (match config plugin with Some c => position c | None => None end)
             (match config plugin with Some c => settings c | None => None end)))
    (lifecycle plugin) (order plugin) (dependencies plugin).

(** The state update of [handleSettingsChange(enabled, section, pluginId)]. *)
Definition handleSettingsChange (enabled' : bool) (sec : option string)
    (pluginId : string) (prevPlugins : list Plugin) : list Plugin :=
  map (fun plugin =>
         if String.eqb (id plugin) pluginId then updated enabled' sec plugin
         else plugin)
      prevPlugins.

(** The page's own [getPluginsBySection], over its state. *)
Definition getPluginsBySection (sec : string) (plugins : list Plugin) : list Plugin :=
  List.filter (fun plugin => String.eqb (section plugin) sec) plugins.

End DemoPage.

Module PluginSettings.

(** The checkbox: [onSettingsChange(e.target.checked)]. *)
Definition onCheckbox (plugin : Plugin) (checked : bool) : bool * option string :=
  (checked, None).

(** The dropdown:
    [onSettingsChange(plugin.config?.enabled || false, e.target.value)]. *)
Definition onSelect (plugin : Plugin) (value : string) : bool * option string :=
  (match config plugin with Some c => enabled c | None => false end, Some value).

(** DemoPage's [onSettingsChange] for the panel of [plugin]. *)
Definition apply (plugin : Plugin) (change : bool * option string)
    (prevPlugins : list Plugin) : list Plugin :=
  DemoPage.handleSettingsChange (fst change) (snd change) (id plugin) prevPlugins.

End PluginSettings.

(* ===================================================================== *)
(** ** CounterComponent                                                   *)
(* ===================================================================== *)

Module CounterComponent.
Section WithParseInt.

(** [parseInt(text, 10)]; [None] is [NaN]. *)
Variable parseInt : string -> option Z.

(** One run of the effect of the component rendered with [count]. *)
Record Run : Type := mkRun {
  r_events : PluginEventBus.t;         (* the bus afterwards *)
  r_env : Env;
  r_setCount : option (option Z);      (* the [setCount] call, if one is made *)
  r_count : Z;                         (* the [count] the cleanup closes over *)
  r_handler : EventHandler             (* the closure subscribed to the reset *)
}.

(** The handler of "counter:reset": it calls [setCount(0)], which acts on
    the component and not on localStorage. *)
Definition resetHandler (fresh : nat) : EventHandler :=
  mkHandler fresh (fun _ => Return).

(** The body of [useEffect], for the closure identity [fresh]. *)
Definition effect (fresh : nat) (count : Z) (events : PluginEventBus.t) (e : Env) : Run :=
  let savedCount := storage e !! "counter_state" in
  let call :=
    match savedCount with
    | Some s => if truthy s then Some (parseInt s) else None
    | None => None
    end in
  mkRun (fst (PluginEventBus.subscribe "counter:reset" (resetHandler fresh) events))
        e call count (resetHandler fresh).

(** The function the effect returns. *)
Definition cleanup (r : Run) (events : PluginEventBus.t) (e : Env)
  : PluginEventBus.t * Env :=
  (PluginEventBus.unsubscribe "counter:reset" (r_handler r) events,
   set_storage (insert "counter_state" (ToString (JNum (r_count r)))) e).

End WithParseInt.
End CounterComponent.

(* ===================================================================== *)
(** ** The todo plugins                                                   *)
(* ===================================================================== *)

Record TodoItem : Type := mkTodo {
  todo_id : Z;
  todo_text : string;
  completed : bool
}.

(** [todos.map(todo => todo.id === id ? { ...todo, completed: !todo.completed } : todo)] *)
Definition toggled (target : Z) (todos : list TodoItem) : list TodoItem :=
  map (fun todo =>
         if Z.eqb (todo_id todo) target
         then mkTodo (todo_id todo) (todo_text todo) (negb (completed todo))
         else todo)
      todos.

Module TodoListComponent.

(** [toggleTodo(id)]: the publication of "todo:toggled" with the id; the
    result is the bus afterwards and the new state. *)
Definition toggleTodo {stack : CallStack} (target : Z) (todos : list TodoItem)
    (events : PluginEventBus.t) : M Env (PluginEventBus.t * list TodoItem) :=
  events' <- PluginEventBus.publish "todo:toggled" (JNum target) events ;;
  ret (events', toggled target todos).

End TodoListComponent.

(* ===================================================================== *)
(** ** More samples                                                       *)
(* ===================================================================== *)

Module Fixtures.

(** [TodoPlugin] and [TodoListPlugin] of the repository: two descriptors
    with the id "todo-list". *)
Definition TodoPlugin : Plugin :=
  mkPlugin "todo-list" "Todo List" (Some "A todo list plugin with event communication")
    "content" (Samples.widget "Todo List")
    (Some (mkConfig true (Some "bottom") (Some [("maxTodos", JNum 10)]))) None
    (Some 2) None.

Definition TodoListPlugin : Plugin :=
  mkPlugin "todo-list" "Todo List" (Some "A todo list plugin with event communication")
    "content" (Samples.widget "Todo List Plugin")
    (Some (mkConfig true (Some "bottom") (Some []))) None
    (Some 2) None.

(** A descriptor with an invalid section and one without config. *)
Definition Stray : Plugin :=
  Samples.descriptor "stray" "Stray" "popup" (Samples.widget "s") None.

Definition Bare : Plugin :=
  Samples.descriptor "bare" "Bare" "header" (Samples.widget "bare") None.

End Fixtures.

(* ===================================================================== *)
(** ** What a delivery and the loader keep                                *)
(* ===================================================================== *)

Section Keeping.
Import PluginEventBus LazyLoader.

(** From [d] to [d'] the trace and the list of retired arrays have only
    grown. *)
Definition grows (d d' : Delivering) : Prop :=
  (exists T, shown d' = (shown d ++ T)%list) /\
  (exists L, d_retired d' = (d_retired d ++ L)%list).

(** As long as no handler is taken off the list of [ev], the array that a
    loop on [ev] walks keeps the handlers it has, at their places. *)
Definition keeps (ev : string) (d d' : Delivering) : Prop :=
  grows d d' /\
  (unsubscriptions ev (shown d') = unsubscriptions ev (shown d) ->
   forall mark, (mark <= length (d_retired d))%nat ->
     walked ev mark d `prefix_of` walked ev mark d').

(** What holds of the loader after every orderly schedule. *)
Record Kept (sch : list Turn) (l : Loader) : Prop := mkKept {
  kept_imports : imports l = (fun call => specifier (snd call)) <$> issued sch;
  kept_waiting : forall w, w ∈ waiting l ->
    issued sch !! w_request w = Some (w_caller w, w_pluginId w);
  kept_pending : forall req c p,
    issued sch !! req = Some (c, p) -> settlement req sch = None ->
    mkWaiting c p req ∈ waiting l /\ c ∉ (fst <$> outcomes l);
  kept_done : forall req c p s,
    issued sch !! req = Some (c, p) -> settlement req sch = Some s ->
    outcome_of c l = Some (handed s) /\
    (forall reason, s = Rejected reason ->
       ConsoleError ("Failed to load plugin " +:+ p +:+ ":") reason ∈ trace (lenv l));
  kept_callers : forall c, c ∈ (fst <$> outcomes l) -> c ∈ (fst <$> issued sch)
}.

End Keeping.

(* ===================================================================== *)
(** * Theorems                                                            *)
(* ===================================================================== *)

(** ** Running the monad *)

Lemma forEach_app {S A} (f : A -> M S unit) xs ys s :
  forEach f (xs ++ ys)%list s =
  match forEach f xs s with
  | (s', Normal _) => forEach f ys s'
  | (s', Throw e) => (s', Throw e)
  end.
Proof.
  revert s. induction xs as [|x xs IH]; intros s; simpl.
  - reflexivity.
  - unfold bind. destruct (f x s) as [s1 [[]|e]]; [apply IH | reflexivity].
Qed.

(** ** JavaScript Map *)

Section JsMapFacts.
Context {V : Type}.
Implicit Types (m : list (string * V)) (k : string) (v : V).

Lemma JsMap_get_set_eq m k v : JsMap.get k (JsMap.set k v m) = Some v.
Proof.
  induction m as [|[k' v'] m IH]; simpl.
  - by rewrite String.eqb_refl.
  - destruct (String.eqb k k') eqn:E; simpl.
    + by rewrite String.eqb_refl.
    + by rewrite E.
Qed.

Lemma JsMap_get_set_ne m k k' v :
  k <> k' -> JsMap.get k' (JsMap.set k v m) = JsMap.get k' m.
Proof.
  intros Hne. induction m as [|[k0 v0] m IH]; simpl.
  - destruct (String.eqb k' k) eqn:E; [|done].
    apply String.eqb_eq in E. congruence.
  - destruct (String.eqb k k0) eqn:E; simpl.
    + apply String.eqb_eq in E. subst k0.
      destruct (String.eqb k' k) eqn:E'; [|done].
      apply String.eqb_eq in E'. congruence.
    + by rewrite IH.
Qed.

(** [set] on a key already there keeps the iteration order. *)
Lemma JsMap_keys_set_present m k v :
  is_Some (JsMap.get k m) -> JsMap.keys (JsMap.set k v m) = JsMap.keys m.
Proof.
  induction m as [|[k0 v0] m IH]; simpl; intros Hs.
  - by destruct Hs.
  - destruct (String.eqb k k0) eqn:E; simpl.
    + apply String.eqb_eq in E. by subst.
    + f_equal. by apply IH.
Qed.

(** [set] on a fresh key appends. *)
Lemma JsMap_set_fresh m k v :
  JsMap.get k m = None -> JsMap.set k v m = (m ++ [(k, v)])%list.
Proof.
  induction m as [|[k0 v0] m IH]; simpl; intros Hn; [done|].
  destruct (String.eqb k k0); [done|]. by rewrite IH.
Qed.

Lemma JsMap_get_app_fresh m k k' v :
  k <> k' -> JsMap.get k (m ++ [(k', v)])%list = JsMap.get k m.
Proof.
  intros Hne. induction m as [|[k0 v0] m IH]; simpl.
  - destruct (String.eqb k k') eqn:E; [|done].
    apply String.eqb_eq in E. congruence.
  - by rewrite IH.
Qed.

End JsMapFacts.

(* ===================================================================== *)
(** ** PluginRegistry                                                     *)
(* ===================================================================== *)

Section RegistryFacts.
Import PluginRegistry.

Lemma register_valid plugin reg :
  section plugin ∈ sections ->
  register plugin reg = (JsMap.set (id plugin) plugin reg, Normal tt).
Proof.
  intros Hs. unfold register. by rewrite bool_decide_eq_true_2.
Qed.

Lemma register_invalid plugin reg :
  section plugin ∉ sections ->
  register plugin reg =
    (reg, Throw (ErrorObj "Error" ("Invalid section: " +:+ section plugin))).
Proof.
  intros Hs. unfold register. by rewrite bool_decide_eq_false_2.
Qed.

(** Registering descriptors with fresh, pairwise distinct ids and valid
    sections appends them to the map in the order of the calls. *)
Lemma registerAll_fresh ps : forall reg,
  NoDup (id <$> ps) ->
  Forall (fun p => section p ∈ sections) ps ->
  Forall (fun p => JsMap.get (id p) reg = None) ps ->
  registerAll ps reg = ((reg ++ ((fun p => (id p, p)) <$> ps))%list, Normal tt).
Proof.
  induction ps as [|p ps IH]; intros reg Hnd Hsec Hfresh.
  - simpl. by rewrite app_nil_r.
  - rewrite fmap_cons in Hnd. apply NoDup_cons in Hnd as [Hp Hnd].
    apply Forall_cons in Hsec as [Hs Hsec].
    apply Forall_cons in Hfresh as [Hf Hfresh].
    unfold registerAll in *. simpl. unfold bind.
    rewrite (register_valid _ _ Hs), (JsMap_set_fresh _ _ _ Hf).
    rewrite IH; [by rewrite <- app_assoc | done | done |].
    apply Forall_forall. intros q Hq.
    rewrite JsMap_get_app_fresh.
    + by apply (proj1 (Forall_forall _ _) Hfresh).
    + intros Heq. apply Hp. rewrite <- Heq. apply list_elem_of_fmap. by exists q.
Qed.

Lemma values_app_entries (reg : t) (ps : list Plugin) :
  JsMap.values (reg ++ ((fun p => (id p, p)) <$> ps))%list
  = (JsMap.values reg ++ ps)%list.
Proof.
  unfold JsMap.values. rewrite map_app. f_equal.
  induction ps as [|p ps IH]; [done|].
  rewrite fmap_cons. simpl. by rewrite IH.
Qed.

End RegistryFacts.

(** C1 (as amended): a descriptor whose id is already in the Registry and
    whose section is valid is registered without error and takes the place
    of the stored descriptor, at the same position of the iteration order
    and without touching the descriptors of other ids; [register] throws
    only for an invalid section, and then the store is unchanged. *)
Theorem register_existing_id_replaces (plugin old : Plugin) (reg : PluginRegistry.t) :
  PluginRegistry.getPlugin (id plugin) reg = Some old ->
  (section plugin ∈ PluginRegistry.sections ->
     snd (PluginRegistry.register plugin reg) = Normal tt /\
     PluginRegistry.getPlugin (id plugin) (fst (PluginRegistry.register plugin reg))
       = Some plugin /\
     (forall other, other <> id plugin ->
        PluginRegistry.getPlugin other (fst (PluginRegistry.register plugin reg))
          = PluginRegistry.getPlugin other reg) /\
     JsMap.keys (fst (PluginRegistry.register plugin reg)) = JsMap.keys reg) /\
  (section plugin ∉ PluginRegistry.sections ->
     PluginRegistry.register plugin reg =
       (reg, Throw (ErrorObj "Error" ("Invalid section: " +:+ section plugin)))).
Proof.
  intros Hold. split.
  - intros Hs. rewrite (register_valid _ _ Hs). simpl.
    unfold PluginRegistry.getPlugin in *. repeat split.
    + apply JsMap_get_set_eq.
    + intros other Hne. apply JsMap_get_set_ne. congruence.
    + apply JsMap_keys_set_present. by rewrite Hold.
  - apply register_invalid.
Qed.

Lemma register_existing_id_replaces_witness :
  PluginRegistry.getPlugin "A" Samples.registry_with_A = Some Samples.A /\
  snd (PluginRegistry.register Samples.A' Samples.registry_with_A) = Normal tt /\
  PluginRegistry.getPlugin "A" (fst (PluginRegistry.register Samples.A' Samples.registry_with_A))
    = Some Samples.A'.
Proof.
  pose proof (register_existing_id_replaces Samples.A' Samples.A Samples.registry_with_A) as Hw.
  split; [reflexivity|].
  destruct (Hw eq_refl) as [Hvalid _].
  destruct Hvalid as (Hok & Hget & _).
  - vm_compute. reflexivity.
  - exact (conj Hok Hget).
Defined.

(** C1, counterexample: with [A] registered, registering another
    descriptor under the id "A" does not fail, and the lookup of "A" now
    answers the newcomer, not the descriptor registered before. *)
Lemma register_duplicate_overwrites :
  PluginRegistry.getPlugin "A" Samples.registry_with_A = Some Samples.A /\
  threw (snd (PluginRegistry.register Samples.A' Samples.registry_with_A)) = false /\
  name <$> PluginRegistry.getPlugin "A"
             (fst (PluginRegistry.register Samples.A' Samples.registry_with_A))
    = Some "Impostor" /\
  name Samples.A = "Plugin A".
Proof. repeat split. Qed.

(** After registering descriptors of pairwise distinct ids and valid
    sections into the empty registry, the query for a section returns the
    registered descriptors of that section in the order of their
    registration. *)
Lemma registration_order_kept (ps : list Plugin) (sec : string) :
  NoDup (id <$> ps) ->
  Forall (fun p => section p ∈ PluginRegistry.sections) ps ->
  snd (PluginRegistry.registerAll ps PluginRegistry.empty) = Normal tt /\
  PluginRegistry.getPluginsBySection sec
    (fst (PluginRegistry.registerAll ps PluginRegistry.empty))
  = List.filter (fun p => String.eqb (section p) sec) ps.
Proof.
  intros Hnd Hsec.
  rewrite (registerAll_fresh ps PluginRegistry.empty Hnd Hsec).
  - split; [done|]. cbn [fst]. unfold PluginRegistry.getPluginsBySection.
    by rewrite values_app_entries.
  - apply Forall_forall. by intros.
Qed.

(** C3 (what the code does): the query for a section never reads the
    [order] field. Give the descriptors of any registry any other values
    of [order]: the query returns the same descriptors at the same places.
    The places are those of the registration: descriptors of pairwise
    distinct ids registered into the empty registry come back in the order
    of the calls. After [register(A)] (content, order 2) and then
    [register(B)] (content, order 1) the query for "content" answers
    [A, B], not the [B, A] that the documented rendering order asks
    for. *)
Theorem getPluginsBySection_never_reads_order
    (reg : PluginRegistry.t) (sec : string) (rank : Plugin -> option Z) :
  PluginRegistry.getPluginsBySection sec
    ((fun entry => (fst entry, with_order (rank (snd entry)) (snd entry))) <$> reg)
  = (fun p => with_order (rank p) p) <$> PluginRegistry.getPluginsBySection sec reg /\
  (forall ps,
     NoDup (id <$> ps) ->
     Forall (fun p => section p ∈ PluginRegistry.sections) ps ->
     PluginRegistry.getPluginsBySection sec
       (fst (PluginRegistry.registerAll ps PluginRegistry.empty))
     = List.filter (fun p => String.eqb (section p) sec) ps) /\
  snd (PluginRegistry.registerAll [Samples.A; Samples.B] PluginRegistry.empty)
    = Normal tt /\
  (fun p => (id p, order p)) <$>
    PluginRegistry.getPluginsBySection "content" Samples.registry_with_A_B
  = [("A", Some 2); ("B", Some 1)].
Proof.
  split; [|split; [|split; reflexivity]].
  - unfold PluginRegistry.getPluginsBySection, JsMap.values.
    induction reg as [|[k p] reg IH]; [done|].
    rewrite fmap_cons. cbn [map fst snd List.filter with_order section].
    destruct (String.eqb (section p) sec); [rewrite fmap_cons|]; by rewrite IH.
  - intros ps Hnd Hsec. by apply registration_order_kept.
Qed.

(* ===================================================================== *)
(** ** PluginEventBus                                                     *)
(* ===================================================================== *)

Section Machine.
Import PluginEventBus.

Lemma deliver_unfold stack event data d :
  deliver stack event data d
  = match d_events d !! event with
    | Some handlers =>
        forEachLive (walked event (length (d_retired d)))
          (callback (below stack) event data) 0 (length handlers) d
    | None => (d, Normal tt)
    end.
Proof. by destruct stack. Qed.

(** The arrow function of [publish] catches whatever the handler throws. *)
Lemma callback_returns nested event data h d :
  snd (callback nested event data h d) = Normal tt.
Proof.
  unfold callback, try_catch.
  by destruct (call_handler nested h data d) as [d' [[]|err]].
Qed.

Lemma forEachLive_returns {S A} (array : S -> list A) (f : A -> M S unit) :
  (forall x s, snd (f x s) = Normal tt) ->
  forall n k s, snd (forEachLive array f k n s) = Normal tt.
Proof.
  intros Hf. induction n as [|n IH]; intros k s; [done|].
  simpl. unfold bind.
  destruct (array s !! k) as [x|].
  - specialize (Hf x s). destruct (f x s) as [s' c]. simpl in Hf. subst c. apply IH.
  - unfold ret. apply IH.
Qed.

(** [publish] never throws, whatever the handlers do. *)
Lemma deliver_returns stack event data d :
  snd (deliver stack event data d) = Normal tt.
Proof.
  rewrite deliver_unfold. destruct (d_events d !! event); [|done].
  apply forEachLive_returns. intros. apply callback_returns.
Qed.

Lemma forEach_returns {S A} (f : A -> M S unit) :
  (forall x s, snd (f x s) = Normal tt) ->
  forall xs s, snd (forEach f xs s) = Normal tt.
Proof.
  intros Hf. induction xs as [|x xs IH]; intros s; [done|].
  simpl. unfold bind. specialize (Hf x s).
  destruct (f x s) as [s' c]. simpl in Hf. subst c. apply IH.
Qed.

(** *** What every step of a delivery preserves *)

Section Preserved.
Variable R : Delivering -> Delivering -> Prop.
Hypothesis R_refl : forall d, R d d.
Hypothesis R_trans : forall a b c, R a b -> R b c -> R a c.
Hypothesis R_storage : forall f d, R d (in_storage f d).
Hypothesis R_invoked : forall n data d, R d (note (Invoked n data) d).
Hypothesis R_error : forall msg err d, R d (note (ConsoleError msg err) d).
Hypothesis R_within : forall ev data d, R d (note (PublishedWithin ev data) d).
Hypothesis R_subscribe : forall event h d,
  R d (on_events (fun events => fst (subscribe event h events)) d).
Hypothesis R_token : forall event n d, R d (call_token event n d).
Hypothesis R_clear : forall event d, R d (on_events (clear event) (retire event d)).
Hypothesis R_clearAll : forall d, R d (on_events clearAll (retire_all d)).

Lemma run_preserves nested :
  (forall ev data d, R d (fst (nested ev data d))) ->
  forall s d, R d (fst (run nested s d)).
Proof.
  intros Hn. induction s as [| |k IH|f k IH|event n body _ k IH|event n k IH
                             |event data k IH|event k IH|k IH]; intros d; simpl.
  - apply R_refl.
  - apply R_refl.
  - apply IH.
  - unfold bind, modify. eapply R_trans; [apply R_storage | apply IH].
  - unfold bind, modify. eapply R_trans; [apply R_subscribe | apply IH].
  - unfold bind, modify. eapply R_trans; [apply R_token | apply IH].
  - unfold bind, modify. simpl.
    eapply R_trans; [apply R_within|].
    pose proof (Hn event data (note (PublishedWithin event data) d)) as Hstep.
    destruct (nested event data (note (PublishedWithin event data) d)) as [d' [[]|err]];
      simpl in *.
    + eapply R_trans; [exact Hstep | apply IH].
    + exact Hstep.
  - unfold bind, modify. eapply R_trans; [apply R_clear | apply IH].
  - unfold bind, modify. eapply R_trans; [apply R_clearAll | apply IH].
Qed.

Lemma call_handler_preserves nested :
  (forall ev data d, R d (fst (nested ev data d))) ->
  forall h data d, R d (fst (call_handler nested h data d)).
Proof.
  intros Hn h data d. unfold call_handler, bind, modify. simpl.
  eapply R_trans; [apply R_invoked | by apply run_preserves].
Qed.

Lemma callback_preserves nested :
  (forall ev data d, R d (fst (nested ev data d))) ->
  forall event data h d, R d (fst (callback nested event data h d)).
Proof.
  intros Hn event data h d. unfold callback, try_catch.
  pose proof (call_handler_preserves nested Hn h data d) as Hc.
  destruct (call_handler nested h data d) as [d' [[]|err]]; simpl in *; [done|].
  eapply R_trans; [exact Hc | apply R_error].
Qed.

Lemma forEachLive_preserves (array : Delivering -> list EventHandler)
    (f : EventHandler -> M Delivering unit) :
  (forall h d, R d (fst (f h d))) ->
  forall n k d, R d (fst (forEachLive array f k n d)).
Proof.
  intros Hf. induction n as [|n IH]; intros k d; simpl; [apply R_refl|].
  unfold bind. destruct (array d !! k) as [h|].
  - pose proof (Hf h d) as Hstep.
    destruct (f h d) as [d' [[]|err]]; simpl in *; [|done].
    eapply R_trans; [exact Hstep | apply IH].
  - unfold ret. apply IH.
Qed.

Lemma forEach_preserves (f : EventHandler -> M Delivering unit) :
  (forall h d, R d (fst (f h d))) ->
  forall hs d, R d (fst (forEach f hs d)).
Proof.
  intros Hf. induction hs as [|h hs IH]; intros d; simpl; [apply R_refl|].
  unfold bind. pose proof (Hf h d) as Hstep.
  destruct (f h d) as [d' [[]|err]]; simpl in *; [|done].
  eapply R_trans; [exact Hstep | apply IH].
Qed.

Lemma deliver_preserves stack : forall event data d,
  R d (fst (deliver stack event data d)).
Proof.
  induction stack as [|stack IH]; intros event data d; rewrite deliver_unfold.
  - destruct (d_events d !! event); [|apply R_refl].
    apply forEachLive_preserves. intros h d'.
    apply callback_preserves. intros. apply R_refl.
  - destruct (d_events d !! event); [|apply R_refl].
    apply forEachLive_preserves. intros h d'.
    apply callback_preserves. exact IH.
Qed.

Lemma below_preserves stack event data d :
  R d (fst (below stack event data d)).
Proof. destruct stack; [apply R_refl | apply deliver_preserves]. Qed.

End Preserved.

End Machine.

Section MachineFacts.
Import PluginEventBus.

Lemma call_token_cases event n d :
  call_token event n d = d \/
  call_token event n d
  = note (Unsubscribed event n)
      (on_events (unsubscribe event (mkHandler n (fun _ => Return))) d).
Proof.
  unfold call_token. destruct (d_events d !! event) as [hs|]; [|by left].
  destruct (indexOf _ hs >? -1); [by right | by left].
Qed.

Lemma retire_env event d : d_env (retire event d) = d_env d.
Proof. unfold retire. by destruct (d_events d !! event). Qed.

Lemma retire_events event d : d_events (retire event d) = d_events d.
Proof. unfold retire. by destruct (d_events d !! event). Qed.

(** A kind of observation that no step of a delivery makes is as often in
    the trace after the delivery as before. *)
Lemma deliver_silent {X} (kind : Obs -> option X) stack event data d :
  (forall n v, kind (Invoked n v) = None) ->
  (forall m c, kind (ConsoleError m c) = None) ->
  (forall ev v, kind (PublishedWithin ev v) = None) ->
  (forall ev n, kind (Unsubscribed ev n) = None) ->
  omap kind (shown (fst (deliver stack event data d))) = omap kind (shown d).
Proof.
  intros Hi He Hw Hu.
  apply (deliver_preserves (fun d d' => omap kind (shown d') = omap kind (shown d))).
  - done.
  - intros a b c Hab Hbc. by rewrite Hbc.
  - done.
  - intros n v d0. simpl. rewrite omap_app. simpl. rewrite Hi. apply app_nil_r.
  - intros m c d0. simpl. rewrite omap_app. simpl. rewrite He. apply app_nil_r.
  - intros ev v d0. simpl. rewrite omap_app. simpl. rewrite Hw. apply app_nil_r.
  - done.
  - intros ev n d0. destruct (call_token_cases ev n d0) as [->| ->]; [done|].
    simpl. rewrite omap_app. simpl. rewrite Hu. apply app_nil_r.
  - intros ev d0. simpl. by rewrite retire_env.
  - done.
Qed.

Lemma grows_refl d : grows d d.
Proof. split; exists []; by rewrite app_nil_r. Qed.

Lemma grows_trans a b c : grows a b -> grows b c -> grows a c.
Proof.
  intros [[T1 H1] [L1 H2]] [[T2 H3] [L2 H4]]. split.
  - exists (T1 ++ T2)%list. by rewrite H3, H1, app_assoc.
  - exists (L1 ++ L2)%list. by rewrite H4, H2, app_assoc.
Qed.

Lemma grows_note o d : grows d (note o d).
Proof. split; [by exists [o] | exists []; simpl; by rewrite app_nil_r]. Qed.

Lemma grows_same d d' :
  d_env d' = d_env d -> d_retired d' = d_retired d -> grows d d'.
Proof. intros He Hr. split; exists []; rewrite app_nil_r; congruence. Qed.

Lemma grows_storage f d : grows d (in_storage f d).
Proof. split; exists []; by rewrite app_nil_r. Qed.

Lemma grows_token event n d : grows d (call_token event n d).
Proof.
  destruct (call_token_cases event n d) as [->| ->]; [apply grows_refl|].
  split; [by exists [Unsubscribed event n] | exists []; simpl; by rewrite app_nil_r].
Qed.

Lemma grows_clear event d : grows d (on_events (clear event) (retire event d)).
Proof.
  split; simpl.
  - exists []. by rewrite retire_env, app_nil_r.
  - unfold retire. destruct (d_events d !! event) as [hs|]; simpl.
    + by eexists.
    + exists []. by rewrite app_nil_r.
Qed.

Lemma grows_clearAll d : grows d (on_events clearAll (retire_all d)).
Proof. split; simpl; [exists []; by rewrite app_nil_r | by eexists]. Qed.

Lemma deliver_grows stack event data d : grows d (fst (deliver stack event data d)).
Proof.
  apply (deliver_preserves grows);
    auto using grows_refl, grows_note, grows_storage, grows_token, grows_clear,
      grows_clearAll.
  - apply grows_trans.
  - intros. by apply grows_same.
Qed.

Lemma below_grows stack event data d : grows d (fst (below stack event data d)).
Proof. destruct stack; [apply grows_refl | apply deliver_grows]. Qed.

Lemma callback_grows stack event data h d :
  grows d (fst (callback (below stack) event data h d)).
Proof.
  apply (callback_preserves grows);
    auto using grows_refl, grows_note, grows_storage, grows_token, grows_clear,
      grows_clearAll, below_grows.
  - apply grows_trans.
  - intros. by apply grows_same.
Qed.

Lemma run_grows stack s d : grows d (fst (run (below stack) s d)).
Proof.
  apply (run_preserves grows);
    auto using grows_refl, grows_note, grows_storage, grows_token, grows_clear,
      grows_clearAll, below_grows.
  - apply grows_trans.
  - intros. by apply grows_same.
Qed.

Lemma forEach_callback_grows stack event data hs d :
  grows d (fst (forEach (callback (below stack) event data) hs d)).
Proof.
  apply (forEach_preserves grows); auto using grows_refl, callback_grows.
  apply grows_trans.
Qed.

Lemma forEachLive_callback_grows stack event data array n k d :
  grows d (fst (forEachLive array (callback (below stack) event data) k n d)).
Proof.
  apply (forEachLive_preserves grows); auto using grows_refl, callback_grows.
  apply grows_trans.
Qed.

(** A filter of the trace that is the same at the end of a stretch that
    only grows was the same all along. *)
Lemma omap_stays {X} (kind : Obs -> option X) (tr T1 T2 : list Obs) :
  omap kind ((tr ++ T1) ++ T2)%list = omap kind tr ->
  omap kind (tr ++ T1)%list = omap kind tr /\ omap kind T1 = [] /\ omap kind T2 = [].
Proof.
  rewrite !omap_app, <- app_assoc. intros Heq.
  rewrite <- (app_nil_r (omap kind tr)) in Heq at 2.
  apply app_inv_head in Heq. apply app_eq_nil in Heq as [H1 H2].
  rewrite H1, app_nil_r. done.
Qed.

Lemma stays_between {X} (kind : Obs -> option X) a b c :
  grows a b -> grows b c ->
  omap kind (shown c) = omap kind (shown a) ->
  omap kind (shown b) = omap kind (shown a) /\ omap kind (shown c) = omap kind (shown b).
Proof.
  intros [[T1 H1] _] [[T2 H2] _] Heq. rewrite H2, H1 in Heq.
  destruct (omap_stays kind _ _ _ Heq) as (Hb & _ & H3).
  rewrite H1. split; [done|]. rewrite H2, H1, omap_app, H3. by rewrite app_nil_r.
Qed.

(** *** The array under the loop *)

Lemma find_key_NoDup {V} (ev : string) (l : list (string * V)) :
  NoDup (fst <$> l) ->
  List.find (fun entry => String.eqb (fst entry) ev) l
  = (fun v => (ev, v)) <$> (list_to_map l : gmap string V) !! ev.
Proof.
  induction l as [|[k v] l IH]; intros Hnd; simpl; [done|].
  apply NoDup_cons in Hnd as [Hk Hnd].
  destruct (String.eqb k ev) eqn:E.
  - apply String.eqb_eq in E. subst k. by rewrite lookup_insert_eq.
  - apply String.eqb_neq in E. rewrite lookup_insert_ne by done. by apply IH.
Qed.

Lemma find_map_to_list (ev : string) (m : t) :
  List.find (fun entry => String.eqb (fst entry) ev) (map_to_list m)
  = (fun hs => (ev, hs)) <$> m !! ev.
Proof.
  rewrite find_key_NoDup by apply NoDup_fst_map_to_list.
  by rewrite list_to_map_to_list.
Qed.

Lemma find_app_l {A} (f : A -> bool) (l1 l2 : list A) x :
  List.find f l1 = Some x -> List.find f (l1 ++ l2) = Some x.
Proof.
  induction l1 as [|a l1 IH]; simpl; [done|]. destruct (f a); [done | exact IH].
Qed.

Lemma find_app_r {A} (f : A -> bool) (l1 l2 : list A) :
  List.find f l1 = None -> List.find f (l1 ++ l2) = List.find f l2.
Proof.
  induction l1 as [|a l1 IH]; simpl; [done|]. destruct (f a); [done | exact IH].
Qed.

(** The arrays that leave the Map after the mark do not change what the
    loop walks, if the array under the loop is among them with the
    handlers it had. *)
Lemma walked_retired ev mark d L events' e' :
  (mark <= length (d_retired d))%nat ->
  (List.find (fun entry => String.eqb (fst entry) ev) L = None ->
   events' !! ev = d_events d !! ev) ->
  (forall entry, List.find (fun entry => String.eqb (fst entry) ev) L = Some entry ->
   d_events d !! ev = Some (snd entry)) ->
  walked ev mark (mkDelivering events' (d_retired d ++ L) e') = walked ev mark d.
Proof.
  intros Hmark Hnone Hsome. unfold walked. simpl.
  rewrite drop_app_le by done.
  destruct (List.find _ (drop mark (d_retired d))) as [entry|] eqn:Hold.
  - by rewrite (find_app_l _ _ _ _ Hold).
  - rewrite (find_app_r _ _ _ Hold).
    destruct (List.find _ L) as [entry|] eqn:HL.
    + by rewrite (Hsome _ eq_refl).
    + by rewrite Hnone.
Qed.

Lemma keeps_refl ev d : keeps ev d d.
Proof. split; [apply grows_refl | done]. Qed.

Lemma keeps_trans ev a b c : keeps ev a b -> keeps ev b c -> keeps ev a c.
Proof.
  intros [Gab Hab] [Gbc Hbc]. split; [by eapply grows_trans|].
  intros Heq mark Hmark.
  destruct (stays_between _ a b c Gab Gbc Heq) as [H1 H2].
  etrans; [by apply Hab|]. apply Hbc; [done|].
  destruct Gab as [_ [L ->]]. rewrite length_app. lia.
Qed.

Lemma keeps_same ev d d' :
  d_retired d' = d_retired d -> d_events d' !! ev = d_events d !! ev ->
  grows d d' -> keeps ev d d'.
Proof.
  intros Hr He G. split; [done|]. intros _ mark _.
  unfold walked. by rewrite Hr, He.
Qed.

Lemma keeps_subscribe ev event h d :
  keeps ev d (on_events (fun events => fst (subscribe event h events)) d).
Proof.
  split; [by apply grows_same|]. intros _ mark _. unfold walked. simpl.
  destruct (List.find _ (drop mark (d_retired d))); [done|].
  destruct (decide (event = ev)) as [->|Hne].
  - destruct (d_events d !! ev) as [hs|] eqn:Hev.
    + rewrite Hev, lookup_insert_eq. simpl. by apply prefix_app_r.
    + rewrite lookup_insert_eq, lookup_insert_eq. simpl. apply prefix_nil.
  - destruct (d_events d !! event) as [hs|] eqn:Hev.
    + rewrite Hev. by rewrite lookup_insert_ne.
    + rewrite lookup_insert_eq. by rewrite !lookup_insert_ne.
Qed.

Lemma keeps_token ev event n d : keeps ev d (call_token event n d).
Proof.
  split; [apply grows_token|].
  destruct (call_token_cases event n d) as [->| ->]; [done|].
  intros Heq mark _. simpl in *.
  unfold unsubscriptions in Heq. rewrite omap_app in Heq. simpl in Heq.
  destruct (String.eqb event ev) eqn:E.
  - exfalso. apply (f_equal length) in Heq. rewrite length_app in Heq. simpl in Heq. lia.
  - apply String.eqb_neq in E. unfold walked. simpl.
    destruct (List.find _ (drop mark (d_retired d))); [done|].
    unfold unsubscribe. destruct (d_events d !! event) as [hs|]; [|done].
    destruct (indexOf _ hs >? -1); [|done]. by rewrite lookup_insert_ne.
Qed.

Lemma keeps_clear ev event d : keeps ev d (on_events (clear event) (retire event d)).
Proof.
  split; [apply grows_clear|]. intros _ mark Hmark.
  unfold retire, on_events, clear.
  destruct (d_events d !! event) as [hs|] eqn:Hev; simpl.
  - rewrite walked_retired; [done | done | |]; simpl.
    + destruct (String.eqb event ev) eqn:E; [done|]. intros _.
      apply String.eqb_neq in E. by rewrite lookup_delete_ne.
    + destruct (String.eqb event ev) eqn:E; [|done]. intros entry [= <-].
      apply String.eqb_eq in E. by subst.
  - unfold walked. simpl.
    destruct (List.find _ (drop mark (d_retired d))); [done|].
    destruct (decide (event = ev)) as [->|Hne].
    + by rewrite lookup_delete_eq, Hev.
    + by rewrite lookup_delete_ne.
Qed.

Lemma keeps_clearAll ev d : keeps ev d (on_events clearAll (retire_all d)).
Proof.
  split; [apply grows_clearAll|]. intros _ mark Hmark.
  unfold retire_all, on_events, clearAll. simpl.
  rewrite walked_retired; [done | done | |]; rewrite find_map_to_list.
  - destruct (d_events d !! ev); [done|]. intros _. by rewrite lookup_empty.
  - destruct (d_events d !! ev); [|done]. by intros entry [= <-].
Qed.

Lemma deliver_keeps ev stack event data d : keeps ev d (fst (deliver stack event data d)).
Proof.
  apply (deliver_preserves (keeps ev));
    auto using keeps_refl, keeps_subscribe, keeps_token, keeps_clear, keeps_clearAll.
  - apply keeps_trans.
  - intros. apply keeps_same; [done | done | apply grows_storage].
  - intros. apply keeps_same; [done | done | apply grows_note].
  - intros. apply keeps_same; [done | done | apply grows_note].
  - intros. apply keeps_same; [done | done | apply grows_note].
Qed.

Lemma below_keeps ev stack event data d : keeps ev d (fst (below stack event data d)).
Proof. destruct stack; [apply keeps_refl | apply deliver_keeps]. Qed.

Lemma callback_keeps ev stack event data h d :
  keeps ev d (fst (callback (below stack) event data h d)).
Proof.
  apply (callback_preserves (keeps ev));
    auto using keeps_refl, keeps_subscribe, keeps_token, keeps_clear, keeps_clearAll,
      below_keeps.
  - apply keeps_trans.
  - intros. apply keeps_same; [done | done | apply grows_storage].
  - intros. apply keeps_same; [done | done | apply grows_note].
  - intros. apply keeps_same; [done | done | apply grows_note].
  - intros. apply keeps_same; [done | done | apply grows_note].
Qed.

(** The loop of [publish] on the live array is the loop on the handlers
    the array held when it began, if no handler is taken off the list of
    the event while it runs. *)
Lemma forEachLive_one_by_one ev stack data mark hs : forall n k d,
  (mark <= length (d_retired d))%nat ->
  hs `prefix_of` walked ev mark d ->
  (k + n <= length hs)%nat ->
  unsubscriptions ev
    (shown (fst (forEachLive (walked ev mark) (callback (below stack) ev data) k n d)))
  = unsubscriptions ev (shown d) ->
  forEachLive (walked ev mark) (callback (below stack) ev data) k n d
  = forEach (callback (below stack) ev data) (take n (drop k hs)) d.
Proof.
  induction n as [|n IH]; intros k d Hmark Hpre Hlen Hquiet; [done|].
  destruct (lookup_lt_is_Some_2 hs k ltac:(lia)) as [h Hh].
  assert (Hw : walked ev mark d !! k = Some h) by (by eapply prefix_lookup_Some).
  rewrite (drop_S _ _ _ Hh). cbn [take forEach forEachLive] in *.
  unfold bind in *. rewrite Hw in *.
  pose proof (callback_returns (below stack) ev data h d) as Hret.
  pose proof (callback_keeps ev stack ev data h d) as [G K].
  destruct (callback (below stack) ev data h d) as [d1 c]. simpl in Hret, G, K. subst c.
  pose proof (forEachLive_callback_grows stack ev data (walked ev mark) n (S k) d1) as G2.
  destruct (stays_between _ _ _ _ G G2 Hquiet) as [H1 H2].
  apply IH; [| | lia | done].
  - destruct G as [_ [L ->]]. rewrite length_app. lia.
  - etrans; [exact Hpre | by apply K].
Qed.

Lemma walked_start ev d :
  walked ev (length (d_retired d)) d = default [] (d_events d !! ev).
Proof. unfold walked. by rewrite drop_all. Qed.

Lemma deliver_one_by_one stack ev data d :
  unsubscriptions ev (shown (fst (deliver stack ev data d)))
  = unsubscriptions ev (shown d) ->
  deliver stack ev data d
  = forEach (callback (below stack) ev data) (default [] (d_events d !! ev)) d.
Proof.
  rewrite deliver_unfold. destruct (d_events d !! ev) as [hs|] eqn:Hev; [|done].
  intros Hquiet. simpl.
  rewrite (forEachLive_one_by_one ev stack data (length (d_retired d)) hs);
    [by rewrite drop_0, firstn_all | done | by rewrite walked_start, Hev | simpl; lia | done].
Qed.

(** *** What the handlers are called with *)

(** A script that publishes nothing calls no handler. *)
Lemma run_invocations stack : forall s d,
  republications (shown (fst (run (below stack) s d))) = republications (shown d) ->
  invocations (shown (fst (run (below stack) s d))) = invocations (shown d).
Proof.
  induction s as [| |k IH|f k IH|event n body _ k IH|event n k IH
                  |event data k IH|event k IH|k IH]; intros d; simpl; try done.
  - apply IH.
  - unfold bind, modify. apply (IH (in_storage f d)).
  - unfold bind, modify. apply (IH (on_events _ d)).
  - unfold bind, modify. intros Hq.
    pose proof (grows_token event n d) as G1.
    pose proof (run_grows stack k (call_token event n d)) as G2.
    destruct (stays_between _ _ _ _ G1 G2 Hq) as [H1 H2].
    rewrite (IH _ H2).
    destruct (call_token_cases event n d) as [->| ->]; [done|].
    simpl. unfold invocations. rewrite omap_app. apply app_nil_r.
  - unfold bind, modify. simpl. intros Hq. exfalso.
    pose proof (grows_note (PublishedWithin event data) d) as G1.
    assert (G2 : grows (note (PublishedWithin event data) d)
                   (fst (match below stack event data (note (PublishedWithin event data) d) with
                         | (s', Normal _) => run (below stack) k s'
                         | (s', Throw e) => (s', Throw e)
                         end))).
    { pose proof (below_grows stack event data (note (PublishedWithin event data) d)) as G.
      destruct (below stack event data _) as [d' [[]|err]]; simpl in *; [|done].
      eapply grows_trans; [exact G | apply run_grows]. }
    destruct (stays_between _ _ _ _ G1 G2 Hq) as [H1 _].
    simpl in H1. unfold republications in H1. rewrite omap_app in H1. simpl in H1.
    apply (f_equal length) in H1. rewrite length_app in H1. simpl in H1. lia.
  - unfold bind, modify. intros Hq.
    rewrite (IH (on_events (clear event) (retire event d))).
    + simpl. by rewrite retire_env.
    + rewrite Hq. simpl. by rewrite retire_env.
  - unfold bind, modify. apply (IH (on_events clearAll (retire_all d))).
Qed.

Lemma callback_invocations stack event data h d :
  republications (shown (fst (callback (below stack) event data h d)))
  = republications (shown d) ->
  invocations (shown (fst (callback (below stack) event data h d)))
  = (invocations (shown d) ++ [(hid h, data)])%list.
Proof.
  unfold callback, try_catch, call_handler, bind, modify. simpl.
  pose proof (run_invocations stack (hbody h data) (note (Invoked (hid h) data) d)) as Hrun.
  destruct (run (below stack) (hbody h data) (note (Invoked (hid h) data) d))
    as [d' [[]|err]]; simpl in *; intros Hq.
  - rewrite Hrun.
    + unfold invocations. by rewrite omap_app.
    + rewrite Hq. unfold republications. rewrite omap_app. by rewrite app_nil_r.
  - unfold invocations, republications in *.
    rewrite omap_app in Hq. rewrite omap_app. simpl in *.
    rewrite app_nil_r in Hq. rewrite app_nil_r.
    rewrite Hrun.
    + by rewrite omap_app.
    + rewrite Hq. rewrite omap_app. by rewrite app_nil_r.
Qed.

Lemma one_by_one_invocations stack event data hs : forall d,
  republications (shown (fst (forEach (callback (below stack) event data) hs d)))
  = republications (shown d) ->
  invocations (shown (fst (forEach (callback (below stack) event data) hs d)))
  = (invocations (shown d) ++ ((fun h => (hid h, data)) <$> hs))%list.
Proof.
  induction hs as [|h hs IH]; intros d Hq; simpl in *.
  - by rewrite app_nil_r.
  - unfold bind in *.
    pose proof (callback_returns (below stack) event data h d) as Hret.
    pose proof (callback_grows stack event data h d) as G.
    pose proof (callback_invocations stack event data h d) as Hc.
    destruct (callback (below stack) event data h d) as [d1 c]. simpl in *. subst c.
    pose proof (forEach_callback_grows stack event data hs d1) as G2.
    destruct (stays_between _ _ _ _ G G2 Hq) as [H1 H2].
    rewrite (IH _ H2), (Hc H1). by rewrite <- app_assoc.
Qed.

(** *** Handlers that act on the storage only *)

Lemma storage_only_bound (f : Effect) : storage_bound (storage_only f).
Proof.
  unfold storage_only. constructor. intros st. constructor.
  destruct (snd (f st)); constructor.
Qed.

Lemma run_bound nested s : storage_bound s -> forall d,
  exists st', fst (run nested s d)
              = mkDelivering (d_events d) (d_retired d) (mkEnv st' (shown d)).
Proof.
  induction 1 as [|error|k _ IH|f k _ IH]; intros d; simpl.
  - exists (storage (d_env d)). by destruct d as [? ? []].
  - exists (storage (d_env d)). by destruct d as [? ? []].
  - apply IH.
  - unfold bind, modify. apply (IH (in_storage f d)).
Qed.

Lemma callback_bound {X} (kind : Obs -> option X) nested event data h d :
  storage_bound (hbody h data) ->
  (forall n v, kind (Invoked n v) = None) ->
  (forall m c, kind (ConsoleError m c) = None) ->
  d_events (fst (callback nested event data h d)) = d_events d /\
  d_retired (fst (callback nested event data h d)) = d_retired d /\
  omap kind (shown (fst (callback nested event data h d))) = omap kind (shown d).
Proof.
  intros Hb Hi He. unfold callback, try_catch, call_handler, bind, modify. simpl.
  destruct (run_bound nested _ Hb (note (Invoked (hid h) data) d)) as [st' Hrun].
  destruct (run nested (hbody h data) (note (Invoked (hid h) data) d))
    as [d' [[]|err]]; simpl in *; subst d'; simpl;
    rewrite ?omap_app; simpl; rewrite ?Hi, ?He, ?app_nil_r; done.
Qed.

Lemma forEachLive_secluded {X} (kind : Obs -> option X) nested ev data mark :
  (forall n v, kind (Invoked n v) = None) ->
  (forall m c, kind (ConsoleError m c) = None) ->
  forall n k d,
    secluded (d_events d) -> mark = length (d_retired d) ->
    d_events (fst (forEachLive (walked ev mark) (callback nested ev data) k n d))
      = d_events d /\
    d_retired (fst (forEachLive (walked ev mark) (callback nested ev data) k n d))
      = d_retired d /\
    omap kind (shown (fst (forEachLive (walked ev mark) (callback nested ev data) k n d)))
      = omap kind (shown d).
Proof.
  intros Hi He. induction n as [|n IH]; intros k d Hsec Hmark; [done|].
  simpl. unfold bind.
  destruct (walked ev mark d !! k) as [h|] eqn:Hw.
  - assert (Hb : storage_bound (hbody h data)).
    { subst mark. rewrite walked_start in Hw.
      destruct (d_events d !! ev) as [hs|] eqn:Hev; [|done]. simpl in Hw.
      apply (proj1 (Forall_forall _ _) (Hsec _ _ Hev)).
      by eapply list_elem_of_lookup_2. }
    pose proof (callback_returns nested ev data h d) as Hret.
    destruct (callback_bound kind nested ev data h d Hb Hi He) as (H1 & H2 & H3).
    destruct (callback nested ev data h d) as [d1 c]. simpl in *. subst c.
    destruct (IH (S k) d1) as (H4 & H5 & H6); [by rewrite H1 | by rewrite H2|].
    rewrite H4, H5, H6. done.
  - unfold ret. by apply IH.
Qed.

(** On a bus whose handlers act on the storage only, a delivery leaves
    the bus as it was, and shows handler calls and console lines only. *)
Lemma deliver_secluded {X} (kind : Obs -> option X) stack ev data d :
  secluded (d_events d) ->
  (forall n v, kind (Invoked n v) = None) ->
  (forall m c, kind (ConsoleError m c) = None) ->
  d_events (fst (deliver stack ev data d)) = d_events d /\
  omap kind (shown (fst (deliver stack ev data d))) = omap kind (shown d).
Proof.
  intros Hsec Hi He. rewrite deliver_unfold.
  destruct (d_events d !! ev) as [hs|]; [|done].
  destruct (forEachLive_secluded kind (below stack) ev data (length (d_retired d))
              Hi He (length hs) 0%nat d Hsec eq_refl) as (H1 & _ & H3).
  done.
Qed.

End MachineFacts.

Section PublishFacts.
Context {stack : CallStack}.
Import PluginEventBus.
Implicit Types (events : gmap string (list EventHandler)) (h : EventHandler).

(** [publish] written out: it returns normally, with the bus, the storage
    and the observations its delivery ends with. *)
Lemma publish_spec event data events e :
  publish event data events e
  = (mkEnv (storage (d_env (fst (delivery event data events (storage e)))))
           (trace e ++ Published event data
              :: shown (fst (delivery event data events (storage e)))),
     Normal (d_events (fst (delivery event data events (storage e))))).
Proof.
  unfold publish. pose proof (deliver_returns frames event data
    (mkDelivering events [] (mkEnv (storage e) []))) as Hret.
  unfold delivery. destruct (deliver frames event data _) as [d c].
  simpl in Hret. by subst c.
Qed.

Lemma delivery_nil event data events st :
  handlers_of event events = [] ->
  delivery event data events st = (mkDelivering events [] (mkEnv st []), Normal tt).
Proof.
  unfold handlers_of, delivery. intros Hnil. rewrite deliver_unfold. simpl.
  destruct (events !! event) as [hs|]; [|done]. simpl in Hnil. by subst hs.
Qed.

(** A kind of observation that a delivery does not make. *)
Lemma publish_silent {X} (kind : Obs -> option X) event data events e :
  (forall n v, kind (Invoked n v) = None) ->
  (forall m c, kind (ConsoleError m c) = None) ->
  (forall ev v, kind (PublishedWithin ev v) = None) ->
  (forall ev n, kind (Unsubscribed ev n) = None) ->
  omap kind (trace (fst (publish event data events e)))
  = (omap kind (trace e) ++ omap kind [Published event data])%list.
Proof.
  intros Hi He Hw Hu. rewrite publish_spec. cbn [fst trace].
  change (Published event data :: ?T) with ([Published event data] ++ T)%list.
  rewrite !omap_app. unfold delivery.
  rewrite (deliver_silent kind _ _ _ _ Hi He Hw Hu). simpl. by rewrite app_nil_r.
Qed.

Lemma delivery_silent {X} (kind : Obs -> option X) event data events st :
  (forall n v, kind (Invoked n v) = None) ->
  (forall m c, kind (ConsoleError m c) = None) ->
  (forall ev v, kind (PublishedWithin ev v) = None) ->
  (forall ev n, kind (Unsubscribed ev n) = None) ->
  omap kind (shown (fst (delivery event data events st))) = [].
Proof.
  intros Hi He Hw Hu. unfold delivery.
  by rewrite (deliver_silent kind _ _ _ _ Hi He Hw Hu).
Qed.

Lemma publish_publications event data events e :
  publications (trace (fst (publish event data events e)))
  = (publications (trace e) ++ [(event, data)])%list.
Proof. unfold publications. by rewrite publish_silent. Qed.

Lemma publish_hook_calls event data events e :
  hook_calls (trace (fst (publish event data events e))) = hook_calls (trace e).
Proof. unfold hook_calls. rewrite publish_silent by done. apply app_nil_r. Qed.

(** What a filter of the trace shows of a [publish] is what it shows of
    the delivery. *)
Lemma publish_stays {X} (kind : Obs -> option X) event data events e :
  kind (Published event data) = None ->
  omap kind (trace (fst (publish event data events e))) = omap kind (trace e) ->
  omap kind (shown (fst (delivery event data events (storage e)))) = [].
Proof.
  intros Hk. rewrite publish_spec. cbn [fst trace].
  change (Published event data :: ?T) with ([Published event data] ++ T)%list.
  rewrite !omap_app. simpl. rewrite Hk. simpl. intros Heq.
  rewrite <- (app_nil_r (omap kind (trace e))) in Heq at 2.
  by apply app_inv_head in Heq.
Qed.

(** If no handler is taken off the list of the event while [publish]
    delivers, the delivery is the one that calls the handlers subscribed
    before it one after the other. *)
Lemma publish_one_by_one event data events e :
  unsubscriptions event (trace (fst (publish event data events e)))
  = unsubscriptions event (trace e) ->
  fst (delivery event data events (storage e))
  = reached event data (handlers_of event events) events (storage e).
Proof.
  intros Hq. apply publish_stays in Hq; [|done].
  unfold delivery, reached, one_by_one in *.
  by rewrite deliver_one_by_one.
Qed.

Lemma publish_undisturbed event data events e :
  undisturbed event (trace e) (trace (fst (publish event data events e))) ->
  invocations (trace (fst (publish event data events e)))
  = (invocations (trace e) ++ ((fun g => (hid g, data)) <$> handlers_of event events))%list.
Proof.
  intros [Hu Hr]. pose proof (publish_one_by_one _ _ _ _ Hu) as Hd.
  apply publish_stays in Hr; [|done]. rewrite Hd in Hr.
  rewrite publish_spec. cbn [fst trace].
  change (Published event data :: ?T) with ([Published event data] ++ T)%list.
  unfold invocations at 1. rewrite !omap_app. simpl. f_equal.
  rewrite Hd. unfold reached, one_by_one in *.
  fold (invocations (shown (fst (forEach (callback (below frames) event data)
                                   (handlers_of event events)
                                   (mkDelivering events [] (mkEnv (storage e) [])))))).
  by rewrite one_by_one_invocations.
Qed.

(** On a bus whose handlers act on the storage only every [publish] is
    undisturbed and leaves the bus as it was. *)
Lemma publish_secluded event data events e :
  secluded events ->
  undisturbed event (trace e) (trace (fst (publish event data events e))) /\
  snd (publish event data events e) = Normal events.
Proof.
  intros Hsec. rewrite publish_spec. cbn [fst snd trace]. unfold delivery.
  change (Published event data :: ?T) with ([Published event data] ++ T)%list.
  split; [split|].
  - unfold unsubscriptions. rewrite !omap_app.
    destruct (deliver_secluded
                (fun o => match o with
                          | Unsubscribed ev n => if String.eqb ev event then Some n else None
                          | _ => None
                          end)
                frames event data (mkDelivering events [] (mkEnv (storage e) [])))
      as [_ ->]; [done..|]. simpl. by rewrite app_nil_r.
  - unfold republications. rewrite !omap_app.
    destruct (deliver_secluded
                (fun o => match o with PublishedWithin ev d => Some (ev, d) | _ => None end)
                frames event data (mkDelivering events [] (mkEnv (storage e) [])))
      as [_ ->]; [done..|]. simpl. by rewrite app_nil_r.
  - destruct (deliver_secluded (fun _ : Obs => @None unit)
                frames event data (mkDelivering events [] (mkEnv (storage e) [])))
      as [-> _]; done.
Qed.


Lemma calls_of_app n tr1 tr2 :
  calls_of n (tr1 ++ tr2) = (calls_of n tr1 ++ calls_of n tr2)%list.
Proof. apply omap_app. Qed.


(** What one call of the arrow function shows: the call, then what the
    handler did. *)
Lemma callback_shown event data h d :
  exists T, shown (fst (callback (below frames) event data h d))
            = (shown d ++ Invoked (hid h) data :: T)%list.
Proof.
  unfold callback, try_catch, call_handler, bind, modify. simpl.
  pose proof (run_grows frames (hbody h data) (note (Invoked (hid h) data) d))
    as [[T HT] _].
  destruct (run (below frames) (hbody h data) (note (Invoked (hid h) data) d))
    as [d' [[]|err]]; simpl in *.
  - exists T. by rewrite HT, <- app_assoc.
  - eexists. rewrite HT, <- !app_assoc. reflexivity.
Qed.

(** Handlers called one after the other are all called, in order. *)
Lemma one_by_one_calls event data hs : forall d,
  exists T,
    shown (fst (one_by_one event data hs d)) = (shown d ++ T)%list /\
    ((fun g => (hid g, data)) <$> hs) `sublist_of` invocations T.
Proof.
  unfold one_by_one.
  induction hs as [|h hs IH]; intros d.
  - exists []. simpl. by rewrite app_nil_r.
  - cbn [forEach]. unfold bind.
    pose proof (callback_returns (below frames) event data h d) as Hret.
    destruct (callback_shown event data h d) as [T1 H1].
    destruct (callback (below frames) event data h d) as [d1 c].
    cbn [fst snd] in *. subst c.
    destruct (IH d1) as (T2 & H2 & Hsub).
    exists (Invoked (hid h) data :: T1 ++ T2)%list. split.
    + rewrite H2, H1. by rewrite <- app_assoc.
    + rewrite fmap_cons. unfold invocations. simpl. rewrite omap_app.
      apply sublist_skip. by apply sublist_inserts_l.
Qed.

Lemma one_by_one_app event data hs1 hs2 d :
  one_by_one event data (hs1 ++ hs2) d
  = one_by_one event data hs2 (fst (one_by_one event data hs1 d)).
Proof.
  unfold one_by_one. rewrite forEach_app.
  pose proof (forEach_returns (callback (below frames) event data)
                (callback_returns _ _ _) hs1 d) as Hret.
  destruct (forEach _ hs1 d) as [d1 c]. simpl in *. by subst c.
Qed.

(** Subscribing appends the handler to the list of its event. *)
Lemma handlers_of_subscribe event h events :
  handlers_of event (fst (subscribe event h events))
  = (handlers_of event events ++ [h])%list.
Proof.
  unfold subscribe, handlers_of. simpl.
  destruct (events !! event) as [hs|] eqn:Hev.
  - rewrite Hev. by rewrite lookup_insert_eq.
  - rewrite lookup_insert_eq. by rewrite lookup_insert_eq.
Qed.

Lemma handlers_of_subscribe_ne event event' h events :
  event <> event' ->
  handlers_of event' (fst (subscribe event h events)) = handlers_of event' events.
Proof.
  intros Hne. unfold subscribe, handlers_of. simpl.
  destruct (events !! event) as [hs|] eqn:Hev.
  - rewrite Hev. by rewrite lookup_insert_ne.
  - rewrite lookup_insert_eq. by rewrite !lookup_insert_ne.
Qed.






End PublishFacts.




(** Why the deliveries above are taken undisturbed. "ping" has one
    handler, which calls the function its own [subscribe] returned;
    [quiet 7] is subscribed after it. The first publish calls the handler
    1, which takes itself off the array that [forEach] is walking:
    [quiet 7] moves to the index just visited and is not called. The next
    publish calls it. *)
Lemma leaving_handler_hides_the_next :
  let bus1 := fst (PluginEventBus.subscribe "ping" (Samples.quiet 7) Samples.bus_once) in
  let first := PluginEventBus.publish (stack := Samples.stack) "ping" (JNum 1) bus1
                 Samples.env0 in
  hid <$> handlers_of "ping" bus1 = [1; 7]%nat /\
  invocations (trace (fst first)) = [(1%nat, JNum 1)] /\
  calls_of 7 (trace (fst first)) = [] /\
  unsubscriptions "ping" (trace (fst first)) = [1%nat] /\
  exists bus2,
    snd first = Normal bus2 /\
    hid <$> handlers_of "ping" bus2 = [7%nat] /\
    calls_of 7 (trace (fst (PluginEventBus.publish (stack := Samples.stack) "ping" (JNum 1)
                              bus2 Samples.env0))) = [JNum 1].
Proof.
  repeat split; try (vm_compute; reflexivity).
  eexists. split; [vm_compute; reflexivity|]. split; vm_compute; reflexivity.
Qed.

(** A handler that calls [clear] on the event that is being delivered
    does not stop the delivery: [forEach] goes on walking the array that
    has left the Map. *)
Lemma clearing_handler_does_not_stop_delivery :
  let result := PluginEventBus.publish (stack := Samples.stack) "ping" JNull
                  Samples.bus_sweeper Samples.env0 in
  invocations (trace (fst result)) = [(1%nat, JNull); (2%nat, JNull)] /\
  exists bus', snd result = Normal bus' /\ handlers_of "ping" bus' = [].
Proof. split; [vm_compute; reflexivity|]. eexists. split; vm_compute; reflexivity. Qed.

(** C5 (as amended): when a handler subscribed to an event throws during
    [publish], the arrow function of [publish] catches the error, writes
    it to the console and returns, and no error reaches the caller of
    [publish]. If no handler is taken off the list of the event while the
    publish delivers, then the error of [h], reached after the handlers
    [before] have run, is on the console, and every handler that was
    subscribed before the publish, those after [h] included, is still
    called, in subscription order; they are called exactly once each if
    moreover no handler publishes. *)
Theorem publish_isolates_raising_handler {stack : CallStack}
    (event : string) (data : JsVal) (events : gmap string (list EventHandler))
    (e : Env) (before after : list EventHandler) (h : EventHandler) (err : Thrown) :
  handlers_of event events = (before ++ h :: after)%list ->
  snd (PluginEventBus.call_handler (PluginEventBus.below frames) h data
         (reached event data before events (storage e))) = Throw err ->
  let e' := fst (PluginEventBus.publish event data events e) in
  threw (snd (PluginEventBus.publish event data events e)) = false /\
  (forall g d error,
     snd (PluginEventBus.call_handler (PluginEventBus.below frames) g data d) = Throw error ->
     PluginEventBus.callback (PluginEventBus.below frames) event data g d
     = (PluginEventBus.note
          (ConsoleError ("Error in event handler for " +:+ event +:+ ":") error)
          (fst (PluginEventBus.call_handler (PluginEventBus.below frames) g data d)),
        Normal tt)) /\
  (unsubscriptions event (trace e') = unsubscriptions event (trace e) ->
   ("Error in event handler for " +:+ event +:+ ":", err) ∈ console_errors (trace e') /\
   exists calls,
     invocations (trace e') = (invocations (trace e) ++ calls)%list /\
     ((fun g => (hid g, data)) <$> (before ++ h :: after)%list) `sublist_of` calls) /\
  (undisturbed event (trace e) (trace e') ->
   invocations (trace e')
   = (invocations (trace e) ++ ((fun g => (hid g, data)) <$> (before ++ h :: after)))%list).
Proof.
  intros Hhs Hthrow. cbv zeta. split; [by rewrite publish_spec|].
  assert (Hcatch : forall g d error,
    snd (PluginEventBus.call_handler (PluginEventBus.below frames) g data d) = Throw error ->
    PluginEventBus.callback (PluginEventBus.below frames) event data g d
    = (PluginEventBus.note
         (ConsoleError ("Error in event handler for " +:+ event +:+ ":") error)
         (fst (PluginEventBus.call_handler (PluginEventBus.below frames) g data d)),
       Normal tt)).
  { intros g d error Hg. unfold PluginEventBus.callback, try_catch.
    destruct (PluginEventBus.call_handler (PluginEventBus.below frames) g data d) as [d1 c].
    simpl in Hg. by subst c. }
  split; [exact Hcatch|]. split.
  - intros Hq. pose proof (publish_one_by_one _ _ _ _ Hq) as Hd.
    rewrite publish_spec. cbn [fst trace]. rewrite Hd, Hhs. split.
    + unfold reached in *. rewrite one_by_one_app.
      set (d0 := fst (one_by_one event data before _)) in *.
      unfold one_by_one at 1. cbn [forEach]. unfold bind.
      rewrite (Hcatch h d0 err Hthrow).
      pose proof (forEach_callback_grows frames event data after
                    (PluginEventBus.note
                       (ConsoleError ("Error in event handler for " +:+ event +:+ ":") err)
                       (fst (PluginEventBus.call_handler (PluginEventBus.below frames)
                               h data d0)))) as [[T HT] _].
      rewrite HT. unfold console_errors. apply list_elem_of_omap.
      exists (ConsoleError ("Error in event handler for " +:+ event +:+ ":") err).
      split; [|done]. simpl. set_solver.
    + destruct (one_by_one_calls event data (before ++ h :: after)
                  (PluginEventBus.mkDelivering events [] (mkEnv (storage e) []))) as (T & HT & Hsub).
      exists (invocations T). split; [|done].
      unfold reached. rewrite HT. simpl.
      change (Published event data :: T) with ([Published event data] ++ T)%list.
      unfold invocations. by rewrite !omap_app.
  - intros Hcalm. by rewrite (publish_undisturbed _ _ _ _ Hcalm), Hhs.
Qed.

Lemma publish_isolates_raising_handler_witness :
  threw (snd (PluginEventBus.publish (stack := Samples.stack) "ping" JNull
                Samples.bus_faulty Samples.env0)) = false /\
  ("Error in event handler for ping:", ErrorObj "Error" "handler failed")
    ∈ console_errors
        (trace (fst (PluginEventBus.publish (stack := Samples.stack) "ping" JNull
                       Samples.bus_faulty Samples.env0))) /\
  invocations (trace (fst (PluginEventBus.publish (stack := Samples.stack) "ping" JNull
                             Samples.bus_faulty Samples.env0)))
    = [(1%nat, JNull); (2%nat, JNull); (3%nat, JNull)].
Proof.
  destruct (publish_isolates_raising_handler (stack := Samples.stack)
              "ping" JNull Samples.bus_faulty Samples.env0
              [Samples.quiet 1] [Samples.quiet 3] (Samples.faulty 2)
              (ErrorObj "Error" "handler failed")) as (Hret & _ & Hlog & Hcalls).
  - vm_compute. reflexivity.
  - vm_compute. reflexivity.
  - split; [exact Hret|]. split.
    + apply Hlog. reflexivity.
    + apply Hcalls. split; reflexivity.
Defined.

(** C5, counterexample: "ping" has two handlers, both subscribed before
    the publish. The first one calls the function its own [subscribe]
    returned and then throws. The error is caught and written to the
    console and [publish] returns normally, but the second handler is not
    called: it has moved to the index that [forEach] has just visited. It
    is still subscribed after the publish. *)
Lemma raising_handler_can_skip_the_next :
  let result := PluginEventBus.publish (stack := Samples.stack) "ping" JNull
                  Samples.bus_once_faulty Samples.env0 in
  hid <$> handlers_of "ping" Samples.bus_once_faulty = [1; 2]%nat /\
  threw (snd result) = false /\
  console_errors (trace (fst result))
    = [("Error in event handler for ping:", ErrorObj "Error" "handler failed")] /\
  invocations (trace (fst result)) = [(1%nat, JNull)] /\
  calls_of 2 (trace (fst result)) = [] /\
  exists bus', snd result = Normal bus' /\ hid <$> handlers_of "ping" bus' = [2%nat].
Proof.
  repeat split; try (vm_compute; reflexivity).
  eexists. split; vm_compute; reflexivity.
Qed.

(* ===================================================================== *)
(** ** PluginStateManager                                                 *)
(* ===================================================================== *)

Section StateStoreFacts.
Context {codec : JSON}.
Import PluginStateManager.

Lemma saveState_ok pluginId state text e :
  JSON_stringify state = Normal text ->
  saveState pluginId state e
  = (set_storage (insert (key pluginId) (stored_text text)) e, Normal tt).
Proof.
  intros Hs. unfold saveState, try_catch, bind, liftC. by rewrite Hs.
Qed.

Lemma loadState_absent pluginId e :
  storage e !! key pluginId = None ->
  loadState pluginId e = (e, Normal JNull).
Proof.
  intros Hn. unfold loadState, try_catch, bind, getItem, gets. by rewrite Hn.
Qed.

Lemma loadState_present pluginId text e :
  storage e !! key pluginId = Some text -> text <> "" ->
  loadState pluginId e =
    match JSON_parse text with
    | Normal v => (e, Normal v)
    | Throw err =>
        (observe (ConsoleError ("Failed to load state for plugin " +:+ pluginId +:+ ":") err) e,
         Normal JNull)
    end.
Proof.
  intros Hs Hne. unfold loadState, try_catch, bind, getItem, gets.
  rewrite Hs. unfold truthy.
  apply String.eqb_neq in Hne. rewrite Hne. simpl.
  unfold liftC. by destruct (JSON_parse text).
Qed.

End StateStoreFacts.

(** C9: for every plugin id and every serializable state [s], [save]
    followed by [load] returns [s], and [clear] followed by [load] returns
    the absent marker [null]. *)
Theorem save_load_clear_roundtrip {codec : JSON} (pluginId : string) (s : JsVal) (e : Env) :
  serializable s ->
  snd (PluginStateManager.loadState pluginId
         (fst (PluginStateManager.saveState pluginId s e))) = Normal s /\
  snd (PluginStateManager.loadState pluginId
         (fst (PluginStateManager.clearState pluginId e))) = Normal JNull.
Proof.
  intros (text & Hstr & Hparse). split.
  - rewrite (saveState_ok _ _ _ _ Hstr). cbn [fst].
    rewrite (loadState_present pluginId text).
    + by rewrite Hparse.
    + simpl. apply lookup_insert_eq.
    + by apply (JSON_stringify_nonempty s).
  - rewrite loadState_absent; [done|].
    simpl. apply lookup_delete_eq.
Qed.

Lemma save_load_clear_roundtrip_witness :
  snd (PluginStateManager.loadState (codec := ScalarJSON.json) "counter"
         (fst (PluginStateManager.saveState (codec := ScalarJSON.json) "counter" (JNum 5)
                 Samples.env0))) = Normal (JNum 5) /\
  snd (PluginStateManager.loadState (codec := ScalarJSON.json) "counter"
         (fst (PluginStateManager.clearState "counter" Samples.env0))) = Normal JNull.
Proof.
  apply (save_load_clear_roundtrip (codec := ScalarJSON.json) "counter" (JNum 5) Samples.env0).
  exists "5". split; vm_compute; reflexivity.
Defined.

(** C8 (what the code does): when [JSON.stringify] throws, [saveState]
    writes the error to the console and returns normally; nothing is
    stored and the caller is not told. *)
Theorem saveState_swallows_serialization_error {codec : JSON}
    (pluginId : string) (state : JsVal) (err : Thrown) (e : Env) :
  JSON_stringify state = Throw err ->
  PluginStateManager.saveState pluginId state e
  = (observe (ConsoleError ("Failed to save state for plugin " +:+ pluginId +:+ ":") err) e,
     Normal tt).
Proof.
  intros Hs. unfold PluginStateManager.saveState, try_catch, bind, liftC.
  by rewrite Hs.
Qed.

Lemma saveState_swallows_serialization_error_witness :
  PluginStateManager.saveState (codec := ScalarJSON.json) "counter" (JBigInt 10) Samples.env0
  = (mkEnv ∅ [ConsoleError "Failed to save state for plugin counter:"
                (ErrorObj "TypeError" "Do not know how to serialize a BigInt")],
     Normal tt).
Proof.
  apply (saveState_swallows_serialization_error (codec := ScalarJSON.json)
           "counter" (JBigInt 10)
           (ErrorObj "TypeError" "Do not know how to serialize a BigInt") Samples.env0).
  reflexivity.
Defined.

(* ===================================================================== *)
(** ** PluginManager: rendering under error boundaries                    *)
(* ===================================================================== *)

Section RenderFacts.

Lemma slot_spec plugin e :
  PluginManager.slot plugin e
  = (mkEnv (storage e) (trace e ++ boundary_log [plugin]), Normal (slot_view plugin)).
Proof.
  unfold PluginManager.slot, slot_view, boundary_log, ErrorBoundary.mount, bind.
  simpl. destruct (component plugin []) as [el|err]; simpl.
  - rewrite app_nil_r. by destruct e.
  - reflexivity.
Qed.

Lemma mapM_slot_spec ps : forall e,
  mapM PluginManager.slot ps e
  = (mkEnv (storage e) (trace e ++ boundary_log ps), Normal (slot_view <$> ps)).
Proof.
  induction ps as [|p ps IH]; intros e.
  - simpl. unfold ret. rewrite app_nil_r. by destruct e.
  - simpl. unfold bind at 1. rewrite slot_spec.
    unfold bind at 1. rewrite IH. simpl.
    rewrite <- app_assoc. do 3 f_equal.
    unfold boundary_log. simpl. by destruct (component p []).
Qed.

Lemma render_spec st e :
  error st = None ->
  PluginManager.render st e
  = (mkEnv (storage e) (trace e ++ boundary_log (plugins st)),
     Normal (Div None "plugin-manager" (slot_view <$> plugins st))).
Proof.
  intros Hno. unfold PluginManager.render. rewrite Hno.
  unfold bind. by rewrite mapM_slot_spec.
Qed.

End RenderFacts.

(** C2: in a zone that holds [X] and [Y], where the component of [X]
    throws when it mounts and the component of [Y] does not, rendering the
    zone gives one slot per plugin, in order; the slot of [X] shows the
    failure placeholder (the yellow box that reads "Something went wrong
    with this plugin.") and the slot of [Y] shows what [Y] rendered (a slot
    shows what its component rendered whenever the component returns); the
    failure is written to the console; and rendering leaves the
    subscriptions on the bus and the stored states exactly as they were. *)
Theorem zone_render_isolates_failure
    (w : World) (X Y : Plugin) (errX : Thrown) (elY : Element) :
  error (ui w) = None ->
  X ∈ plugins (ui w) ->
  Y ∈ plugins (ui w) ->
  component X [] = Throw errX ->
  component Y [] = Normal elY ->
  snd (PluginManager.renderZone w)
    = Normal (Div None "plugin-manager" (slot_view <$> plugins (ui w))) /\
  slot_view X
    = Div (Some (id X)) "plugin-wrapper mb-4"
        [Div None "p-4 bg-yellow-100 text-yellow-700 rounded"
           [Text "Something went wrong with this plugin."]] /\
  slot_view Y = Div (Some (id Y)) "plugin-wrapper mb-4" [elY] /\
  (forall p el, component p [] = Normal el ->
     slot_view p = Div (Some (id p)) "plugin-wrapper mb-4" [el]) /\
  ("Plugin Error:", errX)
    ∈ console_errors (trace (env (fst (PluginManager.renderZone w)))) /\
  pluginEventBus (fst (PluginManager.renderZone w)) = pluginEventBus w /\
  storage (env (fst (PluginManager.renderZone w))) = storage (env w) /\
  ui (fst (PluginManager.renderZone w)) = ui w.
Proof.
  intros Hno HX HY HcX HcY.
  unfold PluginManager.renderZone, in_env.
  rewrite (render_spec _ _ Hno). cbn [fst snd env ui pluginEventBus storage trace].
  repeat split.
  - unfold slot_view. by rewrite HcX.
  - unfold slot_view. by rewrite HcY.
  - intros p el Hp. unfold slot_view. by rewrite Hp.
  - unfold console_errors. apply list_elem_of_omap.
    exists (ConsoleError "Plugin Error:" errX). split; [|done].
    apply elem_of_app. right. unfold boundary_log.
    apply list_elem_of_omap. exists X. split; [done|]. by rewrite HcX.
Qed.

Lemma zone_render_isolates_failure_witness :
  snd (PluginManager.renderZone Samples.world_XY)
    = Normal (Div None "plugin-manager"
                [Div (Some "X") "plugin-wrapper mb-4"
                   [Div None "p-4 bg-yellow-100 text-yellow-700 rounded"
                      [Text "Something went wrong with this plugin."]];
                 Div (Some "Y") "plugin-wrapper mb-4" [Text "y"]]) /\
  pluginEventBus (fst (PluginManager.renderZone Samples.world_XY))
    = pluginEventBus Samples.world_XY /\
  storage (env (fst (PluginManager.renderZone Samples.world_XY)))
    = storage (env Samples.world_XY).
Proof.
  destruct (zone_render_isolates_failure Samples.world_XY
              Samples.X Samples.Y (ErrorObj "Error" "boom") (Text "y"))
    as (Hr & _ & _ & _ & _ & Hbus & Hst & _).
  - reflexivity.
  - simpl. set_solver.
  - simpl. set_solver.
  - reflexivity.
  - reflexivity.
  - exact (conj Hr (conj Hbus Hst)).
Defined.

(* ===================================================================== *)
(** ** PluginManager: from Loading to Ready                               *)
(* ===================================================================== *)

Section LoadingFacts.
Context {codec : JSON} {stack : CallStack}.
Import PluginEventBus.

Lemma bus_publish_spec event data reg events st tr m :
  bus_publish event data (mkWorld reg events (mkEnv st tr) m)
  = (mkWorld reg (d_events (fst (delivery event data events st)))
       (mkEnv (storage (d_env (fst (delivery event data events st))))
              (tr ++ Published event data
                  :: trace (d_env (fst (delivery event data events st))))) m,
     Normal tt).
Proof.
  unfold bus_publish. cbn [pluginEventBus env pluginRegistry ui].
  by rewrite publish_spec.
Qed.

(** The loop of [loadPlugins]: the registry and the manager's cells stay
    as they are; the trace grows by the restore publications and their
    deliveries, and by no hook call. *)
Lemma forEach_restore ps : forall reg events st tr m,
  exists T events' st',
    forEach PluginManager.restore ps (mkWorld reg events (mkEnv st tr) m)
    = (mkWorld reg events' (mkEnv st' (tr ++ T)) m,
       match snd (restorations events st ps) with
       | None => Normal tt
       | Some err => Throw err
       end) /\
    publications T = fst (restorations events st ps) /\
    hook_calls T = [] /\
    (secluded events -> events' = events).
Proof.
  induction ps as [|p ps IH]; intros reg events st tr m.
  - exists [], events, st. simpl. by rewrite app_nil_r.
  - simpl. unfold bind at 1. unfold PluginManager.restore at 1.
    unfold bind at 1. unfold in_env, getItem, gets. simpl.
    destruct (st !! PluginManager.key (id p)) as [s|] eqn:Hs.
    + destruct (truthy s) eqn:Ht.
      * unfold bind at 1, liftC.
        destruct (JSON_parse s) as [data|err] eqn:Hp.
        -- rewrite bus_publish_spec.
           set (D := fst (delivery (id p +:+ ":restore") data events st)).
           destruct (IH reg (d_events D) (storage (d_env D))
                       (tr ++ Published (id p +:+ ":restore") data :: trace (d_env D))%list m)
             as (T & events' & st' & Hrun & Hpub & Hhook & Hsame).
           exists (Published (id p +:+ ":restore") data :: trace (d_env D) ++ T)%list,
             events', st'.
           rewrite Hrun.
           destruct (restorations (d_events D) _ ps) as [evs stop]. cbn [fst snd] in *.
           split; [by rewrite <- app_assoc|].
           change (Published (id p +:+ ":restore") data :: trace (d_env D) ++ T)%list
             with ([Published (id p +:+ ":restore") data] ++ trace (d_env D) ++ T)%list.
           split; [|split].
           ++ unfold publications in *. rewrite !omap_app.
              subst D. rewrite delivery_silent by done. cbn. by rewrite Hpub.
           ++ unfold hook_calls in *. rewrite !omap_app.
              subst D. rewrite delivery_silent by done. cbn. by rewrite Hhook.
           ++ intros Hsec.
              assert (HD : d_events D = events).
              { subst D. unfold delivery.
                by destruct (deliver_secluded (fun _ : Obs => @None unit) frames
                               (id p +:+ ":restore") data
                               (mkDelivering events [] (mkEnv st [])) Hsec) as [-> _]. }
              rewrite HD in Hsame. by apply Hsame.
        -- exists [], events, st. simpl. by rewrite app_nil_r.
      * unfold ret. apply IH.
    + unfold ret. apply IH.
Qed.

Lemma loadPlugins_spec sec reg events st tr m :
  exists T events' st',
    PluginManager.loadPlugins sec (mkWorld reg events (mkEnv st tr) m)
    = (mkWorld reg events' (mkEnv st' (tr ++ T))
         (mkManagerState (PluginRegistry.getPluginsBySection sec reg)
            match snd (restorations events st (PluginRegistry.getPluginsBySection sec reg)) with
            | None => error m
            | Some err => Some (message_or "Failed to load plugins" err)
            end),
       Normal tt) /\
    publications T
      = fst (restorations events st (PluginRegistry.getPluginsBySection sec reg)) /\
    hook_calls T = [] /\
    (secluded events -> events' = events).
Proof.
  unfold PluginManager.loadPlugins, try_catch, bind, gets, setPlugins, modify. simpl.
  destruct (forEach_restore (PluginRegistry.getPluginsBySection sec reg) reg events st tr
              (mkManagerState (PluginRegistry.getPluginsBySection sec reg) (error m)))
    as (T & events' & st' & Hrun & Hpub & Hhook & Hsame).
  exists T, events', st'. rewrite Hrun.
  destruct (snd (restorations events st _)) as [err|]; simpl; by repeat split.
Qed.

End LoadingFacts.

(** The manager's effect calls no lifecycle hook. *)
Lemma effect_calls_no_hook {codec : JSON} {stack : CallStack}
    (w : World) (sec : string) (fresh : nat) :
  hook_calls (trace (env (fst (PluginManager.effect sec fresh w))))
  = hook_calls (trace (env w)).
Proof.
  destruct w as [reg events [st tr] m].
  destruct (loadPlugins_spec sec reg events st tr m)
    as (T & events' & st' & Hrun & _ & Hhook & _).
  unfold PluginManager.effect, bind. rewrite Hrun. simpl.
  unfold hook_calls in *. rewrite omap_app, Hhook. apply app_nil_r.
Qed.

(** C6 (as amended): when the manager of a zone goes from Loading to
    Ready it takes the descriptors of the zone from the registry, in
    order, and for each one reads the text saved for its id; a text that
    is present (non-empty) and parses is published as "<id>:restore" with
    the parsed state; a text that does not parse ends the restoration
    there and sets the manager's error message. *)
Theorem loading_restores_saved_states {codec : JSON} {stack : CallStack}
    (w : World) (sec : string) (fresh : nat) :
  let zone := PluginRegistry.getPluginsBySection sec (pluginRegistry w) in
  let planned := restorations (pluginEventBus w) (storage (env w)) zone in
  let w' := fst (PluginManager.effect sec fresh w) in
  threw (snd (PluginManager.effect sec fresh w)) = false /\
  publications (trace (env w'))
    = (publications (trace (env w)) ++ fst planned)%list /\
  error (ui w')
    = match snd planned with
      | None => error (ui w)
      | Some err => Some (message_or "Failed to load plugins" err)
      end /\
  plugins (ui w') = zone.
Proof.
  destruct w as [reg events [st tr] m]. cbv zeta.
  cbn [pluginRegistry pluginEventBus env storage trace ui].
  destruct (loadPlugins_spec sec reg events st tr m)
    as (T & events' & st' & Hrun & Hpub & _ & _).
  unfold PluginManager.effect, bind. rewrite Hrun. simpl.
  repeat split.
  unfold publications in *. by rewrite omap_app, Hpub.
Qed.

(** C6, counterexample. The sidebar holds [Z] and [Y]. (1) The text saved
    for [Z] is not JSON: the state saved for [Y], the next descriptor, is
    present but "Y:restore" is not published; the restoration has ended
    with the manager's error set. (2) [Z] supplies [onMount] and has the
    saved text "5": going to Ready publishes "Z:restore" with 5 and calls
    the subscribed handler, but [onMount] is not called (no hook call is
    seen and the storage lacks what the hook would write), whereas the
    transition in the words of the specification calls it. *)
Lemma loading_to_ready_diverges :
  let wc := fst (PluginManager.effect (codec := ScalarJSON.json) (stack := Samples.stack) "sidebar" 9
                   Samples.world_corrupt) in
  let w' := fst (PluginManager.effect (codec := ScalarJSON.json) (stack := Samples.stack) "sidebar" 9 Samples.world0) in
  id <$> plugins (ui wc) = ["Z"; "Y"] /\
  storage (env Samples.world_corrupt) !! PluginManager.key "Y" = Some "7" /\
  publications (trace (env wc)) = [] /\
  is_Some (error (ui wc)) /\
  id <$> plugins (ui w') = ["Z"; "Y"] /\
  supplies_onMount Samples.Z_mounting = true /\
  trace (env w') = [Published "Z:restore" (JNum 5); Invoked 1 (JNum 5)] /\
  hook_calls (trace (env w')) = [] /\
  storage (env w') !! "Z_mounted" = None /\
  hook_calls (trace (env (fst (spec_loading_to_ready (codec := ScalarJSON.json)
                                 (stack := Samples.stack) "sidebar" Samples.world0))))
    = [("Z", OnMount)].
Proof. repeat split; try (vm_compute; reflexivity). by eexists. Qed.

(* ===================================================================== *)
(** ** The keys of the persisted states                                   *)
(* ===================================================================== *)

(** C7 (what the code does): the State Store keeps the state of
    "counter" under "plugin_counter_state", the manager under
    "plugin_state_counter". A state the manager saves on
    "plugin:stateChange" is not found by the Store's [loadState], and a
    state saved with the Store's [saveState] is not restored by the
    manager; and the manager's key of plugin "x_state" is the Store's key
    of plugin "state_x". *)
Theorem manager_and_store_keys_disagree :
  let w1 := fst (PluginManager.effect (codec := ScalarJSON.json) (stack := Samples.stack) "content" 9 Samples.world0) in
  let w2 := fst (bus_publish (stack := Samples.stack) "plugin:stateChange"
                   Samples.counter_changed w1) in
  let e3 := fst (PluginStateManager.saveState (codec := ScalarJSON.json) "counter" (JNum 5)
                   (env Samples.world0)) in
  let w4 := fst (PluginManager.effect (codec := ScalarJSON.json) (stack := Samples.stack) "content" 9
                   (mkWorld (pluginRegistry Samples.world0) (pluginEventBus Samples.world0)
                            e3 (ui Samples.world0))) in
  PluginStateManager.key "counter" = "plugin_counter_state" /\
  PluginManager.key "counter" = "plugin_state_counter" /\
  PluginManager.key "x_state" = PluginStateManager.key "state_x" /\
  storage (env w2) !! "plugin_state_counter" = Some "5" /\
  storage (env w2) !! "plugin_counter_state" = None /\
  snd (PluginStateManager.loadState (codec := ScalarJSON.json) "counter" (env w2))
    = Normal JNull /\
  storage e3 !! "plugin_counter_state" = Some "5" /\
  id <$> plugins (ui w4) = ["counter"] /\
  publications (trace (env w4)) = [].
Proof. repeat split; vm_compute; reflexivity. Qed.

(* ===================================================================== *)
(** ** lazyLoadPlugin                                                     *)
(* ===================================================================== *)

Section LoaderFacts.
Import LazyLoader.

Lemma resume_spec pluginId s e :
  resume pluginId s e
  = match s with
    | Fulfilled m => (e, Normal (default m))
    | Rejected reason =>
        (observe (ConsoleError ("Failed to load plugin " +:+ pluginId +:+ ":") reason) e,
         Throw reason)
    end.
Proof. by destruct s. Qed.

Lemma snd_resume pluginId s e : snd (resume pluginId s e) = handed s.
Proof. rewrite resume_spec. by destruct s. Qed.

Lemma fetches_lazyLoadPlugin caller pluginId l :
  fetches pluginId (lazyLoadPlugin caller pluginId l) = S (fetches pluginId l).
Proof.
  unfold fetches, lazyLoadPlugin. simpl.
  rewrite List.filter_app, length_app. simpl.
  rewrite String.eqb_refl. simpl. lia.
Qed.

Lemma fetches_concurrent pluginId cs : forall l,
  fetches pluginId (concurrent pluginId cs l)
  = (fetches pluginId l + length cs)%nat.
Proof.
  induction cs as [|c cs IH]; intros l; simpl.
  - lia.
  - unfold concurrent in *. rewrite IH, fetches_lazyLoadPlugin. lia.
Qed.

(** The settling of a promise written out: the calls that wait for it
    leave the list of the waiting, each receives what [handed] makes of the
    settlement, and a rejection is written to the console once per call. *)
Lemma wake_spec req s ws : forall done e,
  wake req s ws done e
  = (List.filter (fun w => negb (Nat.eqb (w_request w) req)) ws,
     (done ++ ((fun w => (w_caller w, handed s))
                 <$> List.filter (fun w => Nat.eqb (w_request w) req) ws))%list,
     mkEnv (storage e)
       (trace e ++ rejections s (List.filter (fun w => Nat.eqb (w_request w) req) ws))).
Proof.
  induction ws as [|w ws IH]; intros done e; simpl.
  - unfold rejections. destruct s; simpl; rewrite !app_nil_r; by destruct e.
  - destruct (Nat.eqb (w_request w) req) eqn:E; simpl.
    + rewrite resume_spec. destruct s as [m|reason]; simpl.
      * rewrite IH. simpl. by rewrite <- app_assoc.
      * rewrite IH. unfold rejections. cbn. by rewrite <- !app_assoc.
    + by rewrite IH.
Qed.

Lemma issued_app a b : issued (a ++ b) = (issued a ++ issued b)%list.
Proof. apply omap_app. Qed.

Lemma settled_app a b : settled (a ++ b) = (settled a ++ settled b)%list.
Proof. apply omap_app. Qed.

Lemma settlement_app req a b :
  settlement req (a ++ b)
  = match settlement req a with
    | Some s => Some s
    | None => settlement req b
    end.
Proof.
  unfold settlement. rewrite omap_app.
  by destruct (omap _ a).
Qed.

Lemma settlement_settled req sch s :
  settlement req sch = Some s -> req ∈ settled sch.
Proof.
  unfold settlement, settled. induction sch as [|[c p|r s'] sch IH]; simpl; [done|done|].
  destruct (Nat.eqb r req) eqn:E; simpl.
  - apply Nat.eqb_eq in E. subst. intros _. apply elem_of_cons. by left.
  - intros Hs. apply elem_of_cons. right. by apply IH.
Qed.

Lemma settlement_None req sch :
  req ∉ settled sch -> settlement req sch = None.
Proof.
  intros Hn. destruct (settlement req sch) eqn:E; [|done].
  by apply settlement_settled in E.
Qed.

Lemma timely_app n a b :
  timely n (a ++ b) = timely n a && timely (n + length (issued a)) b.
Proof.
  revert n. induction a as [|[c p|r s] a IH]; intros n; simpl.
  - by rewrite Nat.add_0_r.
  - rewrite IH. unfold issued. simpl. do 2 f_equal. lia.
  - rewrite IH. by rewrite andb_assoc.
Qed.

Lemma timely_settled n sch r :
  timely n sch = true -> r ∈ settled sch -> (r < n + length (issued sch))%nat.
Proof.
  revert n. induction sch as [|[c p|r' s] sch IH]; intros n Ht Hr; simpl in *.
  - by apply not_elem_of_nil in Hr.
  - unfold issued, settled in *. simpl in *. specialize (IH _ Ht Hr). lia.
  - apply andb_true_iff in Ht as [Hlt Ht]. apply Nat.ltb_lt in Hlt.
    unfold issued, settled in *. simpl in *.
    apply elem_of_cons in Hr as [->|Hr]; [lia|]. by apply IH.
Qed.

Lemma orderly_snoc sch t :
  orderly (sch ++ [t]) ->
  orderly sch /\
  match t with
  | Calls c _ => c ∉ (fst <$> issued sch)
  | Settles r _ => (r ∉ settled sch) /\ (r < length (issued sch))%nat
  end.
Proof.
  intros (Hc & Hs & Ht). rewrite issued_app in Hc. rewrite settled_app in Hs.
  rewrite timely_app in Ht. apply andb_true_iff in Ht as [Ht1 Ht2].
  rewrite fmap_app in Hc. apply NoDup_app in Hc as (Hc1 & Hc2 & _).
  apply NoDup_app in Hs as (Hs1 & Hs2 & _).
  split; [done|]. destruct t as [c p|r s]; simpl in *.
  - intros Hin. apply (Hc2 _ Hin). unfold issued. simpl. apply elem_of_cons. by left.
  - split.
    + intros Hin. apply (Hs2 _ Hin). unfold settled. simpl. apply elem_of_cons. by left.
    + apply andb_true_iff in Ht2 as [Hlt _]. by apply Nat.ltb_lt in Hlt.
Qed.

Lemma play_snoc sch t : play (sch ++ [t]) = turn (play sch) t.
Proof. unfold play. by rewrite fold_left_app. Qed.

Lemma outcome_of_absent c (done : list (nat * Completion Component)) :
  c ∉ (fst <$> done) -> List.find (fun p => Nat.eqb (fst p) c) done = None.
Proof.
  induction done as [|[c' r] done IH]; intros Hn; simpl; [done|].
  destruct (Nat.eqb c' c) eqn:E.
  - apply Nat.eqb_eq in E. subst. exfalso. apply Hn. rewrite fmap_cons.
    apply elem_of_cons. by left.
  - apply IH. intros Hin. apply Hn. rewrite fmap_cons. apply elem_of_cons. by right.
Qed.

Lemma issued_callers_differ sch r1 r2 c1 c2 p1 p2 :
  NoDup (fst <$> issued sch) ->
  issued sch !! r1 = Some (c1, p1) -> issued sch !! r2 = Some (c2, p2) ->
  r1 <> r2 -> c1 <> c2.
Proof.
  intros Hnd H1 H2 Hne Heq. subst c2. apply Hne.
  eapply (NoDup_lookup _ _ _ c1 Hnd); rewrite list_lookup_fmap.
  - by rewrite H1.
  - by rewrite H2.
Qed.

Lemma play_kept sch : orderly sch -> Kept sch (play sch).
Proof.
  induction sch as [|t sch IH] using rev_ind; intros Hord.
  - split; simpl; try done.
    intros w Hw. by apply not_elem_of_nil in Hw.
  - destruct (orderly_snoc _ _ Hord) as [Hord' Ht].
    destruct (IH Hord') as [Hi Hw Hp Hd Hc].
    destruct Hord as (Hnd & _ & _).
    destruct Hord' as (_ & _ & Htimely).
    rewrite play_snoc. destruct t as [c p|r s]; simpl.
    + (* a call *)
      assert (Hlen : length (imports (play sch)) = length (issued sch))
        by (by rewrite Hi, length_fmap).
      assert (Hiss : issued (sch ++ [Calls c p]) = (issued sch ++ [(c, p)])%list)
        by (by rewrite issued_app).
      assert (Hset : forall req, settlement req (sch ++ [Calls c p]) = settlement req sch).
      { intros req. rewrite settlement_app. by destruct (settlement req sch). }
      split; simpl.
      * rewrite Hiss, fmap_app, Hi. done.
      * intros w Hin. rewrite Hiss. apply elem_of_app in Hin as [Hin|Hin].
        -- apply lookup_app_l_Some. by apply Hw.
        -- apply list_elem_of_singleton in Hin. subst w. simpl.
           rewrite Hlen. by rewrite list_lookup_middle.
      * intros req c' p' Hl Hs. rewrite Hset in Hs. rewrite Hiss in Hl.
        destruct (decide (req < length (issued sch))%nat) as [Hlt|Hge].
        -- rewrite lookup_app_l in Hl by done.
           destruct (Hp _ _ _ Hl Hs) as [H1 H2]. split; [|done].
           apply elem_of_app. by left.
        -- rewrite lookup_app_r in Hl by lia.
           destruct (req - length (issued sch))%nat as [|n] eqn:En; [|done].
           simpl in Hl. injection Hl as <- <-.
           assert (req = length (issued sch)) by lia. subst req.
           split.
           ++ apply elem_of_app. right. rewrite Hlen. by apply list_elem_of_singleton.
           ++ intros Hin. apply Ht. by apply Hc.
      * intros req c' p' s Hl Hs. rewrite Hset in Hs. rewrite Hiss in Hl.
        assert (Hlt : (req < length (issued sch))%nat).
        { apply settlement_settled in Hs.
          by apply (timely_settled 0 sch req Htimely). }
        rewrite lookup_app_l in Hl by done. by apply (Hd _ _ _ _ Hl Hs).
      * intros c' Hin. rewrite Hiss, fmap_app. apply elem_of_app. left. by apply Hc.
    + (* a promise settles *)
      destruct Ht as [Hfresh Hlt].
      assert (Hiss : issued (sch ++ [Settles r s]) = issued sch).
      { rewrite issued_app. unfold issued at 2. simpl. apply app_nil_r. }
      rewrite Hiss in *.
      assert (Hset : forall req,
                settlement req (sch ++ [Settles r s])
                = if decide (req = r) then Some s else settlement req sch).
      { intros req. rewrite settlement_app. destruct (decide (req = r)) as [->|Hne].
        - rewrite (settlement_None _ _ Hfresh). unfold settlement. simpl.
          by rewrite Nat.eqb_refl.
        - destruct (settlement req sch); [done|]. unfold settlement. simpl.
          apply Nat.eqb_neq in Hne. rewrite Nat.eqb_sym. by rewrite Hne. }
      destruct (lookup_lt_is_Some_2 _ _ Hlt) as [[c p] Hcp].
      destruct (Hp _ _ _ Hcp (settlement_None _ _ Hfresh)) as [Hwait Hnew].
      unfold settle. rewrite wake_spec.
      set (woken := List.filter (fun w => Nat.eqb (w_request w) r) (waiting (play sch))).
      assert (Hwoken : forall w, w ∈ woken -> w = mkWaiting c p r).
      { intros w Hin. apply list_elem_of_In, filter_In in Hin as [Hin Hr].
        apply list_elem_of_In in Hin. apply Nat.eqb_eq in Hr.
        specialize (Hw _ Hin). rewrite Hr, Hcp in Hw. injection Hw as -> ->.
        destruct w. simpl in *. by subst. }
      assert (Hmine : mkWaiting c p r ∈ woken).
      { apply list_elem_of_In, filter_In. split; [by apply list_elem_of_In|].
        simpl. apply Nat.eqb_refl. }
      assert (Hcallers : forall c',
                c' ∈ (fst <$> ((fun w => (w_caller w, handed s)) <$> woken)) -> c' = c).
      { intros c' Hin. apply list_elem_of_fmap in Hin as ([c'' o] & -> & Hin).
        apply list_elem_of_fmap in Hin as (w & [= -> ->] & Hin).
        by rewrite (Hwoken _ Hin). }
      split; simpl; rewrite ?Hiss.
      * exact Hi.
      * intros w Hin. apply list_elem_of_In, filter_In in Hin as [Hin _].
        apply Hw. by apply list_elem_of_In.
      * intros req c' p' Hl Hs. rewrite Hset in Hs.
        destruct (decide (req = r)) as [->|Hne]; [done|].
        destruct (Hp _ _ _ Hl Hs) as [H1 H2]. split.
        -- apply list_elem_of_In, filter_In. split; [by apply list_elem_of_In|].
           simpl. apply negb_true_iff. by apply Nat.eqb_neq.
        -- rewrite fmap_app. intros Hin. apply elem_of_app in Hin as [Hin|Hin]; [done|].
           apply Hcallers in Hin.
           by apply (issued_callers_differ sch req r c' c p' p Hnd Hl Hcp Hne).
      * intros req c' p' s' Hl Hs. rewrite Hset in Hs.
        destruct (decide (req = r)) as [->|Hne].
        -- injection Hs as <-. rewrite Hcp in Hl. injection Hl as <- <-.
           split.
           ++ unfold outcome_of. simpl.
              rewrite (find_app_r _ _ _ (outcome_of_absent _ _ Hnew)).
              destruct woken as [|w woken']; [by apply not_elem_of_nil in Hmine|].
              rewrite (Hwoken w ltac:(apply elem_of_cons; by left)). simpl. by rewrite Nat.eqb_refl.
           ++ intros reason ->. apply elem_of_app. right. unfold rejections.
              apply list_elem_of_fmap. by exists (mkWaiting c p r).
        -- destruct (Hd _ _ _ _ Hl Hs) as [H1 H2]. split.
           ++ unfold outcome_of in *. simpl.
              destruct (List.find _ (outcomes (play sch))) as [entry|] eqn:Hf; [|done].
              by rewrite (find_app_l _ _ _ _ Hf).
           ++ intros reason Hr. apply elem_of_app. left. by apply H2.
      * intros c' Hin. rewrite fmap_app in Hin. apply elem_of_app in Hin as [Hin|Hin].
        -- by apply Hc.
        -- apply Hcallers in Hin. subst c'. apply list_elem_of_fmap.
           exists (c, p). split; [done|]. by eapply list_elem_of_lookup_2.
Qed.

End LoaderFacts.

(** C10 (as amended): every [resolve(id)] hands its own request to the
    module mechanism, so the calls made while the id is unresolved issue as
    many requests as there are calls, one per call and in the order of the
    calls. Whatever the order in which calls arrive and promises settle,
    each caller receives the outcome of its own request: nothing while its
    promise is pending, then the default export, or the reason, which is
    written to the console and rethrown. So callers whose requests settle
    alike receive the same outcome. *)
Theorem each_resolve_issues_its_own_import
    (pluginId : string) (callers : list nat) (l : LazyLoader.Loader)
    (schedule : list LazyLoader.Turn) :
  LazyLoader.orderly schedule ->
  let final := LazyLoader.play schedule in
  LazyLoader.fetches pluginId (LazyLoader.concurrent pluginId callers l)
    = (LazyLoader.fetches pluginId l + length callers)%nat /\
  LazyLoader.imports final
    = (fun call => LazyLoader.specifier (snd call)) <$> LazyLoader.issued schedule /\
  (forall req caller plugin,
     LazyLoader.issued schedule !! req = Some (caller, plugin) ->
     LazyLoader.outcome_of caller final
       = LazyLoader.handed <$> LazyLoader.settlement req schedule /\
     (forall reason,
        LazyLoader.settlement req schedule = Some (LazyLoader.Rejected reason) ->
        ("Failed to load plugin " +:+ plugin +:+ ":", reason)
          ∈ console_errors (trace (LazyLoader.lenv final)))) /\
  (forall req1 caller1 plugin1 req2 caller2 plugin2,
     LazyLoader.issued schedule !! req1 = Some (caller1, plugin1) ->
     LazyLoader.issued schedule !! req2 = Some (caller2, plugin2) ->
     LazyLoader.settlement req1 schedule = LazyLoader.settlement req2 schedule ->
     LazyLoader.outcome_of caller1 final = LazyLoader.outcome_of caller2 final).
Proof.
  intros Hord. cbv zeta. destruct (play_kept schedule Hord) as [Hi _ Hp Hd _].
  assert (Hout : forall req caller plugin,
            LazyLoader.issued schedule !! req = Some (caller, plugin) ->
            LazyLoader.outcome_of caller (LazyLoader.play schedule)
            = LazyLoader.handed <$> LazyLoader.settlement req schedule).
  { intros req caller plugin Hl.
    destruct (LazyLoader.settlement req schedule) as [s|] eqn:Hs.
    - by destruct (Hd _ _ _ _ Hl Hs).
    - destruct (Hp _ _ _ Hl Hs) as [_ Hn]. unfold LazyLoader.outcome_of.
      by rewrite (outcome_of_absent _ _ Hn). }
  split; [apply fetches_concurrent|]. split; [exact Hi|]. split.
  - intros req caller plugin Hl. split; [by eapply Hout|].
    intros reason Hs. destruct (Hd _ _ _ _ Hl Hs) as [_ Hlog].
    unfold console_errors. apply list_elem_of_omap.
    exists (ConsoleError ("Failed to load plugin " +:+ plugin +:+ ":") reason).
    split; [by apply Hlog | done].
  - intros req1 c1 p1 req2 c2 p2 H1 H2 Heq.
    by rewrite (Hout _ _ _ H1), (Hout _ _ _ H2), Heq.
Qed.

Lemma each_resolve_issues_its_own_import_witness :
  let offline := LazyLoader.Rejected (ErrorObj "Error" "offline") in
  let final :=
    LazyLoader.play
      [LazyLoader.Calls 1 "todo"; LazyLoader.Calls 2 "todo";
       LazyLoader.Settles 1 offline; LazyLoader.Calls 3 "todo";
       LazyLoader.Settles 0 offline] in
  LazyLoader.fetches "todo"
    (LazyLoader.concurrent "todo" [1; 2; 3]%nat LazyLoader.start) = 3%nat /\
  LazyLoader.imports final = ["./plugins/todo"; "./plugins/todo"; "./plugins/todo"] /\
  LazyLoader.outcome_of 1 final = Some (Throw (ErrorObj "Error" "offline")) /\
  LazyLoader.outcome_of 2 final = Some (Throw (ErrorObj "Error" "offline")) /\
  LazyLoader.outcome_of 3 final = None /\
  ("Failed to load plugin todo:", ErrorObj "Error" "offline")
    ∈ console_errors (trace (LazyLoader.lenv final)).
Proof.
  destruct (each_resolve_issues_its_own_import "todo" [1; 2; 3]%nat LazyLoader.start
              [LazyLoader.Calls 1 "todo"; LazyLoader.Calls 2 "todo";
               LazyLoader.Settles 1 (LazyLoader.Rejected (ErrorObj "Error" "offline"));
               LazyLoader.Calls 3 "todo";
               LazyLoader.Settles 0 (LazyLoader.Rejected (ErrorObj "Error" "offline"))])
    as (Hn & Hi & Hout & _).
  - split; [|split]; [| |reflexivity]; apply (bool_decide_unpack _); vm_compute; reflexivity.
  - cbv zeta. split; [exact Hn|]. split; [by rewrite Hi|].
    destruct (Hout 0%nat 1%nat "todo" eq_refl) as [H1 Hlog].
    destruct (Hout 1%nat 2%nat "todo" eq_refl) as [H2 _].
    destruct (Hout 2%nat 3%nat "todo" eq_refl) as [H3 _].
    split; [by rewrite H1|]. split; [by rewrite H2|]. split; [by rewrite H3|].
    by apply Hlog.
Defined.

(** C10, counterexample: two callers resolve "todo" while it is
    unresolved; the module mechanism receives two requests for it, not
    one. *)
Lemma concurrent_resolves_fetch_twice :
  LazyLoader.imports (LazyLoader.concurrent "todo" [1; 2]%nat LazyLoader.start)
    = ["./plugins/todo"; "./plugins/todo"] /\
  LazyLoader.fetches "todo" (LazyLoader.concurrent "todo" [1; 2]%nat LazyLoader.start)
    = 2%nat /\
  LazyLoader.w_request <$>
    LazyLoader.waiting (LazyLoader.concurrent "todo" [1; 2]%nat LazyLoader.start)
    = [0; 1]%nat.
Proof. repeat split. Qed.

(* ===================================================================== *)
(** * Further properties of the code                                      *)
(* ===================================================================== *)

(** ** The registry over its histories *)

Section JsMapMore.
Context {V : Type}.
Implicit Types (m : list (string * V)) (k : string) (v : V).

Lemma JsMap_get_None_keys m k : JsMap.get k m = None <-> k ∉ JsMap.keys m.
Proof.
  induction m as [|[k' v'] m IH]; simpl.
  - split; [intros _; apply not_elem_of_nil | done].
  - destruct (String.eqb k k') eqn:E.
    + apply String.eqb_eq in E. subst. split; [done|].
      intros Hn. exfalso. apply Hn. apply elem_of_cons. by left.
    + apply String.eqb_neq in E. rewrite IH, not_elem_of_cons.
      split; [by intros ?; split | by intros [_ ?]].
Qed.

Lemma JsMap_keys_set_fresh m k v :
  JsMap.get k m = None -> JsMap.keys (JsMap.set k v m) = (JsMap.keys m ++ [k])%list.
Proof.
  intros Hn. rewrite (JsMap_set_fresh _ _ _ Hn). unfold JsMap.keys.
  by rewrite map_app.
Qed.

Lemma JsMap_set_NoDup m k v :
  NoDup (JsMap.keys m) -> NoDup (JsMap.keys (JsMap.set k v m)).
Proof.
  intros Hnd. destruct (JsMap.get k m) as [old|] eqn:Hg.
  - rewrite JsMap_keys_set_present; [done | by rewrite Hg].
  - rewrite (JsMap_keys_set_fresh _ _ _ Hg).
    apply NoDup_app. split; [done|]. split.
    + intros x Hx Hx'. apply list_elem_of_singleton in Hx'. subst.
      by apply JsMap_get_None_keys in Hg.
    + apply NoDup_singleton.
Qed.

Lemma JsMap_set_Forall (P : string * V -> Prop) m k v :
  Forall P m -> P (k, v) -> Forall P (JsMap.set k v m).
Proof.
  intros Hall Hkv. induction m as [|[k' v'] m IH]; simpl.
  - by constructor.
  - apply Forall_cons in Hall as [Hh Ht].
    destruct (String.eqb k k'); constructor; auto.
Qed.

Lemma JsMap_delete_absent m k : JsMap.get k m = None -> JsMap.delete k m = m.
Proof.
  induction m as [|[k' v'] m IH]; simpl; [done|].
  destruct (String.eqb k k'); [done|]. intros Hn. by rewrite IH.
Qed.

Lemma JsMap_get_delete_ne m k j :
  j <> k -> JsMap.get j (JsMap.delete k m) = JsMap.get j m.
Proof.
  intros Hne. induction m as [|[k' v'] m IH]; simpl; [done|].
  destruct (String.eqb k k') eqn:E; simpl.
  - apply String.eqb_eq in E. subst k'.
    destruct (String.eqb j k) eqn:E'; [|done].
    apply String.eqb_eq in E'. congruence.
  - by rewrite IH.
Qed.

Lemma JsMap_keys_delete_sub m k x :
  x ∈ JsMap.keys (JsMap.delete k m) -> x ∈ JsMap.keys m.
Proof.
  induction m as [|[k' v'] m IH]; simpl; [done|].
  destruct (String.eqb k k'); simpl.
  - intros Hx. apply elem_of_cons. by right.
  - intros Hx. apply elem_of_cons in Hx as [->|Hx]; apply elem_of_cons; auto.
Qed.

Lemma JsMap_delete_NoDup m k :
  NoDup (JsMap.keys m) -> NoDup (JsMap.keys (JsMap.delete k m)).
Proof.
  induction m as [|[k' v'] m IH]; simpl; [done|].
  intros Hnd. apply NoDup_cons in Hnd as [Hk' Hnd].
  destruct (String.eqb k k'); simpl; [done|].
  apply NoDup_cons. split; [|by apply IH].
  intros Hin. apply Hk'. by apply JsMap_keys_delete_sub in Hin.
Qed.

Lemma JsMap_get_delete_eq m k :
  NoDup (JsMap.keys m) -> JsMap.get k (JsMap.delete k m) = None.
Proof.
  induction m as [|[k' v'] m IH]; simpl; [done|].
  intros Hnd. apply NoDup_cons in Hnd as [Hk' Hnd].
  destruct (String.eqb k k') eqn:E; simpl.
  - apply String.eqb_eq in E. subst k'. by apply JsMap_get_None_keys.
  - rewrite E. by apply IH.
Qed.

Lemma JsMap_delete_Forall (P : string * V -> Prop) m k :
  Forall P m -> Forall P (JsMap.delete k m).
Proof.
  intros Hall. induction m as [|[k' v'] m IH]; simpl; [done|].
  apply Forall_cons in Hall as [Hh Ht].
  destruct (String.eqb k k'); [done|]. constructor; auto.
Qed.

Lemma JsMap_delete_app_fresh m k v :
  JsMap.get k m = None -> JsMap.delete k (m ++ [(k, v)])%list = m.
Proof.
  induction m as [|[k' v'] m IH]; simpl.
  - by rewrite String.eqb_refl.
  - destruct (String.eqb k k'); [done|]. intros Hn. by rewrite IH.
Qed.

End JsMapMore.

Section RegistryHistories.
Import PluginRegistry.

Lemma registry_ok_empty : registry_ok empty.
Proof. split; [apply NoDup_nil_2 | constructor]. Qed.

Lemma registry_ok_register plugin reg :
  registry_ok reg -> registry_ok (fst (register plugin reg)).
Proof.
  intros [Hnd Hall]. unfold register.
  destruct (bool_decide (section plugin ∈ sections)) eqn:Hs; simpl; [|done].
  apply bool_decide_eq_true_1 in Hs. split.
  - by apply JsMap_set_NoDup.
  - by apply JsMap_set_Forall.
Qed.

Lemma registry_ok_unregister pluginId reg :
  registry_ok reg -> registry_ok (fst (unregister pluginId reg)).
Proof.
  intros [Hnd Hall]. simpl. split.
  - by apply JsMap_delete_NoDup.
  - by apply JsMap_delete_Forall.
Qed.

Lemma registry_ok_calls calls : forall reg,
  registry_ok reg -> registry_ok (fold_left registry_call calls reg).
Proof.
  induction calls as [|c calls IH]; intros reg Hok; simpl; [done|].
  apply IH. destruct c; simpl.
  - by apply registry_ok_register.
  - by apply registry_ok_unregister.
Qed.

End RegistryHistories.

Lemma registry_after_ok (calls : list RegistryCall) :
  registry_ok (registry_after calls).
Proof. apply registry_ok_calls, registry_ok_empty. Qed.

(** X1: whatever calls of [register] and [unregister] have been made on
    the registry, with valid or invalid sections, new or known ids, it
    holds one entry per id; the lookup of an id answers a descriptor with
    that id and one of the four sections; and every descriptor that a
    section query answers is the one that the lookup of its id answers. *)
Theorem registry_keeps_invariant (calls : list RegistryCall) :
  NoDup (JsMap.keys (registry_after calls)) /\
  (forall pluginId plugin,
     PluginRegistry.getPlugin pluginId (registry_after calls) = Some plugin ->
     id plugin = pluginId /\ section plugin ∈ PluginRegistry.sections) /\
  (forall plugin sec,
     plugin ∈ PluginRegistry.getPluginsBySection sec (registry_after calls) ->
     PluginRegistry.getPlugin (id plugin) (registry_after calls) = Some plugin /\
     sec ∈ PluginRegistry.sections).
Proof.
  destruct (registry_ok_calls calls _ registry_ok_empty) as [Hnd Hall].
  fold (registry_after calls) in *.
  set (reg := registry_after calls) in *.
  assert (Hget : forall k v, (k, v) ∈ reg -> JsMap.get k reg = Some v).
  { clear Hall. induction reg as [|[k' v'] reg IH]; intros k v Hin.
    - by apply not_elem_of_nil in Hin.
    - simpl in Hnd. apply NoDup_cons in Hnd as [Hk' Hnd].
      apply elem_of_cons in Hin as [[= -> ->]|Hin]; simpl.
      + by rewrite String.eqb_refl.
      + destruct (String.eqb k k') eqn:E; [|by apply IH].
        apply String.eqb_eq in E. subst k'. exfalso. apply Hk'.
        apply list_elem_of_fmap. by exists (k, v). }
  assert (Hin : forall k v, JsMap.get k reg = Some v -> (k, v) ∈ reg).
  { clear. induction reg as [|[k' v'] reg IH]; intros k v; simpl; [done|].
    destruct (String.eqb k k') eqn:E.
    - apply String.eqb_eq in E. intros [= ->]. subst. apply elem_of_cons. by left.
    - intros Hg. apply elem_of_cons. right. by apply IH. }
  split; [done|]. split.
  - intros pluginId plugin Hg. apply Hin in Hg.
    destruct (proj1 (Forall_forall _ _) Hall _ Hg) as [Hk Hs]. by split.
  - intros plugin sec Hp. unfold PluginRegistry.getPluginsBySection in Hp.
    apply list_elem_of_In, filter_In in Hp as [Hv Hsec].
    apply String.eqb_eq in Hsec.
    apply in_map_iff in Hv as [[k v] [Hv Hkv]]. simpl in Hv. subst v.
    apply list_elem_of_In in Hkv.
    destruct (proj1 (Forall_forall _ _) Hall _ Hkv) as [Hk Hs].
    simpl in Hk, Hs. subst k sec. split; [|done].
    by apply Hget.
Qed.

Section RegistryQueries.
Import PluginRegistry.

Lemma find_over_app {A} (f : A -> bool) (l1 l2 : list A) :
  List.find f (l1 ++ l2)%list
  = match List.find f l1 with Some x => Some x | None => List.find f l2 end.
Proof.
  induction l1 as [|x l1 IH]; simpl; [done|]. by destruct (f x).
Qed.

Lemma registerAll_lookup ps : forall reg pluginId,
  Forall (fun p => section p ∈ sections) ps ->
  snd (registerAll ps reg) = Normal tt /\
  getPlugin pluginId (fst (registerAll ps reg))
  = match last_with_id pluginId ps with
    | Some p => Some p
    | None => getPlugin pluginId reg
    end.
Proof.
  induction ps as [|p ps IH]; intros reg pluginId Hsec.
  - by split.
  - apply Forall_cons in Hsec as [Hs Hsec].
    unfold registerAll in *. simpl. unfold bind.
    rewrite (register_valid _ _ Hs).
    destruct (IH (JsMap.set (id p) p reg) pluginId Hsec) as [Hok Hget].
    split; [done|]. rewrite Hget.
    unfold last_with_id. simpl. rewrite find_over_app.
    destruct (find _ (rev ps)) as [q|]; [done|]. simpl.
    unfold getPlugin. destruct (String.eqb (id p) pluginId) eqn:E.
    + apply String.eqb_eq in E. subst. apply JsMap_get_set_eq.
    + apply String.eqb_neq in E. by apply JsMap_get_set_ne.
Qed.

Lemma values_delete (reg : t) pluginId :
  registry_ok reg ->
  JsMap.values (JsMap.delete pluginId reg)
  = List.filter (fun p => negb (String.eqb (id p) pluginId)) (JsMap.values reg).
Proof.
  intros [Hnd Hall]. induction reg as [|[k v] reg IH]; simpl; [done|].
  simpl in Hnd. apply NoDup_cons in Hnd as [Hk Hnd].
  apply Forall_cons in Hall as [[Hkv _] Hall]. simpl in Hkv. subst k.
  destruct (String.eqb pluginId (id v)) eqn:E.
  - apply String.eqb_eq in E. subst pluginId.
    rewrite String.eqb_refl. simpl.
    symmetry. apply forallb_filter_id. apply forallb_forall.
    intros p Hp. apply negb_true_iff, String.eqb_neq. intros Heq.
    apply Hk. unfold JsMap.values in Hp. apply in_map_iff in Hp as [[k' p'] [Hp' Hin]].
    simpl in Hp'. subst p'.
    pose proof (proj1 (Forall_forall _ _) Hall (k', p)
                  (proj2 (list_elem_of_In _ _) Hin)) as [Hk' _].
    simpl in Hk'. subst k'. rewrite <- Heq.
    apply list_elem_of_fmap. exists (id p, p). split; [done|].
    by apply list_elem_of_In.
  - rewrite String.eqb_sym, E. simpl. f_equal. by apply IH.
Qed.

Lemma filter_filter_comm {A} (f g : A -> bool) (l : list A) :
  List.filter f (List.filter g l) = List.filter g (List.filter f l).
Proof.
  induction l as [|x l IH]; simpl; [done|].
  destruct (f x) eqn:Hf, (g x) eqn:Hg; simpl; rewrite ?Hf, ?Hg, IH; done.
Qed.

End RegistryQueries.

(** X2: when descriptors with valid sections are registered one after the
    other, every registration succeeds and the lookup of an id answers the
    last descriptor registered under it: of two descriptors that share an
    id only the later one is kept. *)
Theorem register_last_wins (ps : list Plugin) (pluginId : string) :
  Forall (fun p => section p ∈ PluginRegistry.sections) ps ->
  snd (PluginRegistry.registerAll ps PluginRegistry.empty) = Normal tt /\
  PluginRegistry.getPlugin pluginId
    (fst (PluginRegistry.registerAll ps PluginRegistry.empty))
  = last_with_id pluginId ps.
Proof.
  intros Hsec.
  destruct (registerAll_lookup ps PluginRegistry.empty pluginId Hsec) as [Hok Hget].
  split; [done|]. rewrite Hget. by destruct (last_with_id pluginId ps).
Qed.

Lemma register_last_wins_witness :
  name <$> PluginRegistry.getPlugin "todo-list"
             (fst (PluginRegistry.registerAll
                     [Fixtures.TodoPlugin; Samples.CounterPlugin; Fixtures.TodoListPlugin]
                     PluginRegistry.empty))
  = name <$> Some Fixtures.TodoListPlugin.
Proof.
  destruct (register_last_wins
              [Fixtures.TodoPlugin; Samples.CounterPlugin; Fixtures.TodoListPlugin]
              "todo-list") as [_ Hget].
  - apply (bool_decide_unpack _). vm_compute. reflexivity.
  - rewrite Hget. reflexivity.
Defined.

(** X3: on any registry the calls can have produced, [unregister(id)]
    makes the lookup of the id answer nothing, leaves the lookup of every
    other id as it was, and takes exactly the descriptor of that id out of
    every section query, the others keeping their order; for an id that is
    not registered the registry is unchanged, and the call never throws. *)
Theorem unregister_removes_exactly (calls : list RegistryCall) (pluginId : string) :
  let reg := registry_after calls in
  let reg' := fst (PluginRegistry.unregister pluginId reg) in
  snd (PluginRegistry.unregister pluginId reg) = Normal tt /\
  PluginRegistry.getPlugin pluginId reg' = None /\
  (forall other, other <> pluginId ->
     PluginRegistry.getPlugin other reg' = PluginRegistry.getPlugin other reg) /\
  (forall sec,
     PluginRegistry.getPluginsBySection sec reg'
     = List.filter (fun p => negb (String.eqb (id p) pluginId))
         (PluginRegistry.getPluginsBySection sec reg)) /\
  (PluginRegistry.getPlugin pluginId reg = None -> reg' = reg).
Proof.
  cbv zeta. pose proof (registry_after_ok calls) as Hok.
  set (reg := registry_after calls) in *. simpl.
  repeat split.
  - apply JsMap_get_delete_eq, Hok.
  - intros other Hne. by apply JsMap_get_delete_ne.
  - intros sec. unfold PluginRegistry.getPluginsBySection.
    rewrite (values_delete _ _ Hok). apply filter_filter_comm.
  - apply JsMap_delete_absent.
Qed.

(** X4: registering a descriptor with a valid section under an id that is
    not in the registry and then unregistering that id gives back the
    registry as it was, entry for entry. *)
Theorem register_then_unregister (plugin : Plugin) (reg : PluginRegistry.t) :
  PluginRegistry.getPlugin (id plugin) reg = None ->
  section plugin ∈ PluginRegistry.sections ->
  fst (PluginRegistry.unregister (id plugin)
         (fst (PluginRegistry.register plugin reg))) = reg.
Proof.
  intros Hfresh Hs. rewrite (register_valid _ _ Hs). simpl.
  unfold PluginRegistry.getPlugin in Hfresh.
  rewrite (JsMap_set_fresh _ _ _ Hfresh). by apply JsMap_delete_app_fresh.
Qed.

Lemma register_then_unregister_witness :
  fst (PluginRegistry.unregister "B"
         (fst (PluginRegistry.register Samples.B Samples.registry_with_A)))
  = Samples.registry_with_A.
Proof.
  apply (register_then_unregister Samples.B Samples.registry_with_A).
  - reflexivity.
  - apply (bool_decide_unpack _). vm_compute. reflexivity.
Defined.

(** ** The four sections *)

Section SectionFacts.

Lemma sections_cases (s : string) :
  s ∈ PluginRegistry.sections ->
  s = "header" \/ s = "sidebar" \/ s = "content" \/ s = "footer".
Proof.
  unfold PluginRegistry.sections. rewrite elem_of_list_to_set.
  rewrite !elem_of_cons. intros [?|[?|[?|[?|H]]]]; auto.
  by apply not_elem_of_nil in H.
Qed.

Lemma values_sections (reg : PluginRegistry.t) :
  registry_ok reg ->
  Forall (fun p => section p ∈ PluginRegistry.sections) (JsMap.values reg).
Proof.
  intros [_ Hall]. unfold JsMap.values. apply Forall_forall. intros p Hp.
  apply list_elem_of_In, in_map_iff in Hp as [[k q] [Hq Hin]]. simpl in Hq. subst q.
  apply list_elem_of_In in Hin.
  by destruct (proj1 (Forall_forall _ _) Hall _ Hin) as [_ ?].
Qed.

(** Grouping a list of descriptors by the four sections, in the page's
    order, loses none and repeats none. *)
Lemma group_by_section (l : list Plugin) :
  Forall (fun p => section p ∈ PluginRegistry.sections) l ->
  flat_map (fun sec => List.filter (fun p => String.eqb (section p) sec) l)
    DemoPage.sections ≡ₚ l.
Proof.
  induction l as [|x l IH]; intros Hall; [done|].
  apply Forall_cons in Hall as [Hx Hall]. specialize (IH Hall).
  unfold DemoPage.sections in *. cbn [flat_map List.filter] in *.
  rewrite !app_nil_r in *.
  destruct (sections_cases _ Hx) as [E|[E|[E|E]]]; rewrite E; cbn.
  - by constructor.
  - symmetry. by apply Permutation_cons_app.
  - rewrite (app_assoc (List.filter _ l)). symmetry.
    apply Permutation_cons_app. by rewrite <- app_assoc.
  - rewrite (app_assoc (List.filter _ l)), (app_assoc (_ ++ _)). symmetry.
    rewrite <- (app_nil_r (x :: _)). simpl.
    apply Permutation_cons_app. by rewrite app_nil_r, <- !app_assoc.
Qed.

End SectionFacts.

(** X5: on any registry the calls can have produced, the initial state of
    DemoPage (the four section queries, one after the other) holds every
    registered descriptor exactly once, and a query for a name that is
    not one of the four sections answers the empty list. *)
Theorem sections_partition_registry (calls : list RegistryCall) :
  DemoPage.initialPlugins (registry_after calls)
    ≡ₚ JsMap.values (registry_after calls) /\
  (forall sec, sec ∉ PluginRegistry.sections ->
     PluginRegistry.getPluginsBySection sec (registry_after calls) = []).
Proof.
  pose proof (values_sections _ (registry_after_ok calls)) as Hall.
  split.
  - apply (group_by_section _ Hall).
  - intros sec Hsec. unfold PluginRegistry.getPluginsBySection.
    induction Hall as [|p l Hp Hall IH]; simpl; [done|].
    destruct (String.eqb (section p) sec) eqn:E; [|done].
    apply String.eqb_eq in E. congruence.
Qed.

(** ** More of the event bus *)

Section EventBusMore.
Import PluginEventBus.
Implicit Types (events : gmap string (list EventHandler)) (h : EventHandler).

(** [indexOf] finds the place of the first occurrence, the very element
    [splice] then removes. *)
Lemma indexOf_from_spec h hs : forall i,
  (indexOf_from i h hs = -1 /\ remove_first h hs = hs) \/
  (exists n : nat, indexOf_from i h hs = i + Z.of_nat n /\
                   delete n hs = remove_first h hs).
Proof.
  induction hs as [|g hs IH]; intros i; simpl.
  - by left.
  - destruct (Nat.eqb (hid g) (hid h)) eqn:E.
    + right. exists 0%nat. split; [lia | done].
    + destruct (IH (i + 1)) as [[Hi Hr]|(n & Hi & Hr)].
      * left. by rewrite Hr.
      * right. exists (S n). split; [lia|]. simpl. by rewrite Hr.
Qed.

Lemma handlers_of_insert event hs events :
  handlers_of event (<[event := hs]> events) = hs.
Proof. unfold handlers_of. by rewrite lookup_insert_eq. Qed.

Lemma handlers_of_insert_ne event ev hs events :
  ev <> event -> handlers_of ev (<[event := hs]> events) = handlers_of ev events.
Proof. intros Hne. unfold handlers_of. by rewrite lookup_insert_ne. Qed.

Lemma handlers_of_unsubscribe event h events :
  handlers_of event (unsubscribe event h events)
  = remove_first h (handlers_of event events).
Proof.
  unfold unsubscribe. unfold handlers_of at 2.
  destruct (events !! event) as [hs|] eqn:Hev; simpl.
  - unfold indexOf.
    destruct (indexOf_from_spec h hs 0) as [[Hi Hr]|(n & Hi & Hr)]; rewrite Hi.
    + simpl. rewrite Hr. unfold handlers_of. by rewrite Hev.
    + replace (0 + Z.of_nat n >? -1) with true by (symmetry; apply Z.gtb_lt; lia).
      rewrite handlers_of_insert. unfold splice1.
      by rewrite Z.add_0_l, Nat2Z.id.
  - unfold handlers_of. by rewrite Hev.
Qed.

Lemma handlers_of_unsubscribe_ne event ev h events :
  ev <> event -> handlers_of ev (unsubscribe event h events) = handlers_of ev events.
Proof.
  intros Hne. unfold unsubscribe.
  destruct (events !! event) as [hs|]; [|done].
  destruct (indexOf h hs >? -1); [|done].
  by apply handlers_of_insert_ne.
Qed.

Lemma handlers_of_subscribe_all event hs : forall events,
  handlers_of event (subscribe_all event hs events)
  = (handlers_of event events ++ hs)%list.
Proof.
  induction hs as [|h hs IH]; intros events.
  - simpl. by rewrite app_nil_r.
  - unfold subscribe_all in *. cbn [fold_left].
    rewrite IH, handlers_of_subscribe. by rewrite <- app_assoc.
Qed.

Lemma handlers_of_subscribe_all_ne event ev hs : forall events,
  event <> ev ->
  handlers_of ev (subscribe_all event hs events) = handlers_of ev events.
Proof.
  induction hs as [|h hs IH]; intros events Hne; [done|].
  unfold subscribe_all in *. cbn [fold_left]. rewrite (IH _ Hne).
  by apply handlers_of_subscribe_ne.
Qed.

(** A [publish] of an event without handlers calls nothing. *)
Lemma publish_nobody {stack : CallStack} event data events e :
  handlers_of event events = [] ->
  invocations (trace (fst (publish event data events e))) = invocations (trace e).
Proof.
  intros Hnil. rewrite publish_spec, (delivery_nil _ _ _ _ Hnil). cbn [fst trace d_env].
  unfold invocations. rewrite omap_app. apply app_nil_r.
Qed.

End EventBusMore.

(** X6: the function that [subscribe] returns, called on any state of the
    bus, takes the first subscription of its handler out of the list of
    its event and leaves the other handlers of the event in their order;
    when the handler is not subscribed the list stays as it is; the lists
    of all other events are untouched. *)
Theorem unsubscribe_removes_first_occurrence
    (event : string) (h : EventHandler) (events : gmap string (list EventHandler)) :
  handlers_of event (PluginEventBus.unsubscribe event h events)
    = remove_first h (handlers_of event events) /\
  (forall ev, ev <> event ->
     handlers_of ev (PluginEventBus.unsubscribe event h events) = handlers_of ev events).
Proof.
  split; [apply handlers_of_unsubscribe|].
  intros ev Hne. by apply handlers_of_unsubscribe_ne.
Qed.

(** X7: after [clear(event)] no handler is left on the event, so a
    publish of it calls no handler, and an unsubscribe function handed out
    before the clear changes nothing; the handlers of the other events
    stay. After [clearAll()] this holds for every event. *)
Theorem clear_drops_handlers {stack : CallStack}
    (event : string) (h : EventHandler) (data : JsVal)
    (events : gmap string (list EventHandler)) (e : Env) :
  handlers_of event (PluginEventBus.clear event events) = [] /\
  (forall ev, ev <> event ->
     handlers_of ev (PluginEventBus.clear event events) = handlers_of ev events) /\
  PluginEventBus.unsubscribe event h (PluginEventBus.clear event events)
    = PluginEventBus.clear event events /\
  invocations (trace (fst (PluginEventBus.publish event data
                             (PluginEventBus.clear event events) e)))
    = invocations (trace e) /\
  (forall ev,
     handlers_of ev (PluginEventBus.clearAll events) = [] /\
     PluginEventBus.unsubscribe ev h (PluginEventBus.clearAll events)
       = PluginEventBus.clearAll events /\
     invocations (trace (fst (PluginEventBus.publish ev data
                                (PluginEventBus.clearAll events) e)))
       = invocations (trace e)).
Proof.
  assert (Hc : handlers_of event (PluginEventBus.clear event events) = []).
  { unfold handlers_of, PluginEventBus.clear. by rewrite lookup_delete_eq. }
  repeat split.
  - done.
  - intros ev Hne. unfold handlers_of, PluginEventBus.clear.
    by rewrite lookup_delete_ne.
  - unfold PluginEventBus.unsubscribe, PluginEventBus.clear.
    by rewrite lookup_delete_eq.
  - by apply publish_nobody.
  - apply publish_nobody. unfold handlers_of, PluginEventBus.clearAll.
    by rewrite lookup_empty.
Qed.

(** X8: handlers subscribed one after the other to an event are called
    by a publish of that event after the handlers that were there before,
    each once per subscription and in the order of the subscriptions, if
    during that publish no handler takes a handler off the list of the
    event or publishes; no error reaches the caller of the publish,
    whatever the handlers do; the handlers of every other event are
    untouched by these subscriptions. *)
Theorem publish_in_subscription_order {stack : CallStack}
    (event : string) (hs : list EventHandler) (data : JsVal)
    (events : gmap string (list EventHandler)) (e : Env) :
  threw (snd (PluginEventBus.publish event data (subscribe_all event hs events) e)) = false /\
  (undisturbed event (trace e)
     (trace (fst (PluginEventBus.publish event data (subscribe_all event hs events) e))) ->
   invocations (trace (fst (PluginEventBus.publish event data
                              (subscribe_all event hs events) e)))
     = (invocations (trace e)
        ++ ((fun g => (hid g, data)) <$> handlers_of event events)
        ++ ((fun g => (hid g, data)) <$> hs))%list) /\
  (forall ev, event <> ev ->
     handlers_of ev (subscribe_all event hs events) = handlers_of ev events).
Proof.
  split; [by rewrite publish_spec|]. split.
  - intros Hcalm. rewrite (publish_undisturbed _ _ _ _ Hcalm), handlers_of_subscribe_all.
    by rewrite fmap_app.
  - intros ev Hne. by apply handlers_of_subscribe_all_ne.
Qed.

Section SecludedFacts.
Import PluginEventBus.

Lemma secluded_empty : secluded ∅.
Proof. intros event hs Hl. by rewrite lookup_empty in Hl. Qed.

Lemma secluded_subscribe event h events :
  secluded events -> (forall data, storage_bound (hbody h data)) ->
  secluded (fst (subscribe event h events)).
Proof.
  intros Hsec Hh ev hs Hl.
  destruct (decide (ev = event)) as [->|Hne].
  - pose proof (handlers_of_subscribe event h events) as Hs.
    unfold handlers_of in Hs. rewrite Hl in Hs. simpl in Hs. subst hs.
    apply Forall_app. split; [|by repeat constructor].
    destruct (events !! event) as [hs|] eqn:Hev; simpl; [by eapply Hsec | constructor].
  - pose proof (handlers_of_subscribe_ne event ev h events ltac:(congruence)) as Hs.
    unfold handlers_of in Hs. rewrite Hl in Hs. simpl in Hs.
    destruct (events !! ev) as [hs'|] eqn:Hev; simpl in Hs; subst hs.
    + by eapply Hsec.
    + constructor.
Qed.

End SecludedFacts.

(** X21: on a bus whose handlers act on the storage only (they do not
    call the bus), every [publish] is undisturbed: it leaves the bus as it
    was and calls the handlers of the event once each, in subscription
    order. *)
Theorem storage_handlers_leave_bus_alone {stack : CallStack}
    (event : string) (data : JsVal)
    (events : gmap string (list EventHandler)) (e : Env) :
  secluded events ->
  undisturbed event (trace e) (trace (fst (PluginEventBus.publish event data events e))) /\
  snd (PluginEventBus.publish event data events e) = Normal events /\
  invocations (trace (fst (PluginEventBus.publish event data events e)))
  = (invocations (trace e) ++ ((fun g => (hid g, data)) <$> handlers_of event events))%list.
Proof.
  intros Hsec. destruct (publish_secluded event data events e Hsec) as [Hcalm Hbus].
  split; [done|]. split; [done|]. by apply publish_undisturbed.
Qed.

Lemma storage_handlers_leave_bus_alone_witness :
  snd (PluginEventBus.publish (stack := Samples.stack) "ping" JNull
         Samples.bus_faulty Samples.env0) = Normal Samples.bus_faulty /\
  invocations (trace (fst (PluginEventBus.publish (stack := Samples.stack) "ping" JNull
                             Samples.bus_faulty Samples.env0)))
  = [(1%nat, JNull); (2%nat, JNull); (3%nat, JNull)].
Proof.
  destruct (storage_handlers_leave_bus_alone (stack := Samples.stack) "ping" JNull
              Samples.bus_faulty Samples.env0) as (_ & Hbus & Hcalls).
  - unfold Samples.bus_faulty.
    repeat (apply secluded_subscribe; [|intros; constructor]).
    apply secluded_empty.
  - split; [exact Hbus | exact Hcalls].
Defined.

(** ** More of the state store *)

Section StringFacts.

Lemma length_append (s t : string) :
  String.length (s +:+ t) = (String.length s + String.length t)%nat.
Proof. induction s as [|c s IH]; simpl; [done | by rewrite IH]. Qed.

Lemma append_inv_tail (t : string) : forall s1 s2 : string,
  s1 +:+ t = s2 +:+ t -> s1 = s2.
Proof.
  induction s1 as [|c s1 IH]; intros [|d s2] Heq; simpl in Heq.
  - done.
  - apply (f_equal String.length) in Heq.
    rewrite ?length_append in Heq. simpl in Heq. rewrite ?length_append in Heq. lia.
  - apply (f_equal String.length) in Heq.
    rewrite ?length_append in Heq. simpl in Heq. rewrite ?length_append in Heq. lia.
  - injection Heq as -> Heq. f_equal. by apply IH.
Qed.

Lemma store_key_inj (a b : string) :
  PluginStateManager.key a = PluginStateManager.key b -> a = b.
Proof.
  unfold PluginStateManager.key. intros Heq. cbn in Heq.
  injection Heq as Heq.
  exact (append_inv_tail "_state" ("" +:+ a) ("" +:+ b) Heq).
Qed.

Lemma manager_key_inj (a b : string) :
  PluginManager.key a = PluginManager.key b -> a = b.
Proof.
  unfold PluginManager.key. intros Heq. cbn in Heq.
  injection Heq as Heq. exact Heq.
Qed.

Lemma pretty_Z_nonempty (n : Z) : pretty n <> "".
Proof.
  assert (Hgo : forall (x : N) s,
             (String.length s <= String.length (pretty_N_go x s))%nat).
  { intros x. induction (N.lt_wf_0 x) as [x _ IH]; intros s.
    destruct (decide (x = 0%N)) as [->|Hx].
    - by rewrite pretty_N_go_0.
    - rewrite pretty_N_go_step by lia.
      etrans; [|apply IH, N.div_lt; lia]. simpl. lia. }
  assert (Hpos : forall p : positive, pretty p <> "").
  { intros p. unfold pretty, pretty_positive, pretty, pretty_N.
    rewrite decide_False by done.
    rewrite pretty_N_go_step by lia.
    intros Heq.
    pose proof (Hgo (N.pos p `div` 10)%N
                  (String (pretty_N_char (N.pos p `mod` 10)) "")) as Hlen.
    rewrite Heq in Hlen. simpl in Hlen. lia. }
  destruct n as [|p|p]; simpl; [discriminate | apply Hpos | discriminate].
Qed.

End StringFacts.

Section StateStoreMore.
Context {codec : JSON}.
Import PluginStateManager.

Lemma loadState_storage pluginId e :
  storage (fst (loadState pluginId e)) = storage e /\
  threw (snd (loadState pluginId e)) = false.
Proof.
  unfold loadState, try_catch, bind, getItem, gets.
  destruct (storage e !! key pluginId) as [s|]; [|done].
  destruct (truthy s); [|done].
  unfold liftC. by destruct (JSON_parse s).
Qed.

(** What [loadState] returns depends on the text under its key only. *)
Lemma loadState_reads_its_key pluginId e1 e2 :
  storage e1 !! key pluginId = storage e2 !! key pluginId ->
  snd (loadState pluginId e1) = snd (loadState pluginId e2).
Proof.
  intros Heq. unfold loadState, try_catch, bind, getItem, gets. rewrite Heq.
  destruct (storage e2 !! key pluginId) as [s|]; [|done].
  destruct (truthy s); [|done].
  unfold liftC. by destruct (JSON_parse s).
Qed.

Lemma saveState_other_keys pluginId state e k :
  k <> key pluginId ->
  storage (fst (saveState pluginId state e)) !! k = storage e !! k.
Proof.
  intros Hne. unfold saveState, try_catch, bind, liftC.
  destruct (JSON_stringify state) as [text|err]; simpl; [|done].
  by rewrite lookup_insert_ne.
Qed.

End StateStoreMore.

(** X9: [loadState] never throws and never writes to localStorage. When
    the stored text does not parse, it returns [null] and writes the
    parser's error to the console; when the stored text is empty it
    returns [null] without parsing it. *)
Theorem loadState_never_throws {codec : JSON} (pluginId : string) (e : Env) :
  threw (snd (PluginStateManager.loadState pluginId e)) = false /\
  storage (fst (PluginStateManager.loadState pluginId e)) = storage e /\
  (forall text err,
     storage e !! PluginStateManager.key pluginId = Some text ->
     text <> "" ->
     JSON_parse text = Throw err ->
     PluginStateManager.loadState pluginId e
     = (observe (ConsoleError ("Failed to load state for plugin " +:+ pluginId +:+ ":") err) e,
        Normal JNull)) /\
  (storage e !! PluginStateManager.key pluginId = Some "" ->
     PluginStateManager.loadState pluginId e = (e, Normal JNull)).
Proof.
  destruct (loadState_storage pluginId e) as [Hst Hth].
  repeat split; [done | done | |].
  - intros text err Hs Hne Hp.
    rewrite (loadState_present pluginId text e Hs Hne). by rewrite Hp.
  - intros Hs. unfold PluginStateManager.loadState, try_catch, bind, getItem, gets.
    by rewrite Hs.
Qed.

(** X10: the keys of the State Store keep plugins apart: saving or
    clearing the state of one plugin id never changes what [loadState]
    returns for another id. *)
Theorem store_isolates_plugins {codec : JSON}
    (a b : string) (state : JsVal) (e : Env) :
  a <> b ->
  snd (PluginStateManager.loadState b (fst (PluginStateManager.saveState a state e)))
    = snd (PluginStateManager.loadState b e) /\
  snd (PluginStateManager.loadState b (fst (PluginStateManager.clearState a e)))
    = snd (PluginStateManager.loadState b e).
Proof.
  intros Hne.
  assert (Hk : PluginStateManager.key b <> PluginStateManager.key a).
  { intros Heq. apply store_key_inj in Heq. congruence. }
  split; apply loadState_reads_its_key.
  - by apply saveState_other_keys.
  - simpl. by rewrite lookup_delete_ne.
Qed.

Lemma store_isolates_plugins_witness :
  snd (PluginStateManager.loadState (codec := ScalarJSON.json) "todo-list"
         (fst (PluginStateManager.saveState (codec := ScalarJSON.json) "counter" (JNum 5)
                 (mkEnv {["plugin_todo-list_state" := "7"]} []))))
  = Normal (JNum 7).
Proof.
  destruct (store_isolates_plugins (codec := ScalarJSON.json) "counter" "todo-list"
              (JNum 5) (mkEnv {["plugin_todo-list_state" := "7"]} [])) as [Hs _].
  - discriminate.
  - rewrite Hs. vm_compute. reflexivity.
Defined.

(** X11: a state for which [JSON.stringify] returns [undefined] is stored
    as the text "undefined"; since that text is not JSON, a later
    [loadState] reports a parse error on the console and returns [null]. *)
Theorem save_undefined_then_load {codec : JSON}
    (pluginId : string) (state : JsVal) (err : Thrown) (e : Env) :
  JSON_stringify state = Normal None ->
  JSON_parse "undefined" = Throw err ->
  let e1 := fst (PluginStateManager.saveState pluginId state e) in
  snd (PluginStateManager.saveState pluginId state e) = Normal tt /\
  storage e1 !! PluginStateManager.key pluginId = Some "undefined" /\
  PluginStateManager.loadState pluginId e1
  = (observe (ConsoleError ("Failed to load state for plugin " +:+ pluginId +:+ ":") err) e1,
     Normal JNull).
Proof.
  intros Hs Hp. cbv zeta. rewrite (saveState_ok _ _ _ _ Hs). cbn [fst snd].
  assert (Hl : storage (set_storage
                          (insert (PluginStateManager.key pluginId) (stored_text None)) e)
               !! PluginStateManager.key pluginId = Some "undefined").
  { simpl. apply lookup_insert_eq. }
  repeat split; [done|].
  rewrite (loadState_present pluginId "undefined" _ Hl); [|done]. by rewrite Hp.
Qed.

Lemma save_undefined_then_load_witness :
  snd (PluginStateManager.loadState (codec := ScalarJSON.json) "counter"
         (fst (PluginStateManager.saveState (codec := ScalarJSON.json) "counter" JUndefined
                 Samples.env0)))
  = Normal JNull.
Proof.
  destruct (save_undefined_then_load (codec := ScalarJSON.json) "counter" JUndefined
              (ErrorObj "SyntaxError" "Unexpected token in JSON") Samples.env0)
    as (_ & _ & Hl).
  - reflexivity.
  - reflexivity.
  - by rewrite Hl.
Defined.

(** ** More of the manager *)

Section ManagerMore.
Context {codec : JSON} {stack : CallStack}.

Lemma remove_first_last (h : EventHandler) (hs : list EventHandler) :
  Forall (fun g => hid g <> hid h) hs -> remove_first h (hs ++ [h]) = hs.
Proof.
  induction hs as [|g hs IH]; intros Hall; simpl.
  - by rewrite Nat.eqb_refl.
  - apply Forall_cons in Hall as [Hne Hall].
    apply Nat.eqb_neq in Hne. rewrite Hne. by rewrite IH.
Qed.

(** The restoration stops at the first descriptor whose text does not
    parse, when the descriptors before it have nothing saved. *)
Lemma restorations_stop events st (before after : list Plugin) p text err :
  Forall (fun q => st !! PluginManager.key (id q) = None) before ->
  st !! PluginManager.key (id p) = Some text ->
  text <> "" ->
  JSON_parse text = Throw err ->
  snd (restorations events st (before ++ p :: after)) = Some err.
Proof.
  intros Hb Hs Hne Hp. induction Hb as [|q before Hq Hb IH]; simpl.
  - rewrite Hs. unfold truthy. apply String.eqb_neq in Hne. rewrite Hne. simpl.
    by rewrite Hp.
  - by rewrite Hq.
Qed.

(** The effect written out: the world after [loadPlugins] with one more
    subscription, and the cleanup that unsubscribes it. *)
Lemma effect_result sec fresh w :
  PluginManager.effect sec fresh w
  = (set_bus (fun _ => fst (PluginEventBus.subscribe "plugin:stateChange"
                              (PluginManager.stateChangeHandler fresh)
                              (pluginEventBus (fst (PluginManager.loadPlugins sec w)))))
       (fst (PluginManager.loadPlugins sec w)),
     Normal (set_bus (PluginEventBus.unsubscribe "plugin:stateChange"
                        (PluginManager.stateChangeHandler fresh)))).
Proof.
  destruct w as [reg events [st tr] m].
  destruct (loadPlugins_spec sec reg events st tr m)
    as (T & events' & st' & Hrun & _ & _ & _).
  unfold PluginManager.effect, bind. rewrite Hrun. cbn [fst snd pluginEventBus].
  pose proof (eq_refl : snd (PluginEventBus.subscribe "plugin:stateChange"
                               (PluginManager.stateChangeHandler fresh) events')
                        = PluginEventBus.unsubscribe "plugin:stateChange"
                            (PluginManager.stateChangeHandler fresh)) as Hun.
  destruct (PluginEventBus.subscribe "plugin:stateChange"
              (PluginManager.stateChangeHandler fresh) events') as [ev un].
  simpl in Hun. by subst un.
Qed.

(** The loading leaves alone a bus whose handlers act on the storage
    only. *)
Lemma loadPlugins_secluded sec w :
  secluded (pluginEventBus w) ->
  pluginEventBus (fst (PluginManager.loadPlugins sec w)) = pluginEventBus w.
Proof.
  destruct w as [reg events [st tr] m]. intros Hsec.
  destruct (loadPlugins_spec sec reg events st tr m)
    as (T & events' & st' & Hrun & _ & _ & Hsame).
  rewrite Hrun. simpl. by apply Hsame.
Qed.

End ManagerMore.

(** X12: the manager's own round trip. After its "plugin:stateChange"
    handler (whose script is the body [stateChange], which acts on the
    storage only) has handled a payload whose [pluginId] is the string
    [pid] and whose [state] is serializable, the restoration of a
    descriptor with the id [pid] publishes "<pid>:restore" with that
    state. *)
Theorem manager_save_then_restore {codec : JSON} {stack : CallStack}
    (fresh : nat) (fields : list (string * JsVal)) (pid : string) (s : JsVal)
    (plugin : Plugin) (reg : PluginRegistry.t)
    (events : gmap string (list EventHandler))
    (st : gmap string string) (tr : list Obs) (m : ManagerState) :
  field "pluginId" fields = JStr pid ->
  field "state" fields = s ->
  serializable s ->
  id plugin = pid ->
  let saved := PluginManager.stateChange (JObj fields) st in
  hbody (PluginManager.stateChangeHandler fresh) (JObj fields)
    = storage_only (PluginManager.stateChange (JObj fields)) /\
  snd saved = Normal tt /\
  publications
    (trace (env (fst (PluginManager.restore plugin
                        (mkWorld reg events (mkEnv (fst saved) tr) m)))))
  = (publications tr ++ [(pid +:+ ":restore", s)])%list.
Proof.
  intros Hpid Hstate (text & Hstr & Hparse) Hid. cbv zeta.
  split; [done|].
  unfold PluginManager.stateChange. cbn [PluginManager.destructure].
  rewrite Hpid, Hstate, Hstr. cbn [fst snd ToString stored_text].
  split; [done|].
  unfold PluginManager.restore, bind, in_env, getItem, gets.
  cbn [env storage fst snd]. rewrite Hid, lookup_insert_eq.
  pose proof (JSON_stringify_nonempty s text Hstr) as Hne.
  unfold truthy. apply String.eqb_neq in Hne. rewrite Hne. cbn [negb].
  unfold liftC. rewrite Hparse.
  cbn [pluginRegistry pluginEventBus env ui].
  rewrite bus_publish_spec. cbn [fst env trace].
  change (Published (pid +:+ ":restore") s :: ?T)
    with ([Published (pid +:+ ":restore") s] ++ T)%list.
  unfold publications. rewrite !omap_app, delivery_silent by done.
  by rewrite app_nil_r.
Qed.

Lemma manager_save_then_restore_witness :
  publications
    (trace (env (fst (PluginManager.restore (codec := ScalarJSON.json)
                        (stack := Samples.stack) Samples.CounterPlugin
       (mkWorld [] ∅
          (mkEnv (fst (PluginManager.stateChange (codec := ScalarJSON.json)
                         Samples.counter_changed ∅)) [])
          (mkManagerState [] None))))))
  = [("counter:restore", JNum 5)].
Proof.
  destruct (manager_save_then_restore (codec := ScalarJSON.json) (stack := Samples.stack) 9
              [("pluginId", JStr "counter"); ("state", JNum 5)] "counter" (JNum 5)
              Samples.CounterPlugin [] ∅ ∅ [] (mkManagerState [] None)) as (_ & _ & Hp).
  - reflexivity.
  - reflexivity.
  - exists "5". split; vm_compute; reflexivity.
  - reflexivity.
  - exact Hp.
Defined.

(** X13: the effect of the manager never throws; after the loading it
    subscribes one handler to "plugin:stateChange", and the cleanup
    function it returns takes that handler off again: for a closure that
    is new to the bus, after the cleanup every event has the handlers it
    had when the effect subscribed, and the cleanup leaves localStorage and
    the console alone. When the handlers on the bus act on the storage
    only, the loading leaves the bus as it was, and these are the handlers
    from before the effect. *)
Theorem effect_then_cleanup {codec : JSON} {stack : CallStack}
    (w : World) (sec : string) (fresh : nat) :
  let loaded := pluginEventBus (fst (PluginManager.loadPlugins sec w)) in
  Forall (fun g => hid g <> fresh) (handlers_of "plugin:stateChange" loaded) ->
  exists cleanup,
    snd (PluginManager.effect sec fresh w) = Normal cleanup /\
    handlers_of "plugin:stateChange"
      (pluginEventBus (fst (PluginManager.effect sec fresh w)))
    = (handlers_of "plugin:stateChange" loaded
       ++ [PluginManager.stateChangeHandler fresh])%list /\
    (forall ev,
       handlers_of ev (pluginEventBus (cleanup (fst (PluginManager.effect sec fresh w))))
       = handlers_of ev loaded) /\
    env (cleanup (fst (PluginManager.effect sec fresh w)))
    = env (fst (PluginManager.effect sec fresh w)) /\
    (secluded (pluginEventBus w) -> loaded = pluginEventBus w).
Proof.
  cbv zeta. intros Hfresh. rewrite effect_result. cbn [fst snd].
  eexists. split; [reflexivity|].
  unfold set_bus. cbn [pluginEventBus env].
  split; [apply handlers_of_subscribe|]. split; [|split; [done|]].
  - intros ev. destruct (decide (ev = "plugin:stateChange")) as [->|Hne].
    + rewrite handlers_of_unsubscribe, handlers_of_subscribe.
      by apply remove_first_last.
    + rewrite (handlers_of_unsubscribe_ne _ _ _ _ Hne).
      apply handlers_of_subscribe_ne. congruence.
  - apply loadPlugins_secluded.
Qed.

Lemma effect_then_cleanup_witness :
  exists cleanup,
    snd (PluginManager.effect (codec := ScalarJSON.json) (stack := Samples.stack)
           "sidebar" 9 Samples.world0)
      = Normal cleanup /\
    hid <$> handlers_of "plugin:stateChange"
              (pluginEventBus (fst (PluginManager.effect (codec := ScalarJSON.json)
                                      (stack := Samples.stack) "sidebar" 9 Samples.world0)))
      = [9%nat] /\
    handlers_of "plugin:stateChange"
      (pluginEventBus (cleanup (fst (PluginManager.effect (codec := ScalarJSON.json)
                                       (stack := Samples.stack) "sidebar" 9 Samples.world0))))
      = [].
Proof.
  destruct (effect_then_cleanup (codec := ScalarJSON.json) (stack := Samples.stack)
              Samples.world0 "sidebar" 9)
    as (cleanup & Hc & Hs & Hall & _).
  - vm_compute. constructor.
  - exists cleanup. split; [exact Hc|]. split.
    + rewrite Hs. reflexivity.
    + rewrite Hall. reflexivity.
Defined.

(** X14: one saved text that is not JSON blanks the whole zone. When a
    descriptor of the zone has a non-empty saved text that does not parse
    (the descriptors before it having nothing saved) and the parser's
    message is not empty, then after the effect the manager renders the
    error box with that message and no plugin of the zone at all, the
    healthy ones included. *)
Theorem corrupt_text_blanks_zone {codec : JSON} {stack : CallStack}
    (w : World) (sec : string) (fresh : nat)
    (before after : list Plugin) (p : Plugin) (text : string) (err : Thrown) :
  PluginRegistry.getPluginsBySection sec (pluginRegistry w) = (before ++ p :: after)%list ->
  Forall (fun q => storage (env w) !! PluginManager.key (id q) = None) before ->
  storage (env w) !! PluginManager.key (id p) = Some text ->
  text <> "" ->
  JSON_parse text = Throw err ->
  message_or "Failed to load plugins" err <> "" ->
  snd (PluginManager.renderZone (fst (PluginManager.effect sec fresh w)))
  = Normal (Div None "p-4 bg-red-100 text-red-700 rounded"
              [Text "Error loading plugins: ";
               Text (message_or "Failed to load plugins" err)]).
Proof.
  intros Hzone Hb Hs Hne Hp Hmsg. destruct w as [reg events [st tr] m].
  cbn [pluginRegistry env storage] in *.
  destruct (loadPlugins_spec sec reg events st tr m)
    as (T & events' & st' & Hrun & _ & _ & _).
  rewrite Hzone, (restorations_stop events st before after p text err Hb Hs Hne Hp) in Hrun.
  rewrite effect_result, Hrun. cbn [fst snd].
  unfold PluginManager.renderZone, in_env, set_bus.
  cbn [ui env pluginRegistry pluginEventBus].
  unfold PluginManager.render. cbn [error plugins].
  unfold truthy. apply String.eqb_neq in Hmsg. rewrite Hmsg. reflexivity.
Qed.

Lemma corrupt_text_blanks_zone_witness :
  snd (PluginManager.renderZone
         (fst (PluginManager.effect (codec := ScalarJSON.json) (stack := Samples.stack) "sidebar" 9
                 Samples.world_corrupt)))
  = Normal (Div None "p-4 bg-red-100 text-red-700 rounded"
              [Text "Error loading plugins: "; Text "Unexpected token in JSON"]).
Proof.
  apply (corrupt_text_blanks_zone (codec := ScalarJSON.json) (stack := Samples.stack)
           Samples.world_corrupt
           "sidebar" 9 [] [Samples.Y] Samples.Z_mounting "{oops"
           (ErrorObj "SyntaxError" "Unexpected token in JSON")).
  - reflexivity.
  - constructor.
  - reflexivity.
  - discriminate.
  - reflexivity.
  - discriminate.
Defined.

(** ** CounterComponent *)

Section CounterFacts.
Context {codec : JSON}.
Variable parseInt : string -> option Z.

Lemma counter_effect_reads_its_key fresh count events e1 e2 :
  storage e1 !! "counter_state" = storage e2 !! "counter_state" ->
  CounterComponent.r_setCount (CounterComponent.effect parseInt fresh count events e1)
  = CounterComponent.r_setCount (CounterComponent.effect parseInt fresh count events e2).
Proof. intros Heq. unfold CounterComponent.effect. simpl. by rewrite Heq. Qed.

End CounterFacts.

(** X15: the count that CounterComponent restores when its effect runs
    is read from the key "counter_state", which neither the manager nor
    the State Store ever writes: a state saved through "plugin:stateChange"
    (whatever the payload), through [saveState] or removed through
    [clearState], for any plugin id, leaves that restore as it was. *)
Theorem counter_ignores_manager_and_store {codec : JSON}
    (parseInt : string -> option Z) (fresh : nat) (count : Z)
    (events : gmap string (list EventHandler)) (e : Env)
    (data state : JsVal) (pluginId : string) :
  let restore env' :=
    CounterComponent.r_setCount (CounterComponent.effect parseInt fresh count events env') in
  restore (mkEnv (fst (PluginManager.stateChange data (storage e)))
                 (trace e)) = restore e /\
  restore (fst (PluginStateManager.saveState pluginId state e)) = restore e /\
  restore (fst (PluginStateManager.clearState pluginId e)) = restore e.
Proof.
  cbv zeta. repeat split; apply counter_effect_reads_its_key.
  - unfold PluginManager.stateChange. cbn [storage].
    destruct (PluginManager.destructure data) as [[pid s]|err]; [|done].
    destruct (JSON_stringify s) as [text|err]; [|done].
    cbn [fst]. by rewrite lookup_insert_ne.
  - by apply saveState_other_keys.
  - simpl. by rewrite lookup_delete_ne.
Qed.

(** X16: the cleanup of a run of CounterComponent's effect for the count
    [c] saves [c], and the run of the effect that follows finds it and
    calls [setCount(c)], whatever count [c'] the component was rendered
    with: a remount restores the count, and since [count] is a dependency
    of the effect, the run that follows a change of the count calls
    [setCount] with the count from before the change. The cleanup also
    takes the reset handler off the bus, so the subscriptions do not pile
    up. *)
Theorem counter_cleanup_then_effect
    (parseInt : string -> option Z) (fresh fresh' : nat) (c c' : Z)
    (events : gmap string (list EventHandler)) (e : Env) :
  parseInt (ToString (JNum c)) = Some c ->
  Forall (fun g => hid g <> fresh) (handlers_of "counter:reset" events) ->
  let r := CounterComponent.effect parseInt fresh c events e in
  let after := CounterComponent.cleanup r (CounterComponent.r_events r)
                 (CounterComponent.r_env r) in
  let r' := CounterComponent.effect parseInt fresh' c' (fst after) (snd after) in
  storage (snd after) !! "counter_state" = Some (ToString (JNum c)) /\
  CounterComponent.r_setCount r' = Some (Some c) /\
  (forall ev, handlers_of ev (fst after) = handlers_of ev events) /\
  handlers_of "counter:reset" (CounterComponent.r_events r')
  = (handlers_of "counter:reset" events ++ [CounterComponent.resetHandler fresh'])%list.
Proof.
  intros Hparse Hfresh. cbv zeta.
  unfold CounterComponent.cleanup, CounterComponent.effect.
  cbn [CounterComponent.r_events CounterComponent.r_env CounterComponent.r_count
       CounterComponent.r_handler CounterComponent.r_setCount fst snd].
  assert (Hall : forall ev,
    handlers_of ev
      (PluginEventBus.unsubscribe "counter:reset" (CounterComponent.resetHandler fresh)
         (fst (PluginEventBus.subscribe "counter:reset"
                 (CounterComponent.resetHandler fresh) events)))
    = handlers_of ev events).
  { intros ev. destruct (decide (ev = "counter:reset")) as [->|Hne].
    - rewrite handlers_of_unsubscribe, handlers_of_subscribe.
      by apply remove_first_last.
    - rewrite (handlers_of_unsubscribe_ne _ _ _ _ Hne).
      apply handlers_of_subscribe_ne. congruence. }
  repeat split.
  - simpl. apply lookup_insert_eq.
  - cbn [set_storage storage]. rewrite lookup_insert_eq.
    pose proof (pretty_Z_nonempty c) as Hne. cbn [ToString] in *.
    unfold truthy. apply String.eqb_neq in Hne. rewrite Hne. cbn [negb].
    by rewrite Hparse.
  - exact Hall.
  - rewrite handlers_of_subscribe. by rewrite Hall.
Qed.

Lemma counter_cleanup_then_effect_witness :
  let r := CounterComponent.effect ScalarJSON.integer 1 5 ∅ Samples.env0 in
  let after := CounterComponent.cleanup r (CounterComponent.r_events r)
                 (CounterComponent.r_env r) in
  CounterComponent.r_setCount
    (CounterComponent.effect ScalarJSON.integer 2 6 (fst after) (snd after))
  = Some (Some 5).
Proof.
  destruct (counter_cleanup_then_effect ScalarJSON.integer 1 2 5 6 ∅ Samples.env0)
    as (_ & Hc & _).
  - vm_compute. reflexivity.
  - vm_compute. constructor.
  - exact Hc.
Defined.

(** ** PluginContainer and HomePage *)

Section ContainerFacts.

Lemma wrapped_tag name key attrs children :
  wrapped (Tag name key attrs children)
  = ((if bool_decide (("className", "plugin-wrapper") ∈ attrs)
      then match key with Some k => [k] | None => [] end
      else [])
     ++ flat_map wrapped children)%list.
Proof.
  simpl. f_equal.
Qed.

Lemma wrapped_container sec children :
  wrapped (Tag "div" None [("className", "plugin-container"); ("data-section", sec)] children)
  = flat_map wrapped children.
Proof.
  rewrite wrapped_tag. rewrite bool_decide_eq_false_2; [done|].
  rewrite !elem_of_cons. intros [H|[H|H]]; try discriminate.
  by apply not_elem_of_nil in H.
Qed.

Lemma forallb_Permutation {A} (f : A -> bool) (l l' : list A) :
  l ≡ₚ l' -> forallb f l = forallb f l'.
Proof.
  induction 1 as [|x l l' _ IH|x y l|l l' l'' _ IH1 _ IH2]; simpl.
  - done.
  - by rewrite IH.
  - by destruct (f x), (f y).
  - by rewrite IH1.
Qed.

(** The children of a container: all wrappers when every component
    returns, the error of the first component that throws otherwise. *)
Lemma mapC_wrapper (ps : list Plugin) :
  (forallb healthy ps = true ->
     exists children,
       mapC PluginContainer.wrapper ps = Normal children /\
       flat_map wrapped children = id <$> ps) /\
  (forall before p after err,
     ps = (before ++ p :: after)%list -> forallb healthy before = true ->
     component p (spread_config (config p)) = Throw err ->
     mapC PluginContainer.wrapper ps = Throw err).
Proof.
  induction ps as [|q ps [IHok IHbad]]; split.
  - intros _. by exists [].
  - intros [|? ?] ? ? ? Heq; discriminate.
  - simpl. intros Hall. apply andb_true_iff in Hall as [Hq Hall].
    destruct (IHok Hall) as (children & Hc & Hw).
    unfold healthy in Hq. unfold PluginContainer.wrapper at 1.
    destruct (component q (spread_config (config q))) as [el|err]; [|done].
    cbn [bindC]. rewrite Hc. cbn [bindC]. eexists. split; [reflexivity|].
    cbn [flat_map]. rewrite wrapped_tag, bool_decide_eq_true_2
      by (apply elem_of_cons; by left).
    rewrite Hw. reflexivity.
  - intros before p after err Heq Hb Hp. destruct before as [|b before].
    + simpl in Heq. injection Heq as <- <-. simpl.
      unfold PluginContainer.wrapper at 1. by rewrite Hp.
    + simpl in Heq. injection Heq as <- ->. simpl in Hb.
      apply andb_true_iff in Hb as [Hq Hb]. simpl.
      unfold healthy in Hq. unfold PluginContainer.wrapper at 1.
      destruct (component q (spread_config (config q))) as [el|err']; [|done].
      simpl. by rewrite (IHbad before p after err eq_refl Hb Hp).
Qed.

(** A list has an unhealthy plugin after a healthy prefix, or none. *)
Lemma first_unhealthy (ps : list Plugin) :
  forallb healthy ps = false ->
  exists before p after err,
    ps = (before ++ p :: after)%list /\ forallb healthy before = true /\
    component p (spread_config (config p)) = Throw err.
Proof.
  induction ps as [|q ps IH]; simpl; [done|].
  destruct (healthy q) eqn:Hq; simpl.
  - intros Hps. destruct (IH Hps) as (before & p & after & err & -> & Hb & Hp).
    exists (q :: before), p, after, err. simpl. by rewrite Hq.
  - intros _. unfold healthy in Hq.
    destruct (component q (spread_config (config q))) as [el|err] eqn:Hc; [done|].
    by exists [], q, ps, err.
Qed.

Lemma container_cases sec (ps : list Plugin) :
  (forallb healthy ps = true /\
   exists m, PluginContainer.render sec ps = Normal m /\ wrapped m = id <$> ps) \/
  (forallb healthy ps = false /\
   exists err, PluginContainer.render sec ps = Throw err).
Proof.
  destruct (mapC_wrapper ps) as [Hok Hbad].
  destruct (forallb healthy ps) eqn:Hall.
  - left. split; [done|]. destruct (Hok eq_refl) as (children & Hc & Hw).
    unfold PluginContainer.render. rewrite Hc. simpl. eexists. split; [reflexivity|].
    by rewrite wrapped_container.
  - right. split; [done|].
    destruct (first_unhealthy ps Hall) as (before & p & after & err & Heq & Hb & Hp).
    exists err. unfold PluginContainer.render.
    by rewrite (Hbad before p after err Heq Hb Hp).
Qed.

Lemma keys_values (reg : PluginRegistry.t) :
  registry_ok reg -> JsMap.keys reg = id <$> JsMap.values reg.
Proof.
  intros [_ Hall]. induction Hall as [|[k v] reg [Hk _] Hall IH]; simpl; [done|].
  simpl in Hk. subst k. f_equal. apply IH.
Qed.

End ContainerFacts.

(** X17: PluginContainer has no error boundary. When every component of
    its plugins returns, it renders one wrapper per plugin, keyed by the
    plugin's id, in the order of the list; when a component throws, the
    render of the whole container throws that error (that of the first
    component to fail), and no plugin of the container is shown. *)
Theorem container_fails_as_a_whole (sec : string) (ps : list Plugin) :
  (forallb healthy ps = true ->
     exists m, PluginContainer.render sec ps = Normal m /\ wrapped m = id <$> ps) /\
  (forall before p after err,
     ps = (before ++ p :: after)%list -> forallb healthy before = true ->
     component p (spread_config (config p)) = Throw err ->
     PluginContainer.render sec ps = Throw err).
Proof.
  destruct (mapC_wrapper ps) as [Hok Hbad]. split.
  - intros Hall. destruct (Hok Hall) as (children & Hc & Hw).
    unfold PluginContainer.render. rewrite Hc. simpl. eexists. split; [reflexivity|].
    by rewrite wrapped_container.
  - intros before p after err Heq Hb Hp. unfold PluginContainer.render.
    by rewrite (Hbad before p after err Heq Hb Hp).
Qed.

(** X18: on any registry the calls can have produced, HomePage renders
    if and only if the component of every registered plugin returns: one
    registered plugin whose component throws makes the render of the whole
    page throw. When the page renders, it shows every registered plugin
    exactly once. *)
Theorem home_page_all_or_nothing (calls : list RegistryCall) :
  let reg := registry_after calls in
  threw (HomePage.render reg) = negb (forallb healthy (JsMap.values reg)) /\
  (forall m, HomePage.render reg = Normal m -> wrapped m ≡ₚ JsMap.keys reg).
Proof.
  cbv zeta. pose proof (registry_after_ok calls) as Hok.
  set (reg := registry_after calls) in *.
  pose proof (group_by_section _ (values_sections _ Hok)) as Hperm.
  unfold DemoPage.sections in Hperm. cbn [flat_map] in Hperm.
  rewrite app_nil_r in Hperm.
  change (fun sec => List.filter (fun p => String.eqb (section p) sec) (JsMap.values reg))
    with (fun sec => PluginRegistry.getPluginsBySection sec reg) in Hperm.
  change (List.filter (fun p => String.eqb (section p) ?s) (JsMap.values reg))
    with (PluginRegistry.getPluginsBySection s reg) in Hperm.
  set (H := PluginRegistry.getPluginsBySection "header" reg) in *.
  set (S := PluginRegistry.getPluginsBySection "sidebar" reg) in *.
  set (C := PluginRegistry.getPluginsBySection "content" reg) in *.
  set (F := PluginRegistry.getPluginsBySection "footer" reg) in *.
  rewrite <- (forallb_Permutation healthy _ _ Hperm), !forallb_app.
  assert (Hkeys : (id <$> H) ++ (id <$> S) ++ (id <$> C) ++ (id <$> F)
                  ≡ₚ JsMap.keys reg).
  { rewrite (keys_values _ Hok), <- Hperm. by rewrite !fmap_app. }
  unfold HomePage.render. fold H S C F.
  destruct (container_cases "header" H)
    as [[-> (mh & -> & Hh)]|[-> (err & ->)]]; [|split; [done | intros ?; discriminate]].
  destruct (container_cases "sidebar" S)
    as [[-> (ms & -> & Hs)]|[-> (err & ->)]]; [|split; [done | intros ?; discriminate]].
  destruct (container_cases "content" C)
    as [[-> (mc & -> & Hc)]|[-> (err & ->)]]; [|split; [done | intros ?; discriminate]].
  destruct (container_cases "footer" F)
    as [[-> (mf & -> & Hf)]|[-> (err & ->)]]; [|split; [done | intros ?; discriminate]].
  split; [done|]. intros m [= <-].
  rewrite wrapped_tag. cbn [flat_map]. rewrite (wrapped_tag "div" None _ [ms; mc]).
  cbn [flat_map]. rewrite Hh, Hs, Hc, Hf.
  rewrite !bool_decide_eq_false_2.
  - simpl. rewrite !app_nil_r, <- !app_assoc. exact Hkeys.
  - rewrite !elem_of_cons. intros [E|E]; [discriminate | by apply not_elem_of_nil in E].
  - rewrite !elem_of_cons. intros [E|E]; [discriminate | by apply not_elem_of_nil in E].
Qed.


(** ** DemoPage and its settings panel *)

Section DemoPageFacts.

Lemma ids_handleSettingsChange en sec pid (prev : list Plugin) :
  id <$> DemoPage.handleSettingsChange en sec pid prev = id <$> prev.
Proof.
  unfold DemoPage.handleSettingsChange.
  induction prev as [|p prev IH]; [done|].
  cbn [map]. rewrite !fmap_cons, IH. f_equal.
  by destruct (String.eqb (id p) pid).
Qed.

(** The section lists after a change, read off the state before it. *)
Lemma sections_after_change en sec pid sec' (prev : list Plugin) :
  id <$> DemoPage.getPluginsBySection sec' (DemoPage.handleSettingsChange en sec pid prev)
  = id <$> List.filter
             (fun p => if String.eqb (id p) pid
                       then String.eqb (section (DemoPage.updated en sec p)) sec'
                       else String.eqb (section p) sec')
             prev.
Proof.
  unfold DemoPage.getPluginsBySection, DemoPage.handleSettingsChange.
  induction prev as [|p prev IH]; [done|].
  cbn [map List.filter].
  destruct (String.eqb (id p) pid).
  - destruct (String.eqb (section (DemoPage.updated en sec p)) sec');
      rewrite ?fmap_cons, IH; done.
  - destruct (String.eqb (section p) sec'); rewrite ?fmap_cons, IH; done.
Qed.

Lemma in_handleSettingsChange en sec pid (prev : list Plugin) p :
  p ∈ DemoPage.handleSettingsChange en sec pid prev ->
  id p = pid ->
  exists q, q ∈ prev /\ p = DemoPage.updated en sec q.
Proof.
  unfold DemoPage.handleSettingsChange. intros Hin Hid.
  apply list_elem_of_In, in_map_iff in Hin as (q & Hq & Hin).
  apply list_elem_of_In in Hin. exists q. split; [done|].
  destruct (String.eqb (id q) pid) eqn:E; [done|].
  apply String.eqb_neq in E. congruence.
Qed.

End DemoPageFacts.

(** X19: the settings panel of DemoPage. Toggling the checkbox of a
    plugin sets the enabled flag of the descriptors with its id and
    changes the membership of no section list: a disabled plugin stays in
    the list that its PluginContainer renders. Choosing a section moves
    the descriptors with the plugin's id to that section and no other
    descriptor, and sets their enabled flag to that of the panel's plugin,
    [false] when that plugin has no config. Neither change adds, drops or
    reorders a descriptor. *)
Theorem settings_panel_changes
    (plugin : Plugin) (prev : list Plugin) (checked : bool) (value : string) :
  value <> "" ->
  let flipped := PluginSettings.apply plugin (PluginSettings.onCheckbox plugin checked) prev in
  let moved := PluginSettings.apply plugin (PluginSettings.onSelect plugin value) prev in
  (forall sec,
     id <$> DemoPage.getPluginsBySection sec flipped
     = id <$> DemoPage.getPluginsBySection sec prev) /\
  (forall p, p ∈ flipped -> id p = id plugin -> enabled <$> config p = Some checked) /\
  id <$> flipped = id <$> prev /\
  id <$> moved = id <$> prev /\
  (forall sec,
     id <$> DemoPage.getPluginsBySection sec moved
     = id <$> List.filter
                (fun p => if String.eqb (id p) (id plugin)
                          then String.eqb value sec
                          else String.eqb (section p) sec)
                prev) /\
  (forall p, p ∈ moved -> id p = id plugin ->
     enabled <$> config p
     = Some (match config plugin with Some c => enabled c | None => false end)).
Proof.
  intros Hv. cbv zeta. unfold PluginSettings.apply, PluginSettings.onCheckbox,
    PluginSettings.onSelect. cbn [fst snd].
  assert (Ht : truthy value = true).
  { unfold truthy. apply String.eqb_neq in Hv. by rewrite Hv. }
  repeat split.
  - intros sec. rewrite sections_after_change. unfold DemoPage.getPluginsBySection.
    f_equal. apply filter_ext. intros p. simpl.
    by destruct (String.eqb (id p) (id plugin)).
  - intros p Hin Hid.
    by destruct (in_handleSettingsChange _ _ _ _ _ Hin Hid) as (q & _ & ->).
  - apply ids_handleSettingsChange.
  - apply ids_handleSettingsChange.
  - intros sec. rewrite sections_after_change.
    f_equal. apply filter_ext. intros p. simpl. by rewrite Ht.
  - intros p Hin Hid.
    by destruct (in_handleSettingsChange _ _ _ _ _ Hin Hid) as (q & _ & ->).
Qed.

Lemma settings_panel_changes_witness :
  let moved := PluginSettings.apply Fixtures.Bare
                 (PluginSettings.onSelect Fixtures.Bare "footer")
                 [Samples.A; Fixtures.Bare; Samples.B] in
  id <$> DemoPage.getPluginsBySection "footer" moved = ["bare"] /\
  id <$> DemoPage.getPluginsBySection "header" moved = [] /\
  section <$> moved = ["content"; "footer"; "content"].
Proof.
  destruct (settings_panel_changes Fixtures.Bare [Samples.A; Fixtures.Bare; Samples.B]
              true "footer") as (_ & _ & _ & _ & Hsec & _).
  - discriminate.
  - cbv zeta. rewrite !Hsec. repeat split.
Defined.

(** ** The todo plugins *)

(** X20: [toggleTodo] keeps the ids and the order of the list, and
    toggling the same id twice gives the list back; when no item has the
    id the list is unchanged. TodoListComponent publishes "todo:toggled"
    with the id on every call, also when no item has that id. *)
Theorem toggle_todo_twice {stack : CallStack}
    (target : Z) (todos : list TodoItem)
    (events : gmap string (list EventHandler)) (e : Env) :
  toggled target (toggled target todos) = todos /\
  todo_id <$> toggled target todos = todo_id <$> todos /\
  (Forall (fun t => todo_id t <> target) todos -> toggled target todos = todos) /\
  (exists events',
     snd (TodoListComponent.toggleTodo target todos events e)
       = Normal (events', toggled target todos)) /\
  publications (trace (fst (TodoListComponent.toggleTodo target todos events e)))
    = (publications (trace e) ++ [("todo:toggled", JNum target)])%list.
Proof.
  repeat split.
  - induction todos as [|[i t c] todos IH]; simpl; [done|].
    rewrite IH. f_equal. destruct (Z.eqb i target) eqn:E; simpl; rewrite E; [|done].
    by rewrite negb_involutive.
  - unfold toggled. induction todos as [|[i t c] todos IH]; [done|].
    cbn [map]. rewrite !fmap_cons, IH. f_equal.
    cbn [todo_id]. by destruct (Z.eqb i target).
  - intros Hall. induction Hall as [|[i t c] todos Hne Hall IH]; simpl; [done|].
    rewrite IH. simpl in Hne. apply Z.eqb_neq in Hne. by rewrite Hne.
  - unfold TodoListComponent.toggleTodo, bind. rewrite publish_spec. by eexists.
  - unfold TodoListComponent.toggleTodo, bind, ret. rewrite publish_spec.
    cbn [fst]. rewrite <- (publish_publications "todo:toggled" (JNum target) events e).
    by rewrite publish_spec.
Qed.
